(** * Score follower: the time-to-measure interpolation, click-to-seek and the
      per-frame renderer of the scrolling score viewer

    The repository contains two variants of one React component,
    [ScoreViewerScroll]: one with a boolean reveal switch and one with the
    three-state reveal mode [OFF | NOTE | CURTAIN].  [findCurrentMeasure] and
    [handleScoreClick] are the same text in both; the geometry mapper, the
    measure visibility helper and the note loop of the frame step differ and
    are embedded once per variant (modules [BoolReveal] and [TriReveal]).
    The rows of the anchor sidebar (module [AnchorSidebar]) and the names
    that the project service gives to uploaded files are embedded beside
    them.

    Numbers.  A JavaScript number is embedded as an exact rational ([Q]);
    rounding and overflow of IEEE doubles are outside the model.  The
    non-finite values that the code itself distinguishes or can produce by an
    unguarded division are explicit: the [Infinity] that [findCurrentMeasure]
    keeps in [measureEndTime] is [None] of an [option Q], and a note timestamp
    is a [JsNum] with [Infinity], [-Infinity] and [NaN]. *)

From stdpp Require Import gmap strings.
From Stdlib Require Import ZArith QArith Qminmax Qabs Lia Lqa List Bool Sorted Permutation.
From Stdlib Require Decimal DecimalN.
Import ListNotations.

Open Scope Q_scope.

(* ================================================================== *)
(** * Part I: the embedding                                            *)
(* ================================================================== *)

(** ** Comparisons of JavaScript numbers on rationals *)

(** [x <= y] and [x < y] as the booleans the code branches on. *)
Definition Qleb (x y : Q) : bool := Qle_bool x y.
Definition Qltb (x y : Q) : bool := negb (Qle_bool y x).

(** [Math.max] and [Math.min] on finite numbers. *)
Definition Math_max (x y : Q) : Q := if Qltb x y then y else x.
Definition Math_min (x y : Q) : Q := if Qltb y x then y else x.

(** ** [Array.prototype.sort] with a comparator

    [[...xs].sort((a, b) => key(a) - key(b))] copies the array and sorts the
    copy.  The sort is stable (ECMAScript 2019), so for a comparator that is
    a total preorder the result is determined: the elements in ascending key
    order, equal keys in the order of the input.  Insertion from the right
    computes exactly that list. *)
Section StableSort.
Context {A : Type}.
Variable leb : A -> A -> bool.

Fixpoint insertSorted (a : A) (l : list A) : list A :=
  match l with
  | [] => [a]
  | b :: tl => if leb a b then a :: l else b :: insertSorted a tl
  end.

Fixpoint stableSort (l : list A) : list A :=
  match l with
  | [] => []
  | a :: tl => insertSorted a (stableSort tl)
  end.
End StableSort.

(** ** Anchors and the position interpolator *)

(** [interface Anchor { measure: number; time: number }] *)
Record Anchor : Type := mkAnchor { measure : Z; time : Q }.

(** The comparator [(a, b) => a.time - b.time] as an order. *)
Definition byTime (a b : Anchor) : bool := Qleb (time a) (time b).

(** The comparator [(a, b) => a.measure - b.measure] as an order. *)
Definition byMeasure (a b : Anchor) : bool := (measure a <=? measure b)%Z.

(** The three locals of [findCurrentMeasure]: [currentMeasure],
    [measureStartTime] and [measureEndTime] ([None] is [Infinity]). *)
Record ScanState : Type := mkScan
  { currentMeasure : Z; measureStartTime : Q; measureEndTime : option Q }.

(** The [for] loop of [findCurrentMeasure], started at index [i] with [rest]
    the elements [sortedAnchors[i..]]: [sortedAnchors[i + 1]] is the head of
    the tail, [i + 1 < sortedAnchors.length] says the tail is not empty, and
    the [else] branch is the [break]. *)
Fixpoint scanAnchors (t : Q) (rest : list Anchor) (st : ScanState) : ScanState :=
  match rest with
  | [] => st
  | anchor :: tl =>
      if Qleb (time anchor) t then
        scanAnchors t tl
          {| currentMeasure := measure anchor;
             measureStartTime := time anchor;
             measureEndTime := match tl with
                               | next :: _ => Some (time next)
                               | [] => None
                               end |}
      else st
  end.

(** The result [{ measure, progress }]. *)
Record Located : Type := mkLocated { loc_measure : Z; progress : Q }.

(** Two results are the same when the measures are equal and the progress
    fractions are equal as rationals. *)
Definition Located_eq (a b : Located) : Prop :=
  loc_measure a = loc_measure b /\ progress a == progress b.

Definition findCurrentMeasure (anchors : list Anchor) (t : Q) : Located :=
  match anchors with
  | [] => {| loc_measure := 1; progress := 0 |}
  | _ :: _ =>
      let sortedAnchors := stableSort byTime anchors in
      let st := scanAnchors t sortedAnchors
                  {| currentMeasure := 1; measureStartTime := 0;
                     measureEndTime := None |} in
      let progress :=
        match measureEndTime st with
        | Some e =>
            if Qltb (measureStartTime st) e then
              Math_max 0 (Math_min 1
                ((t - measureStartTime st) / (e - measureStartTime st)))
            else 0
        | None => 0
        end in
      {| loc_measure := currentMeasure st; progress := progress |}
  end.

(** ** The reference definition of [locate] (spec section 4.1)

    Written from the words of the specification, to be compared with
    [findCurrentMeasure]: the anchors sorted by time; the active anchor is the
    last one whose time is at most the query time; the segment ends at the
    next anchor's time or is unbounded; the progress is the clamped quotient,
    and 0 for an unbounded or zero-length segment; the empty anchor set gives
    (1, 0).  Where the specification says nothing (anchors exist but none is
    at or before the query time) the reference is undefined. *)

(** The index of the last element of [l] whose time is at most [t]: the whole
    list is walked and every match overwrites the candidate. *)
Fixpoint lastIndexAtOrBefore (t : Q) (l : list Anchor) (i : nat)
    (candidate : option nat) : option nat :=
  match l with
  | [] => candidate
  | a :: tl =>
      lastIndexAtOrBefore t tl (S i)
        (if Qleb (time a) t then Some i else candidate)
  end.

Definition clamp (x lo hi : Q) : Q := Qmax lo (Qmin hi x).

Definition locate_spec (anchors : list Anchor) (t : Q) : option Located :=
  match anchors with
  | [] => Some {| loc_measure := 1; progress := 0 |}
  | _ :: _ =>
      let sorted := stableSort byTime anchors in
      match lastIndexAtOrBefore t sorted 0 None with
      | None => None
      | Some i =>
          match nth_error sorted i with
          | None => None
          | Some active =>
              let segStart := time active in
              let p :=
                match nth_error sorted (S i) with
                | None => 0
                | Some next =>
                    let segEnd := time next in
                    if Qeq_bool segEnd segStart then 0
                    else clamp ((t - segStart) / (segEnd - segStart)) 0 1
                end in
              Some {| loc_measure := measure active; progress := p |}
          end
      end
  end.

(** ** Vocabulary of the statements about anchors *)

(** A list in ascending time order. *)
Definition timeSorted (l : list Anchor) : Prop :=
  StronglySorted (fun a b => byTime a b = true) l.

(** An anchor at or before, and strictly after, a query time. *)
Definition atOrBefore (t : Q) (a : Anchor) : Prop := time a <= t.
Definition after (t : Q) (a : Anchor) : Prop := t < time a.

(** The time of the first anchor of a list, [None] for the empty list. *)
Definition headTime (l : list Anchor) : option Q :=
  match l with
  | next :: _ => Some (time next)
  | [] => None
  end.

(** Anchors whose measure numbers grow with their times: the measures are at
    least 1 and ascend along the time-sorted list. *)
Definition measureLe (a b : Anchor) : Prop := (measure a <= measure b)%Z.

Definition measureOrdered (anchors : list Anchor) : Prop :=
  Forall (fun a => (1 <= measure a)%Z) anchors /\
  StronglySorted measureLe (stableSort byTime anchors).

(** The anchors of a list that carry the time [T]. *)
Definition atTime (T : Q) (a : Anchor) : bool := Qeq_bool (time a) T.

(** ** Completions: a JavaScript computation returns or throws *)

Inductive Completion (A : Type) : Type :=
| Normal (a : A)
| Throw (message : string).
Arguments Normal {A} a.
Arguments Throw {A} message.

(** Reading a property of [undefined] or [null]. *)
Definition TypeError_undefined : string := "TypeError: cannot read properties of undefined".
(** Calling a value that is not a function. *)
Definition TypeError_not_a_function : string := "TypeError: applyColor(...) is not a function".

Definition bindC {A B : Type} (c : Completion A) (k : A -> Completion B) : Completion B :=
  match c with
  | Normal a => k a
  | Throw e => Throw e
  end.

(** ** Non-finite numbers

    A value computed by an unguarded division: a finite number,
    [Infinity], [-Infinity] or [NaN].  The sign of a zero divisor is taken
    to be positive, as it is for the width of a measure when the pixel
    factor is positive; with a negative pixel factor the width of a measure
    of equal borders is the double [-0], and the source gets the opposite
    infinity. *)
Inductive JsNum : Type :=
| Fin (q : Q)
| PosInfinity
| NegInfinity
| NaN.

Definition js_div (a b : Q) : JsNum :=
  if Qeq_bool b 0 then
    if Qeq_bool a 0 then NaN
    else if Qltb 0 a then PosInfinity else NegInfinity
  else Fin (a / b).

(** [a + q] and [a - q] for a finite [q]. *)
Definition js_add (a : JsNum) (q : Q) : JsNum :=
  match a with
  | Fin p => Fin (p + q)
  | other => other
  end.

Definition js_sub (a : JsNum) (q : Q) : JsNum :=
  match a with
  | Fin p => Fin (p - q)
  | other => other
  end.

(** [a < b] and [a <= b]; every comparison with [NaN] is false. *)
Definition js_lt (a b : JsNum) : bool :=
  match a, b with
  | NaN, _ | _, NaN => false
  | Fin p, Fin q => Qltb p q
  | _, NegInfinity => false
  | PosInfinity, _ => false
  | NegInfinity, _ => true
  | Fin _, PosInfinity => true
  end.

Definition js_le (a b : JsNum) : bool :=
  match a, b with
  | NaN, _ | _, NaN => false
  | Fin p, Fin q => Qleb p q
  | NegInfinity, _ => true
  | _, PosInfinity => true
  | PosInfinity, _ => false
  | Fin _, NegInfinity => false
  end.

(** [Number.MAX_VALUE], the largest finite double, and [Number.MIN_VALUE],
    the smallest positive double (not the most negative number). *)
Definition Number_MAX_VALUE : Q := inject_Z ((2 ^ 53 - 1) * 2 ^ 971).
Definition Number_MIN_VALUE : Q := 1 # (2 ^ 1074).

(** ** The layout the rendering engine exposes

    Only what the viewer reads.  A field is an [option] where the code
    tests it for presence before use, or where the code reads through it
    without a test and the read throws when it is missing. *)

(** [PointF2D] *)
Record PointF2D : Type := mkPoint { pt_x : Q; pt_y : Q }.

(** [BoundingBox], the [PositionAndShape] of a graphical object. *)
Record BoundingBox : Type := mkBoundingBox
  { AbsolutePosition : PointF2D;
    RelativePosition : PointF2D;
    BorderLeft : Q;
    BorderRight : Q;
    BorderTop : Q;
    BorderBottom : Q }.

(** A VexFlow stave note: [attrs] may be missing, and so may [attrs.id]. *)
Record VfStaveNote : Type := mkVfStaveNote { attrs_id : option string }.

(** A graphical note, read as [any]: [vfnote] is an array or missing. *)
Record GraphicalNote : Type := mkGraphicalNote { vfnote : option (list VfStaveNote) }.

Record GraphicalVoiceEntry : Type := mkGraphicalVoiceEntry
  { notes : option (list GraphicalNote) }.

Record GraphicalStaffEntry : Type := mkGraphicalStaffEntry
  { entryPositionAndShape : option BoundingBox;
    graphicalVoiceEntries : option (list GraphicalVoiceEntry) }.

(** One measure on one staff. *)
Record GraphicalMeasure : Type := mkGraphicalMeasure
  { PositionAndShape : option BoundingBox;
    staffEntries : list GraphicalStaffEntry }.

(** [MeasureList[i]] is the list of the staff measures of measure [i + 1];
    both the list and its entries may be [undefined]. *)
Definition MeasureStaves : Type := option (list (option GraphicalMeasure)).

Record GraphicalMusicSheet : Type := mkSheet
  { MeasureList : list MeasureStaves;
    UnitInPixels : option Q }.

Record OSMD : Type := mkOSMD { GraphicSheet : option GraphicalMusicSheet }.

(** [(osmd.GraphicSheet as any).UnitInPixels || 10]: a missing or zero
    factor is replaced by 10. *)
Definition unitInPixelsOf (sheet : GraphicalMusicSheet) : Q :=
  match UnitInPixels sheet with
  | Some u => if Qeq_bool u 0 then 10 else u
  | None => 10
  end.

(** ** The document *)

(** A DOM element, by identity. *)
Definition Elem : Type := nat.

Record DOMRect : Type := mkRect
  { rect_left : Q; rect_top : Q; rect_right : Q; rect_width : Q }.

(** The queries the viewer makes of the rendered score. *)
Record Document : Type := mkDocument
  { getElementById : string -> option Elem;
    closest_vf_stavenote : Elem -> option Elem;
    getElementsByClassName_vf_beam : list Elem;
    querySelectorAll_glyphs : list Elem;
    getBoundingClientRect : Elem -> DOMRect;
    classList_contains : Elem -> string -> bool }.

(** ** The note map and the glyph maps *)

Record NoteData : Type := mkNoteData
  { note_id : string;
    measureIndex : Z;
    timestamp : JsNum;
    element : option Elem }.

(** A [Map<number, V>]: the entries in insertion order, a key at most once. *)
Definition JsMap (V : Type) : Type := list (Z * V).

Fixpoint Map_get {V : Type} (m : JsMap V) (k : Z) : option V :=
  match m with
  | [] => None
  | (k', v) :: tl => if (k' =? k)%Z then Some v else Map_get tl k
  end.

Fixpoint Map_set {V : Type} (m : JsMap V) (k : Z) (v : V) : JsMap V :=
  match m with
  | [] => [(k, v)]
  | (k', v') :: tl =>
      if (k' =? k)%Z then (k, v) :: tl else (k', v') :: Map_set tl k v
  end.

Definition Map_size {V : Type} (m : JsMap V) : Z := Z.of_nat (length m).

(** [if (!m.has(k)) m.set(k, []); m.get(k)!.push(el)] *)
Definition Map_push {V : Type} (m : JsMap (list V)) (k : Z) (el : V) : JsMap (list V) :=
  match Map_get m k with
  | None => Map_set m k [el]
  | Some l => Map_set m k (l ++ [el])
  end.

(** ** The mutable world of the component *)

Inductive AppMode : Type := PLAYBACK | RECORD.

(** The style of the cursor overlay; pixel lengths as numbers. *)
Record CursorStyle : Type := mkCursorStyle
  { cursor_left : Q;
    cursor_top : Q;
    cursor_height : Q;
    cursor_display : string;
    cursor_backgroundColor : string;
    cursor_boxShadow : string }.

(** The style of the curtain overlay of the three-state variant. *)
Record CurtainStyle : Type := mkCurtainStyle
  { curtain_display : string;
    curtain_left : Q;
    curtain_width : string }.

(** The scroll container: its width, its scroll offset, and the smooth
    scrolls requested with [scrollTo], latest first. *)
Record ScrollContainer : Type := mkScrollContainer
  { clientWidth : Q;
    scrollLeft : Q;
    smoothScrolls : list Q }.

Record World : Type := mkWorld
  { opacity : gmap Elem string;       (* element.style.opacity *)
    color : gmap Elem string;         (* what applyColor painted last *)
    cursor : option CursorStyle;      (* cursorRef.current *)
    curtain : option CurtainStyle;    (* curtainRef.current *)
    scrollContainer : option ScrollContainer;
    container : option DOMRect;       (* containerRef.current *)
    lastMeasureIndex : Z;             (* lastMeasureIndexRef.current *)
    currentTime : option Q;           (* audioRef.current?.currentTime *)
    console : list string;            (* console.error, latest first *)
    animationFrame : option nat;      (* animationFrameRef.current *)
    frameRequests : nat }.            (* calls of requestAnimationFrame *)

Definition set_opacity (f : gmap Elem string -> gmap Elem string) (w : World) : World :=
  mkWorld (f (opacity w)) (color w) (cursor w) (curtain w) (scrollContainer w)
          (container w) (lastMeasureIndex w) (currentTime w) (console w)
          (animationFrame w) (frameRequests w).

Definition set_color (f : gmap Elem string -> gmap Elem string) (w : World) : World :=
  mkWorld (opacity w) (f (color w)) (cursor w) (curtain w) (scrollContainer w)
          (container w) (lastMeasureIndex w) (currentTime w) (console w)
          (animationFrame w) (frameRequests w).

Definition set_cursor (c : option CursorStyle) (w : World) : World :=
  mkWorld (opacity w) (color w) c (curtain w) (scrollContainer w)
          (container w) (lastMeasureIndex w) (currentTime w) (console w)
          (animationFrame w) (frameRequests w).

Definition set_curtain (c : option CurtainStyle) (w : World) : World :=
  mkWorld (opacity w) (color w) (cursor w) c (scrollContainer w)
          (container w) (lastMeasureIndex w) (currentTime w) (console w)
          (animationFrame w) (frameRequests w).

Definition set_scrollContainer (s : option ScrollContainer) (w : World) : World :=
  mkWorld (opacity w) (color w) (cursor w) (curtain w) s
          (container w) (lastMeasureIndex w) (currentTime w) (console w)
          (animationFrame w) (frameRequests w).

Definition set_lastMeasureIndex (i : Z) (w : World) : World :=
  mkWorld (opacity w) (color w) (cursor w) (curtain w) (scrollContainer w)
          (container w) i (currentTime w) (console w)
          (animationFrame w) (frameRequests w).

Definition set_currentTime (t : option Q) (w : World) : World :=
  mkWorld (opacity w) (color w) (cursor w) (curtain w) (scrollContainer w)
          (container w) (lastMeasureIndex w) t (console w)
          (animationFrame w) (frameRequests w).

Definition console_error (msg : string) (w : World) : World :=
  mkWorld (opacity w) (color w) (cursor w) (curtain w) (scrollContainer w)
          (container w) (lastMeasureIndex w) (currentTime w) (msg :: console w)
          (animationFrame w) (frameRequests w).

Definition set_animationFrame (h : option nat) (n : nat) (w : World) : World :=
  mkWorld (opacity w) (color w) (cursor w) (curtain w) (scrollContainer w)
          (container w) (lastMeasureIndex w) (currentTime w) (console w)
          h n.

(** ** Commands: a world in, a completion and the world as it was left *)

Definition Cmd (A : Type) : Type := World -> Completion A * World.

Definition ret {A : Type} (a : A) : Cmd A := fun w => (Normal a, w).

Definition throw {A : Type} (message : string) : Cmd A := fun w => (Throw message, w).

Definition bind {A B : Type} (c : Cmd A) (k : A -> Cmd B) : Cmd B :=
  fun w =>
    match c w with
    | (Normal a, w') => k a w'
    | (Throw e, w') => (Throw e, w')
    end.

(** A write to the world. *)
Definition modify (f : World -> World) : Cmd unit := fun w => (Normal tt, f w).

(** A read of the world. *)
Definition gets {A : Type} (f : World -> A) : Cmd A := fun w => (Normal (f w), w).

(** A pure computation that may throw. *)
Definition liftC {A : Type} (c : Completion A) : Cmd A := fun w => (c, w).

Declare Scope cmd_scope.
Delimit Scope cmd_scope with cmd.
Notation "'let*' x := c 'in' k" := (bind c (fun x => k))
  (at level 10, x name, c at level 100, k at level 200) : cmd_scope.
Notation "c ;; k" := (bind c (fun _ => k))
  (at level 100, k at level 200, right associativity) : cmd_scope.
Open Scope cmd_scope.

(** [list.forEach(f)]: the callback on each element in order; a throw ends
    the iteration. *)
Fixpoint forEach {A : Type} (f : A -> Cmd unit) (l : list A) : Cmd unit :=
  match l with
  | [] => ret tt
  | a :: tl => f a ;; forEach f tl
  end.

(** [try { body } catch (err) { console.error(label, err) }] *)
Definition try_catch_log (label : string) (body : Cmd unit) : Cmd unit :=
  fun w =>
    match body w with
    | (Normal _, w') => (Normal tt, w')
    | (Throw e, w') => (Normal tt, console_error (label ++ e)%string w')
    end.

(** ** What the component is given *)

Record Props : Type := mkProps
  { anchors : list Anchor;
    mode : AppMode;
    osmdRef : option OSMD;                   (* osmdRef.current *)
    isLoaded : bool;
    noteMap : JsMap (list NoteData) }.       (* noteMap.current *)

(** ** Click to seek *)

(** The four running extremes of a measure's staff boxes. *)
Record Extent : Type := mkExtent { minY : Q; maxY : Q; minX : Q; maxX : Q }.

Definition initialExtent : Extent :=
  {| minY := Number_MAX_VALUE; maxY := Number_MIN_VALUE;
     minX := Number_MAX_VALUE; maxX := Number_MIN_VALUE |}.

(** The four [if]s of the [forEach] callback of [handleScoreClick]. *)
Definition extendExtent (acc : Extent) (pos : BoundingBox) : Extent :=
  let absY := pt_y (AbsolutePosition pos) in
  let absX := pt_x (AbsolutePosition pos) in
  {| minY := if Qltb (absY + BorderTop pos) (minY acc)
             then absY + BorderTop pos else minY acc;
     maxY := if Qltb (maxY acc) (absY + BorderBottom pos)
             then absY + BorderBottom pos else maxY acc;
     minX := if Qltb (absX + BorderLeft pos) (minX acc)
             then absX + BorderLeft pos else minX acc;
     maxX := if Qltb (maxX acc) (absX + BorderRight pos)
             then absX + BorderRight pos else maxX acc |}.

(** [measureStaves.forEach(staffMeasure => ...)] of [handleScoreClick]:
    reading [staffMeasure.PositionAndShape] throws on a missing staff
    measure, a missing shape is skipped. *)
Fixpoint clickExtent (staves : list (option GraphicalMeasure)) (acc : Extent)
    : Completion Extent :=
  match staves with
  | [] => Normal acc
  | None :: _ => Throw TypeError_undefined
  | Some staffMeasure :: tl =>
      match PositionAndShape staffMeasure with
      | None => clickExtent tl acc
      | Some pos => clickExtent tl (extendExtent acc pos)
      end
  end.

(** The pixel box of a measure and the closed hit test against it. *)
Record PixelBox : Type := mkPixelBox
  { boxTop : Q; boxBottom : Q; boxLeft : Q; boxRight : Q }.

Definition pixelBox (unitInPixels : Q) (e : Extent) : PixelBox :=
  {| boxTop := minY e * unitInPixels;
     boxBottom := maxY e * unitInPixels;
     boxLeft := minX e * unitInPixels;
     boxRight := maxX e * unitInPixels |}.

Definition boxContains (b : PixelBox) (clickX clickY : Q) : bool :=
  Qleb (boxLeft b) clickX && Qleb clickX (boxRight b) &&
  Qleb (boxTop b) clickY && Qleb clickY (boxBottom b).

(** The [for] loop of [handleScoreClick] from index [i] on, [rest] being
    [measureList[i..]]; the result is [clickedMeasureIndex], -1 for no hit. *)
Fixpoint clickedMeasureFrom (unitInPixels clickX clickY : Q) (i : Z)
    (rest : list MeasureStaves) : Completion Z :=
  match rest with
  | [] => Normal (-1)%Z
  | None :: tl => clickedMeasureFrom unitInPixels clickX clickY (i + 1) tl
  | Some measureStaves :: tl =>
      bindC (clickExtent measureStaves initialExtent) (fun e =>
        if boxContains (pixelBox unitInPixels e) clickX clickY
        then Normal i
        else clickedMeasureFrom unitInPixels clickX clickY (i + 1) tl)
  end.

(** [sortedAnchors.reverse().find(a => a.measure <= measureNumber)] *)
Definition targetAnchorOf (anchors : list Anchor) (measureNumber : Z) : option Anchor :=
  let sortedAnchors := stableSort byMeasure anchors in
  find (fun a => (measure a <=? measureNumber)%Z) (rev sortedAnchors).

Record MouseEvent : Type := mkMouseEvent { clientX : Q; clientY : Q }.

Definition handleScoreClick (props : Props) (event : MouseEvent) : Cmd unit :=
  fun w =>
    match osmdRef props with
    | None => ret tt w
    | Some osmd =>
    match GraphicSheet osmd with
    | None => ret tt w
    | Some sheet =>
    match container w with
    | None => ret tt w
    | Some rect =>
        let clickX := clientX event - rect_left rect in
        let clickY := clientY event - rect_top rect in
        let measureList := MeasureList sheet in
        let unitInPixels := unitInPixelsOf sheet in
        (let* clickedMeasureIndex :=
           liftC (clickedMeasureFrom unitInPixels clickX clickY 0 measureList) in
         if (clickedMeasureIndex =? -1)%Z then ret tt
         else
           let measureNumber := (clickedMeasureIndex + 1)%Z in
           match targetAnchorOf (anchors props) measureNumber with
           | Some targetAnchor =>
               modify (fun w' =>
                 match currentTime w' with
                 | Some _ => set_currentTime (Some (time targetAnchor)) w'
                 | None => w'
                 end)
           | None => ret tt
           end) w
    end end end.

(** ** Vocabulary of the statements about clicks *)

(** The click point is inside the pixel box of a measure, and it is not:
    a measure without staves has no box, and both say that the box of the
    measure could be computed. *)
Definition hitsMeasure (unitInPixels clickX clickY : Q) (ms : MeasureStaves) : Prop :=
  exists staves e,
    ms = Some staves /\
    clickExtent staves initialExtent = Normal e /\
    boxContains (pixelBox unitInPixels e) clickX clickY = true.

Definition missesMeasure (unitInPixels clickX clickY : Q) (ms : MeasureStaves) : Prop :=
  match ms with
  | None => True
  | Some staves =>
      exists e,
        clickExtent staves initialExtent = Normal e /\
        boxContains (pixelBox unitInPixels e) clickX clickY = false
  end.

(** Index [k] is the first measure, in measure order, whose box contains
    the click point. *)
Definition firstHit (unitInPixels clickX clickY : Q) (measureList : list MeasureStaves)
    (k : Z) : Prop :=
  exists n : nat,
    k = Z.of_nat n /\
    (exists ms, nth_error measureList n = Some ms /\
                hitsMeasure unitInPixels clickX clickY ms) /\
    (forall j ms, (j < n)%nat -> nth_error measureList j = Some ms ->
                  missesMeasure unitInPixels clickX clickY ms).

(** Anchor [a] is an anchor of the largest measure number not above [n]. *)
Definition nearestAnchorAtOrBelow (anchors : list Anchor) (n : Z) (a : Anchor) : Prop :=
  In a anchors /\ (measure a <= n)%Z /\
  (forall b, In b anchors -> (measure b <= n)%Z -> (measure b <= measure a)%Z).

(** The extent [e] reaches at least as far as the extent [acc] on all four
    sides, and it encloses the box of a staff measure. *)
Definition extentCovers (e acc : Extent) : Prop :=
  minX e <= minX acc /\ maxX acc <= maxX e /\
  minY e <= minY acc /\ maxY acc <= maxY e.

Definition encloses (e : Extent) (pos : BoundingBox) : Prop :=
  minX e <= pt_x (AbsolutePosition pos) + BorderLeft pos /\
  pt_x (AbsolutePosition pos) + BorderRight pos <= maxX e /\
  minY e <= pt_y (AbsolutePosition pos) + BorderTop pos /\
  pt_y (AbsolutePosition pos) + BorderBottom pos <= maxY e.

(** ** Shared pieces of the geometry mapper *)

(** The body of [gve.notes.forEach(note => ...)]: the entry pushed for one
    note, if any.  The element is looked up by the stave note's id, then by
    the id prefixed with [vf-], and replaced by its enclosing
    [.vf-stavenote] group when there is one. *)
Definition noteDataOf (doc : Document) (measureNumber : Z) (relativeTimestamp : JsNum)
    (note : GraphicalNote) : list NoteData :=
  match vfnote note with
  | Some (vfStaveNote :: _) =>
      match attrs_id vfStaveNote with
      | Some vfId =>
          if String.eqb vfId "" then []
          else
            let element :=
              match getElementById doc vfId with
              | Some el => Some el
              | None => getElementById doc ("vf-" ++ vfId)
              end in
            match element with
            | Some el =>
                let group := match closest_vf_stavenote doc el with
                             | Some g => g
                             | None => el
                             end in
                [{| note_id := vfId;
                    measureIndex := measureNumber;
                    timestamp := relativeTimestamp;
                    element := Some group |}]
            | None => []
            end
      | None => []
      end
  | _ => []
  end.

(** [graphicalVoiceEntries.forEach(gve => ...)] *)
Definition voiceEntryNotes (doc : Document) (measureNumber : Z) (relativeTimestamp : JsNum)
    (gve : GraphicalVoiceEntry) : list NoteData :=
  match notes gve with
  | None => []
  | Some ns => flat_map (noteDataOf doc measureNumber relativeTimestamp) ns
  end.

(** [staffMeasure.staffEntries.forEach(entry => ...)]: entries without voice
    entries are skipped; reading the position of an entry without shape
    throws; the timestamp is the unguarded quotient [relX / measureWidth]. *)
Fixpoint staffEntriesNotes (doc : Document) (unitInPixels : Q) (measureNumber : Z)
    (measureWidth : Q) (entries : list GraphicalStaffEntry)
    (measureNotes : list NoteData) : Completion (list NoteData) :=
  match entries with
  | [] => Normal measureNotes
  | entry :: tl =>
      match graphicalVoiceEntries entry with
      | None => staffEntriesNotes doc unitInPixels measureNumber measureWidth tl measureNotes
      | Some gves =>
          match entryPositionAndShape entry with
          | None => Throw TypeError_undefined
          | Some shape =>
              let relX := pt_x (RelativePosition shape) * unitInPixels in
              let relativeTimestamp := js_div relX measureWidth in
              staffEntriesNotes doc unitInPixels measureNumber measureWidth tl
                (measureNotes ++
                 flat_map (voiceEntryNotes doc measureNumber relativeTimestamp) gves)
          end
      end
  end.

(** The notes of one staff measure: [measurePos.BorderRight] is read without
    a test, so a staff measure without shape throws. *)
Definition staffMeasureNotes (doc : Document) (unitInPixels : Q) (measureNumber : Z)
    (staffMeasure : GraphicalMeasure) (measureNotes : list NoteData)
    : Completion (list NoteData) :=
  match PositionAndShape staffMeasure with
  | None => Throw TypeError_undefined
  | Some measurePos =>
      let measureWidth := (BorderRight measurePos - BorderLeft measurePos) * unitInPixels in
      staffEntriesNotes doc unitInPixels measureNumber measureWidth
        (staffEntries staffMeasure) measureNotes
  end.

(** ** Shared pieces of the frame step *)

(** The [forEach] of [updateCursorPosition] over the staff measures of the
    current measure: the four extremes and [minNoteX].  Reading through a
    missing staff measure, or through the missing shape of a first staff
    entry, throws; a staff measure without shape is skipped. *)
Fixpoint cursorExtent (staves : list (option GraphicalMeasure)) (acc : Extent)
    (minNoteX : Q) : Completion (Extent * Q) :=
  match staves with
  | [] => Normal (acc, minNoteX)
  | None :: _ => Throw TypeError_undefined
  | Some staffMeasure :: tl =>
      match PositionAndShape staffMeasure with
      | None => cursorExtent tl acc minNoteX
      | Some pos =>
          let absoluteX := pt_x (AbsolutePosition pos) in
          match staffEntries staffMeasure with
          | [] => cursorExtent tl (extendExtent acc pos) minNoteX
          | firstEntry :: _ =>
              match entryPositionAndShape firstEntry with
              | None => Throw TypeError_undefined
              | Some shape =>
                  let noteAbsX := absoluteX + pt_x (RelativePosition shape) in
                  cursorExtent tl (extendExtent acc pos)
                    (if Qltb noteAbsX minNoteX then noteAbsX else minNoteX)
              end
          end
      end
  end.

(** [measureList[currentMeasureIndex]]: [undefined] outside the array. *)
Definition measureAt (measureList : list MeasureStaves) (index : Z) : MeasureStaves :=
  if (index <? 0)%Z then None
  else match nth_error measureList (Z.to_nat index) with
       | Some ms => ms
       | None => None
       end.

(** Measure 1 starts at its first note less 12 pixels of padding, but not
    left of the measure. *)
Definition visualStartXOf (measure : Z) (unitInPixels : Q) (e : Extent) (minNoteX : Q) : Q :=
  let paddingPixels := 12 in
  let paddingUnits := paddingPixels / unitInPixels in
  if (measure =? 1)%Z && Qltb minNoteX Number_MAX_VALUE
  then Math_max (minX e) (minNoteX - paddingUnits)
  else minX e.

Definition recordColor : string := "rgba(239, 68, 68, 0.6)".
Definition playbackColor : string := "rgba(16, 185, 129, 0.8)".
Definition recordShadow : string := "0 0 10px rgba(239, 68, 68, 0.4)".
Definition playbackShadow : string := "0 0 8px rgba(16, 185, 129, 0.5)".

(** The six assignments to [cursorRef.current.style]. *)
Definition paintCursor (mode : AppMode) (cursorX systemTop systemHeight : Q) : Cmd unit :=
  modify (set_cursor (Some
    {| cursor_left := cursorX;
       cursor_top := systemTop;
       cursor_height := systemHeight;
       cursor_display := "block";
       cursor_backgroundColor :=
         match mode with RECORD => recordColor | PLAYBACK => playbackColor end;
       cursor_boxShadow :=
         match mode with RECORD => recordShadow | PLAYBACK => playbackShadow end |})).

(** The scroll logic: follow the cursor unless the user has scrolled more
    than 250 pixels away; on a change of measure more than 50 pixels away,
    request a smooth scroll.  [cursorX] is a number here; the [NaN] of an
    overflowed position, for which both tests of the source are false, is
    outside the model. *)
Definition scrollLogic (cursorX : Q) (currentMeasureIndex : Z) : Cmd unit :=
  modify (fun w =>
    match scrollContainer w with
    | None => w
    | Some container =>
        let containerWidth := clientWidth container in
        let targetScrollLeft := cursorX - containerWidth * (2 # 10) in
        let currentScroll := scrollLeft container in
        let diff := Qabs (currentScroll - targetScrollLeft) in
        let isUserControlling := Qltb 250 diff in
        let followed :=
          if negb isUserControlling
          then mkScrollContainer containerWidth targetScrollLeft (smoothScrolls container)
          else container in
        let scrolled :=
          if negb (currentMeasureIndex =? lastMeasureIndex w)%Z && Qltb 50 diff
          then mkScrollContainer (clientWidth followed) (scrollLeft followed)
                                 (targetScrollLeft :: smoothScrolls followed)
          else followed in
        set_scrollContainer (Some scrolled) w
    end).

(** The progress along the whole measure that corresponds to the cursor:
    the offset of the visual start plus the progress scaled to the active
    width. *)
Definition highlightProgressOf (e : Extent) (visualStartX effectiveProgress : Q) : Q :=
  let fullMeasureWidth := maxX e - minX e in
  let activeWidth := maxX e - visualStartX in
  let startOffset := visualStartX - minX e in
  let offsetRatio := if Qltb 0 fullMeasureWidth then startOffset / fullMeasureWidth else 0 in
  let scaleRatio := if Qltb 0 fullMeasureWidth then activeWidth / fullMeasureWidth else 1 in
  offsetRatio + effectiveProgress * scaleRatio.

Definition lookahead : Q := 4 # 100.
Definition highlightColor : string := "#10B981".
Definition defaultColor : string := "#000000".

(** The test of the color logic:
    [highlightProgress <= noteEndThreshold &&
     highlightProgress >= noteData.timestamp - lookahead]. *)
Definition isHighlighted (highlightProgress : Q) (noteTimestamp : JsNum) : bool :=
  let noteEndThreshold := js_add noteTimestamp (1 # 100) in
  js_le (Fin highlightProgress) noteEndThreshold &&
  js_le (js_sub noteTimestamp lookahead) (Fin highlightProgress).

(** The test of the reveal logic:
    [highlightProgress < noteData.timestamp - lookahead]. *)
Definition isAhead (highlightProgress : Q) (noteTimestamp : JsNum) : bool :=
  js_lt (Fin highlightProgress) (js_sub noteTimestamp lookahead).

(** [applyColor(element, color)]: the fill and the stroke of the element
    and of the shapes inside it; recorded as the color of the element. *)
Definition applyColor (el : Elem) (c : string) : Cmd unit :=
  modify (set_color (fun m => <[el := c]> m)).

(** [el.style.opacity = v] *)
Definition setOpacity (el : Elem) (v : string) : Cmd unit :=
  modify (set_opacity (fun m => <[el := v]> m)).

(** [animationFrameRef.current = requestAnimationFrame(animate)]: one more
    pending callback, whose handle is kept. *)
Definition requestAnimationFrame : Cmd unit :=
  modify (fun w =>
    set_animationFrame (Some (S (frameRequests w))) (S (frameRequests w)) w).

(** [audioRef.current?.currentTime ?? 0] *)
Definition readAudioTime : Cmd Q :=
  gets (fun w => match currentTime w with Some t => t | None => 0 end).

(** The audio element advancing to time [t] between two frames. *)
Definition audioAdvances (t : Q) : Cmd unit :=
  modify (fun w => match currentTime w with
                   | Some _ => set_currentTime (Some t) w
                   | None => w
                   end).

(** ** The viewer with the boolean reveal switch *)

Module BoolReveal.

(** [measureStaves.forEach(staffMeasure => ...)] of the note pass: a missing
    staff measure is skipped. *)
Fixpoint measureStavesNotes (doc : Document) (unitInPixels : Q) (measureNumber : Z)
    (staves : list (option GraphicalMeasure)) (measureNotes : list NoteData)
    : Completion (list NoteData) :=
  match staves with
  | [] => Normal measureNotes
  | None :: tl => measureStavesNotes doc unitInPixels measureNumber tl measureNotes
  | Some staffMeasure :: tl =>
      bindC (staffMeasureNotes doc unitInPixels measureNumber staffMeasure measureNotes)
            (fun pushed => measureStavesNotes doc unitInPixels measureNumber tl pushed)
  end.

(** [measureList.forEach((measureStaves, measureIndex) => ...)]: pass 1,
    [rest] being [measureList[measureIndex..]]. *)
Fixpoint mapNotes (doc : Document) (unitInPixels : Q) (measureIndex : Z)
    (rest : list MeasureStaves) (newNoteMap : JsMap (list NoteData))
    : Completion (JsMap (list NoteData)) :=
  match rest with
  | [] => Normal newNoteMap
  | measureStaves :: tl =>
      let measureNumber := (measureIndex + 1)%Z in
      match measureStaves with
      | None | Some [] => mapNotes doc unitInPixels (measureIndex + 1) tl newNoteMap
      | Some staves =>
          bindC (measureStavesNotes doc unitInPixels measureNumber staves [])
                (fun measureNotes =>
                   mapNotes doc unitInPixels (measureIndex + 1) tl
                     (match measureNotes with
                      | [] => newNoteMap
                      | _ :: _ => Map_set newNoteMap measureNumber measureNotes
                      end))
      end
  end.

(** [for (let m = 1; m <= newNoteMap.size; m++)]: the first measure whose
    notes span the left edge of the beam, with 10 pixels of tolerance;
    [steps] counts the iterations that remain. *)
Fixpoint beamMeasureFrom (doc : Document) (newNoteMap : JsMap (list NoteData))
    (beamRect : DOMRect) (m : Z) (steps : nat) : option Z :=
  match steps with
  | O => None
  | S remaining =>
      let next := beamMeasureFrom doc newNoteMap beamRect (m + 1) remaining in
      match Map_get newNoteMap m with
      | Some (first :: more) =>
          match element first, element (last more first) with
          | Some firstEl, Some lastEl =>
              let firstNote := getBoundingClientRect doc firstEl in
              let lastNote := getBoundingClientRect doc lastEl in
              if Qleb (rect_left firstNote - 10) (rect_left beamRect) &&
                 Qleb (rect_left beamRect) (rect_right lastNote + 10)
              then Some m
              else next
          | _, _ => next
          end
      | _ => next
      end
  end.

(** [allBeams.forEach(beam => ...)]: pass 2. *)
Definition mapBeams (doc : Document) (newNoteMap : JsMap (list NoteData))
    : JsMap (list Elem) :=
  fold_left
    (fun newBeamsMap beamEl =>
       let beamRect := getBoundingClientRect doc beamEl in
       match beamMeasureFrom doc newNoteMap beamRect 1 (length newNoteMap) with
       | Some m => Map_push newBeamsMap m beamEl
       | None => newBeamsMap
       end)
    (getElementsByClassName_vf_beam doc) [].

(** [calculateNoteMap]: the new [noteMap.current] and [beamsMap.current],
    or [None] when a guard returns and the maps stay as they were. *)
Definition calculateNoteMap (doc : Document) (osmdRef : option OSMD)
    (containerRef : option DOMRect)
    : Completion (option (JsMap (list NoteData) * JsMap (list Elem))) :=
  match osmdRef with
  | None => Normal None
  | Some osmd =>
  match GraphicSheet osmd with
  | None => Normal None
  | Some sheet =>
  match containerRef with
  | None => Normal None
  | Some _ =>
      let measureList := MeasureList sheet in
      let unitInPixels := unitInPixelsOf sheet in
      bindC (mapNotes doc unitInPixels 0 measureList [])
            (fun newNoteMap => Normal (Some (newNoteMap, mapBeams doc newNoteMap)))
  end end end.

(** [updateMeasureVisibility] *)
Definition updateMeasureVisibility (revealMode : bool)
    (noteMap : JsMap (list NoteData)) (beamsMap : JsMap (list Elem))
    (currentMeasure : Z) : Cmd unit :=
  if negb revealMode then ret tt
  else
    forEach (fun entry : Z * list NoteData =>
               let (measureIdx, notes) := entry in
               if (measureIdx <? currentMeasure)%Z then
                 forEach (fun n => match element n with
                                   | Some el => setOpacity el "1"
                                   | None => ret tt
                                   end) notes
               else if (currentMeasure <? measureIdx)%Z then
                 forEach (fun n => match element n with
                                   | Some el => setOpacity el "0"
                                   | None => ret tt
                                   end) notes
               else ret tt)
            noteMap ;;
    forEach (fun entry : Z * list Elem =>
               let (measureIdx, beams) := entry in
               if (measureIdx <? currentMeasure)%Z then
                 forEach (fun b => setOpacity b "1") beams
               else if (currentMeasure <? measureIdx)%Z then
                 forEach (fun b => setOpacity b "0") beams
               else
                 forEach (fun b => setOpacity b "1") beams)
            beamsMap.

(** The note loop of playback mode. *)
Definition highlightNote (revealMode : bool) (highlightProgress : Q)
    (noteData : NoteData) : Cmd unit :=
  match element noteData with
  | None => ret tt
  | Some el =>
      (if revealMode then
         if isAhead highlightProgress (timestamp noteData)
         then setOpacity el "0"
         else setOpacity el "1"
       else setOpacity el "1") ;;
      (if isHighlighted highlightProgress (timestamp noteData)
       then applyColor el highlightColor
       else applyColor el defaultColor)
  end.

(** The note loop of record mode.  The statement reads
    [applyColor(noteData.element, '#000000')] followed on the next line by
    [(noteData.element as HTMLElement).style.opacity = '1'] with no
    semicolon between them, and a line that starts with a parenthesis
    continues the expression before it: the result of [applyColor], which
    is [undefined], is called with the element as argument.  The element is
    painted, the call throws, and the assignment is never reached. *)
Definition resetNote (noteData : NoteData) : Cmd unit :=
  match element noteData with
  | None => ret tt
  | Some el =>
      applyColor el defaultColor ;;
      throw TypeError_not_a_function
  end.

(** The body of the [try] block of [updateCursorPosition].  The pixel
    position of the cursor and the scroll target are computed in exact
    rationals.  The source computes them in doubles, which overflow when
    the extremes keep [Number.MAX_VALUE] (a measure none of whose staves
    has a shape: the position is then [NaN], nothing is assigned to
    [scrollLeft] but [NaN], and no smooth scroll is requested); the
    statements about these values carry the bound [moderateFrame], which
    leaves such frames out. *)
Definition frameBody (props : Props) (revealMode : bool)
    (beamsMap : JsMap (list Elem)) (sheet : GraphicalMusicSheet)
    (measure : Z) (effectiveProgress : Q) : Cmd unit :=
  let currentMeasureIndex := (measure - 1)%Z in
  let measureList := MeasureList sheet in
  match measureList with
  | [] => ret tt
  | _ :: _ =>
  if (Z.of_nat (length measureList) <=? currentMeasureIndex)%Z then ret tt
  else
  match measureAt measureList currentMeasureIndex with
  | None | Some [] => ret tt
  | Some measureStaves =>
      let unitInPixels := unitInPixelsOf sheet in
      let* geometry :=
        liftC (cursorExtent measureStaves initialExtent Number_MAX_VALUE) in
      let (e, minNoteX) := geometry : Extent * Q in
      let systemTop := minY e * unitInPixels in
      let systemHeight := (maxY e - minY e) * unitInPixels in
      let visualStartX := visualStartXOf measure unitInPixels e minNoteX in
      let systemX := visualStartX * unitInPixels in
      let systemWidth := (maxX e - visualStartX) * unitInPixels in
      let cursorX := systemX + systemWidth * effectiveProgress in
      paintCursor (mode props) cursorX systemTop systemHeight ;;
      scrollLogic cursorX currentMeasureIndex ;;
      (let* lastIndex := gets lastMeasureIndex in
       if revealMode && negb (currentMeasureIndex =? lastIndex)%Z
       then updateMeasureVisibility revealMode (noteMap props) beamsMap measure
       else ret tt) ;;
      modify (set_lastMeasureIndex currentMeasureIndex) ;;
      let notesInMeasure := Map_get (noteMap props) measure in
      (match notesInMeasure, mode props with
       | Some ns, PLAYBACK =>
           let highlightProgress := highlightProgressOf e visualStartX effectiveProgress in
           forEach (highlightNote revealMode highlightProgress) ns
       | _, _ => ret tt
       end) ;;
      (match mode props, notesInMeasure with
       | RECORD, Some ns => forEach resetNote ns
       | _, _ => ret tt
       end)
  end
  end.

(** [updateCursorPosition] *)
Definition updateCursorPosition (props : Props) (revealMode : bool)
    (beamsMap : JsMap (list Elem)) (audioTime : Q) : Cmd unit :=
  fun w =>
    match osmdRef props, isLoaded props, cursor w with
    | Some osmd, true, Some _ =>
        match GraphicSheet osmd with
        | None => ret tt w
        | Some sheet =>
            let located := findCurrentMeasure (anchors props) audioTime in
            let measure := loc_measure located in
            let effectiveProgress := progress located in
            try_catch_log "Error positioning cursor:"
              (frameBody props revealMode beamsMap sheet measure effectiveProgress) w
        end
    | _, _, _ => ret tt w
    end.

(** [animate]: one frame of the loop. *)
Definition animate (props : Props) (revealMode : bool)
    (beamsMap : JsMap (list Elem)) : Cmd unit :=
  let* audioTime := readAudioTime in
  updateCursorPosition props revealMode beamsMap audioTime ;;
  requestAnimationFrame.

(** The loop over a run of frames, the audio clock standing at the given
    times when the frames are drawn. *)
Fixpoint frames (props : Props) (revealMode : bool) (beamsMap : JsMap (list Elem))
    (audioTimes : list Q) : Cmd unit :=
  match audioTimes with
  | [] => ret tt
  | t :: tl =>
      audioAdvances t ;;
      animate props revealMode beamsMap ;;
      frames props revealMode beamsMap tl
  end.

End BoolReveal.

(** ** The viewer with the three-state reveal mode *)

Module TriReveal.

Inductive RevealMode : Type := OFF | NOTE | CURTAIN.

Definition isNOTE (r : RevealMode) : bool :=
  match r with NOTE => true | _ => false end.

(** An entry of [measureBounds]. *)
Record MeasureBound : Type := mkMeasureBound
  { bound_index : Z; bound_left : Q; bound_right : Q }.

(** [staves.forEach(staff => ...)] of pass A: every read is untested, so a
    missing staff measure and a missing shape both throw. *)
Fixpoint boundsExtent (staves : list (option GraphicalMeasure)) (minX maxX : Q)
    : Completion (Q * Q) :=
  match staves with
  | [] => Normal (minX, maxX)
  | None :: _ => Throw TypeError_undefined
  | Some staff :: tl =>
      match PositionAndShape staff with
      | None => Throw TypeError_undefined
      | Some pos =>
          let absX := pt_x (AbsolutePosition pos) in
          let left := absX + BorderLeft pos in
          let right := absX + BorderRight pos in
          boundsExtent tl (if Qltb left minX then left else minX)
                          (if Qltb maxX right then right else maxX)
      end
  end.

(** [measureList.forEach((staves, index) => ...)]: pass A. *)
Fixpoint measureBoundsFrom (unitInPixels : Q) (index : Z) (rest : list MeasureStaves)
    (measureBounds : list MeasureBound) : Completion (list MeasureBound) :=
  match rest with
  | [] => Normal measureBounds
  | None :: _ => Throw TypeError_undefined
  | Some staves :: tl =>
      let measureNumber := (index + 1)%Z in
      bindC (boundsExtent staves Number_MAX_VALUE Number_MIN_VALUE)
            (fun extremes =>
               let (minX, maxX) := extremes : Q * Q in
               measureBoundsFrom unitInPixels (index + 1) tl
                 (if Qltb minX Number_MAX_VALUE
                  then measureBounds ++
                       [{| bound_index := measureNumber;
                           bound_left := minX * unitInPixels;
                           bound_right := maxX * unitInPixels |}]
                  else measureBounds))
  end.

(** [measureStaves.forEach(staffMeasure => ...)] of pass B: a missing staff
    measure is read through and throws. *)
Fixpoint measureStavesNotes (doc : Document) (unitInPixels : Q) (measureNumber : Z)
    (staves : list (option GraphicalMeasure)) (measureNotes : list NoteData)
    : Completion (list NoteData) :=
  match staves with
  | [] => Normal measureNotes
  | None :: _ => Throw TypeError_undefined
  | Some staffMeasure :: tl =>
      bindC (staffMeasureNotes doc unitInPixels measureNumber staffMeasure measureNotes)
            (fun pushed => measureStavesNotes doc unitInPixels measureNumber tl pushed)
  end.

(** [measureList.forEach((measureStaves, measureIndex) => ...)]: pass B. *)
Fixpoint mapNotes (doc : Document) (unitInPixels : Q) (measureIndex : Z)
    (rest : list MeasureStaves) (newNoteMap : JsMap (list NoteData))
    : Completion (JsMap (list NoteData)) :=
  match rest with
  | [] => Normal newNoteMap
  | measureStaves :: tl =>
      let measureNumber := (measureIndex + 1)%Z in
      match measureStaves with
      | None => mapNotes doc unitInPixels (measureIndex + 1) tl newNoteMap
      | Some staves =>
          bindC (measureStavesNotes doc unitInPixels measureNumber staves [])
                (fun measureNotes =>
                   mapNotes doc unitInPixels (measureIndex + 1) tl
                     (match measureNotes with
                      | [] => newNoteMap
                      | _ :: _ => Map_set newNoteMap measureNumber measureNotes
                      end))
      end
  end.

(** [allElements.forEach(el => ...)]: pass C; a glyph goes to the first
    measure whose bounds, widened by 10 pixels, contain its center. *)
Definition mapContent (doc : Document) (containerRect : DOMRect)
    (measureBounds : list MeasureBound) : JsMap (list Elem) :=
  fold_left
    (fun newMeasureContentMap el =>
       let rect := getBoundingClientRect doc el in
       let elCenterX := (rect_left rect - rect_left containerRect) + rect_width rect / 2 in
       match find (fun b => Qleb (bound_left b - 10) elCenterX &&
                            Qleb elCenterX (bound_right b + 10)) measureBounds with
       | Some b => Map_push newMeasureContentMap (bound_index b) el
       | None => newMeasureContentMap
       end)
    (querySelectorAll_glyphs doc) [].

(** [calculateNoteMap]: the new [noteMap.current] and
    [measureContentMap.current], or [None] when a guard returns. *)
Definition calculateNoteMap (doc : Document) (osmdRef : option OSMD)
    (containerRef : option DOMRect)
    : Completion (option (JsMap (list NoteData) * JsMap (list Elem))) :=
  match osmdRef with
  | None => Normal None
  | Some osmd =>
  match GraphicSheet osmd with
  | None => Normal None
  | Some sheet =>
  match containerRef with
  | None => Normal None
  | Some containerRect =>
      let measureList := MeasureList sheet in
      let unitInPixels := unitInPixelsOf sheet in
      bindC (measureBoundsFrom unitInPixels 0 measureList []) (fun measureBounds =>
      bindC (mapNotes doc unitInPixels 0 measureList []) (fun newNoteMap =>
      Normal (Some (newNoteMap, mapContent doc containerRect measureBounds))))
  end end end.

(** [updateMeasureVisibility] *)
Definition updateMeasureVisibility (doc : Document) (revealMode : RevealMode)
    (measureContentMap : JsMap (list Elem)) (currentMeasure : Z) : Cmd unit :=
  if negb (isNOTE revealMode) then ret tt
  else
    forEach (fun entry : Z * list Elem =>
               let (measureNum, elements) := entry in
               if (measureNum <? currentMeasure)%Z then
                 forEach (fun el => setOpacity el "1") elements
               else if (currentMeasure <? measureNum)%Z then
                 forEach (fun el => setOpacity el "0") elements
               else
                 forEach (fun el =>
                            if classList_contains doc el "vf-beam" ||
                               classList_contains doc el "vf-rest"
                            then setOpacity el "1"
                            else ret tt) elements)
            measureContentMap.

(** The curtain follows the cursor in curtain mode and is hidden otherwise. *)
Definition slideCurtain (revealMode : RevealMode) (cursorX : Q) : Cmd unit :=
  modify (fun w =>
    match curtain w with
    | None => w
    | Some c =>
        match revealMode with
        | CURTAIN => set_curtain (Some (mkCurtainStyle "block" cursorX "50000px")) w
        | _ => set_curtain (Some (mkCurtainStyle "none" (curtain_left c) (curtain_width c))) w
        end
    end).

(** The note loop of playback mode. *)
Definition highlightNote (revealMode : RevealMode) (highlightProgress : Q)
    (noteData : NoteData) : Cmd unit :=
  match element noteData with
  | None => ret tt
  | Some el =>
      (if isNOTE revealMode then
         if isAhead highlightProgress (timestamp noteData)
         then setOpacity el "0"
         else setOpacity el "1"
       else ret tt) ;;
      (if isHighlighted highlightProgress (timestamp noteData)
       then applyColor el highlightColor
       else applyColor el defaultColor)
  end.

(** The note loop of record mode. *)
Definition resetNote (noteData : NoteData) : Cmd unit :=
  match element noteData with
  | None => ret tt
  | Some el =>
      applyColor el defaultColor ;;
      setOpacity el "1"
  end.

(** The body of the [try] block of [updateCursorPosition].  The pixel
    position of the cursor and the scroll target are computed in exact
    rationals.  The source computes them in doubles, which overflow when
    the extremes keep [Number.MAX_VALUE] (a measure none of whose staves
    has a shape: the position is then [NaN], nothing is assigned to
    [scrollLeft] but [NaN], and no smooth scroll is requested); the
    statements about these values carry the bound [moderateFrame], which
    leaves such frames out. *)
Definition frameBody (doc : Document) (props : Props) (revealMode : RevealMode)
    (measureContentMap : JsMap (list Elem)) (sheet : GraphicalMusicSheet)
    (measure : Z) (effectiveProgress : Q) : Cmd unit :=
  let currentMeasureIndex := (measure - 1)%Z in
  let measureList := MeasureList sheet in
  match measureList with
  | [] => ret tt
  | _ :: _ =>
  if (Z.of_nat (length measureList) <=? currentMeasureIndex)%Z then ret tt
  else
  match measureAt measureList currentMeasureIndex with
  | None | Some [] => ret tt
  | Some measureStaves =>
      let unitInPixels := unitInPixelsOf sheet in
      let* geometry :=
        liftC (cursorExtent measureStaves initialExtent Number_MAX_VALUE) in
      let (e, minNoteX) := geometry : Extent * Q in
      let systemTop := minY e * unitInPixels in
      let systemHeight := (maxY e - minY e) * unitInPixels in
      let visualStartX := visualStartXOf measure unitInPixels e minNoteX in
      let systemX := visualStartX * unitInPixels in
      let systemWidth := (maxX e - visualStartX) * unitInPixels in
      let cursorX := systemX + systemWidth * effectiveProgress in
      paintCursor (mode props) cursorX systemTop systemHeight ;;
      scrollLogic cursorX currentMeasureIndex ;;
      slideCurtain revealMode cursorX ;;
      (let* lastIndex := gets lastMeasureIndex in
       if isNOTE revealMode && negb (currentMeasureIndex =? lastIndex)%Z
       then updateMeasureVisibility doc revealMode measureContentMap measure
       else ret tt) ;;
      modify (set_lastMeasureIndex currentMeasureIndex) ;;
      let notesInMeasure := Map_get (noteMap props) measure in
      (match notesInMeasure, mode props with
       | Some ns, PLAYBACK =>
           let highlightProgress := highlightProgressOf e visualStartX effectiveProgress in
           forEach (highlightNote revealMode highlightProgress) ns
       | _, _ => ret tt
       end) ;;
      (match mode props, notesInMeasure with
       | RECORD, Some ns => forEach resetNote ns
       | _, _ => ret tt
       end)
  end
  end.

(** [updateCursorPosition] *)
Definition updateCursorPosition (doc : Document) (props : Props)
    (revealMode : RevealMode) (measureContentMap : JsMap (list Elem))
    (audioTime : Q) : Cmd unit :=
  fun w =>
    match osmdRef props, isLoaded props, cursor w with
    | Some osmd, true, Some _ =>
        match GraphicSheet osmd with
        | None => ret tt w
        | Some sheet =>
            let located := findCurrentMeasure (anchors props) audioTime in
            let measure := loc_measure located in
            let effectiveProgress := progress located in
            try_catch_log "Error positioning cursor:"
              (frameBody doc props revealMode measureContentMap sheet
                         measure effectiveProgress) w
        end
    | _, _, _ => ret tt w
    end.

(** [animate]: one frame of the loop. *)
Definition animate (doc : Document) (props : Props) (revealMode : RevealMode)
    (measureContentMap : JsMap (list Elem)) : Cmd unit :=
  let* audioTime := readAudioTime in
  updateCursorPosition doc props revealMode measureContentMap audioTime ;;
  requestAnimationFrame.

(** The loop over a run of frames, the audio clock standing at the given
    times when the frames are drawn. *)
Fixpoint frames (doc : Document) (props : Props) (revealMode : RevealMode)
    (measureContentMap : JsMap (list Elem)) (audioTimes : list Q) : Cmd unit :=
  match audioTimes with
  | [] => ret tt
  | t :: tl =>
      audioAdvances t ;;
      animate doc props revealMode measureContentMap ;;
      frames doc props revealMode measureContentMap tl
  end.

End TriReveal.

(** ** Vocabulary of the statements about the frame step *)

(** A write to the style of an element. *)
Inductive Write : Type :=
| SetOpacity (el : Elem) (v : string)
| SetColor (el : Elem) (v : string).

Definition applyWrite (w : World) (x : Write) : World :=
  match x with
  | SetOpacity el v => set_opacity (fun m => <[el := v]> m) w
  | SetColor el v => set_color (fun m => <[el := v]> m) w
  end.

Definition applyWrites (ws : list Write) (w : World) : World :=
  fold_left applyWrite ws w.

(** A command that only writes styles: it returns, and its effect is the
    list of writes [ws] in order. *)
Definition writes (c : Cmd unit) (ws : list Write) : Prop :=
  forall w, c w = (Normal tt, applyWrites ws w).

(** The elements of the notes of a list, with the notes they belong to. *)
Definition noteElements (ns : list NoteData) : list Elem :=
  flat_map (fun n => match element n with Some el => [el] | None => [] end) ns.

(** The glyphs of a map with the measure they are filed under. *)
Definition glyphsOf {V : Type} (elems : V -> list Elem) (m : JsMap V) : list (Z * Elem) :=
  flat_map (fun entry => map (fun el => (fst entry, el)) (elems (snd entry))) m.

(** Every glyph is filed under one measure only. *)
Definition oneMeasurePerGlyph (glyphs : list (Z * Elem)) : Prop :=
  forall m1 m2 el, In (m1, el) glyphs -> In (m2, el) glyphs -> m1 = m2.

(** Notes drawn by one element stand at one timestamp (the notes of a
    chord share their stave note). *)
Definition oneTimestampPerElement (ns : list NoteData) : Prop :=
  forall n1 n2 el,
    In n1 ns -> In n2 ns ->
    element n1 = Some el -> element n2 = Some el ->
    timestamp n1 = timestamp n2.

(** A command leaves the bookkeeping of the animation loop alone. *)
Definition keepsSchedule {A : Type} (c : Cmd A) : Prop :=
  forall w,
    frameRequests (snd (c w)) = frameRequests w /\
    animationFrame (snd (c w)) = animationFrame w.

(** The opacity the visibility helper gives to the glyphs of measure [m]
    when the current measure is [c]. *)
Definition revealOpacity (c m : Z) : string :=
  if (m <? c)%Z then "1" else if (c <? m)%Z then "0" else "1".

Definition opacityWrites (v : string) (els : list Elem) : list Write :=
  map (fun el => SetOpacity el v) els.

(** The writes of the visibility helper for one entry of a glyph map:
    everything before and after the current measure, and of the current
    measure the glyphs that [keep] selects. *)
Definition entryWrites {V : Type} (elems : V -> list Elem) (keep : Elem -> bool)
    (c : Z) (entry : Z * V) : list Write :=
  if (fst entry <? c)%Z then opacityWrites "1" (elems (snd entry))
  else if (c <? fst entry)%Z then opacityWrites "0" (elems (snd entry))
  else opacityWrites "1" (filter keep (elems (snd entry))).

(** A glyph with the class of a beam or of a rest. *)
Definition isBeamOrRest (doc : Document) (el : Elem) : bool :=
  classList_contains doc el "vf-beam" || classList_contains doc el "vf-rest".

Definition allGlyphs (el : Elem) : bool := true.
Definition noGlyph (el : Elem) : bool := false.
Definition elemsOf (els : list Elem) : list Elem := els.

(** The color and the opacity the note loop gives to a note at timestamp
    [ts] when the highlight progress is [hp]. *)
Definition noteColor (hp : Q) (ts : JsNum) : string :=
  if isHighlighted hp ts then highlightColor else defaultColor.

Definition noteOpacity (hp : Q) (ts : JsNum) : string :=
  if isAhead hp ts then "0" else "1".

Definition BoolReveal_highlightWrites (revealMode : bool) (hp : Q) (n : NoteData)
    : list Write :=
  match element n with
  | None => []
  | Some el =>
      [SetOpacity el (if revealMode then noteOpacity hp (timestamp n) else "1");
       SetColor el (noteColor hp (timestamp n))]
  end.

Definition TriReveal_highlightWrites (revealMode : TriReveal.RevealMode) (hp : Q)
    (n : NoteData) : list Write :=
  match element n with
  | None => []
  | Some el =>
      (if TriReveal.isNOTE revealMode
       then [SetOpacity el (noteOpacity hp (timestamp n))]
       else []) ++
      [SetColor el (noteColor hp (timestamp n))]
  end.

Definition resetWrites (n : NoteData) : list Write :=
  match element n with
  | None => []
  | Some el => [SetColor el defaultColor; SetOpacity el "1"]
  end.

(** A command that always returns. *)
Definition returns (c : Cmd unit) : Prop :=
  forall w, exists w', c w = (Normal tt, w').

(** The frame step gets as far as the note loops: the current measure is in
    the score, has staves, and its geometry is read without a throw, giving
    the extent [e] and the leftmost first note [minNoteX]. *)
Definition frameGeometry (sheet : GraphicalMusicSheet) (measure : Z)
    (e : Extent) (minNoteX : Q) : Prop :=
  (0 <= measure - 1 < Z.of_nat (length (MeasureList sheet)))%Z /\
  exists staves,
    measureAt (MeasureList sheet) (measure - 1) = Some staves /\
    staves <> [] /\
    cursorExtent staves initialExtent Number_MAX_VALUE = Normal (e, minNoteX).

(** The highlight progress of a frame. *)
Definition frameHighlightProgress (sheet : GraphicalMusicSheet) (located : Located)
    (e : Extent) (minNoteX : Q) : Q :=
  highlightProgressOf e
    (visualStartXOf (loc_measure located) (unitInPixelsOf sheet) e minNoteX)
    (progress located).

(** ** Vocabulary of the further statements about anchors *)

(** No two anchors of the list stand at the same time, except copies of one
    anchor. *)
Definition distinctTimes (anchors : list Anchor) : Prop :=
  forall a b, In a anchors -> In b anchors -> time a == time b -> a = b.

(** Anchor [a] has the latest time at or before [t] among the anchors. *)
Definition latestAtOrBefore (anchors : list Anchor) (t : Q) (a : Anchor) : Prop :=
  In a anchors /\ time a <= t /\
  (forall b, In b anchors -> time b <= t -> time b <= time a).

(** ** Vocabulary of the further statements about the geometry mapper *)

(** A computation that returns. *)
Definition completes {A : Type} (c : Completion A) : Prop := exists a, c = Normal a.

(** A staff entry the note pass can read: it has no voice entries and is
    passed over, or it has a shape. *)
Definition wellFormedEntry (entry : GraphicalStaffEntry) : Prop :=
  graphicalVoiceEntries entry = None \/ entryPositionAndShape entry <> None.

(** A staff measure the note pass can read: it has a shape, and so do its
    staff entries that carry voice entries. *)
Definition wellFormedStaffMeasure (staffMeasure : GraphicalMeasure) : Prop :=
  PositionAndShape staffMeasure <> None /\
  Forall wellFormedEntry (staffEntries staffMeasure).

(** A score the mapper of the boolean viewer can read: every staff measure
    that is present is well formed. *)
Definition BoolReveal_wellFormed (measureList : list MeasureStaves) : Prop :=
  forall staves staffMeasure,
    In (Some staves) measureList -> In (Some staffMeasure) staves ->
    wellFormedStaffMeasure staffMeasure.

(** A score the mapper of the three-state viewer can read: every measure
    has its list of staves, and every staff measure is present and well
    formed. *)
Definition TriReveal_wellFormed (measureList : list MeasureStaves) : Prop :=
  forall ms, In ms measureList ->
    exists staves,
      ms = Some staves /\
      forall s, In s staves ->
        exists staffMeasure, s = Some staffMeasure /\
                             wellFormedStaffMeasure staffMeasure.

(** The notes of a staff entry, of a staff measure and of a measure, as
    lists: what the note pass pushes when nothing throws. *)
Definition entryNotes (doc : Document) (unitInPixels : Q) (measureNumber : Z)
    (measureWidth : Q) (entry : GraphicalStaffEntry) : list NoteData :=
  match graphicalVoiceEntries entry, entryPositionAndShape entry with
  | Some gves, Some shape =>
      flat_map (voiceEntryNotes doc measureNumber
                  (js_div (pt_x (RelativePosition shape) * unitInPixels) measureWidth))
               gves
  | _, _ => []
  end.

Definition staffNotes (doc : Document) (unitInPixels : Q) (measureNumber : Z)
    (s : option GraphicalMeasure) : list NoteData :=
  match s with
  | Some staffMeasure =>
      match PositionAndShape staffMeasure with
      | Some measurePos =>
          flat_map (entryNotes doc unitInPixels measureNumber
                      ((BorderRight measurePos - BorderLeft measurePos) * unitInPixels))
                   (staffEntries staffMeasure)
      | None => []
      end
  | None => []
  end.

Definition measureNotesOf (doc : Document) (unitInPixels : Q) (measureNumber : Z)
    (staves : list (option GraphicalMeasure)) : list NoteData :=
  flat_map (staffNotes doc unitInPixels measureNumber) staves.

(** The note map as a list: for each measure with notes, in order, its
    number and its notes; [rest] is [measureList[i..]]. *)
Fixpoint noteMapFrom (doc : Document) (unitInPixels : Q) (i : Z)
    (rest : list MeasureStaves) : JsMap (list NoteData) :=
  match rest with
  | [] => []
  | ms :: tl =>
      match ms with
      | Some staves =>
          match measureNotesOf doc unitInPixels (i + 1) staves with
          | [] => []
          | n :: ns => [((i + 1)%Z, n :: ns)]
          end
      | None => []
      end ++ noteMapFrom doc unitInPixels (i + 1) tl
  end.

(** What holds of every note of the entry of measure [k]. *)
Definition noteFiledUnder (k : Z) (n : NoteData) : Prop :=
  measureIndex n = k /\ element n <> None /\ note_id n <> ""%string.

(** Every staff measure with a shape is wider than nothing. *)
Definition widthsNonzero (measureList : list MeasureStaves) : Prop :=
  forall staves staffMeasure pos,
    In (Some staves) measureList -> In (Some staffMeasure) staves ->
    PositionAndShape staffMeasure = Some pos ->
    ~ BorderRight pos == BorderLeft pos.

(** ** The effects that run when the reveal mode changes *)

(** [noteMap.current?.forEach(notes => notes.forEach(n => ...))]: every
    note that has an element becomes opaque. *)
Definition showNotes (noteMap : JsMap (list NoteData)) : Cmd unit :=
  forEach (fun entry : Z * list NoteData =>
             forEach (fun n => match element n with
                               | Some el => setOpacity el "1"
                               | None => ret tt
                               end) (snd entry))
          noteMap.

(** [map.current.forEach(elements => elements.forEach(el => ...))]: every
    glyph of the map becomes opaque. *)
Definition showGlyphs (glyphMap : JsMap (list Elem)) : Cmd unit :=
  forEach (fun entry : Z * list Elem =>
             forEach (fun el => setOpacity el "1") (snd entry))
          glyphMap.

(** The toggle effect of the boolean viewer: with reveal off everything is
    shown; with reveal on the visibility helper runs for the measure at the
    audio clock, or for measure 1 when there is no audio element. *)
Definition BoolReveal_revealEffect (props : Props) (revealMode : bool)
    (beamsMap : JsMap (list Elem)) : Cmd unit :=
  if negb revealMode then
    showNotes (noteMap props) ;;
    showGlyphs beamsMap
  else
    let* audio := gets currentTime in
    match audio with
    | Some t =>
        let measure := loc_measure (findCurrentMeasure (anchors props) t) in
        BoolReveal.updateMeasureVisibility revealMode (noteMap props) beamsMap measure
    | None =>
        BoolReveal.updateMeasureVisibility revealMode (noteMap props) beamsMap 1
    end.

(** The mode switching effect of the three-state viewer; the result is the
    new value of [prevRevealModeRef.current]. *)
Definition TriReveal_modeEffect (doc : Document) (props : Props)
    (prevRevealMode revealMode : TriReveal.RevealMode)
    (measureContentMap : JsMap (list Elem)) : Cmd TriReveal.RevealMode :=
  (if TriReveal.isNOTE prevRevealMode && negb (TriReveal.isNOTE revealMode)
   then showGlyphs measureContentMap
   else ret tt) ;;
  (let* audio := gets currentTime in
   match TriReveal.isNOTE revealMode, audio with
   | true, Some t =>
       let measure := loc_measure (findCurrentMeasure (anchors props) t) in
       TriReveal.updateMeasureVisibility doc revealMode measureContentMap measure
   | _, _ => ret tt
   end) ;;
  (match revealMode with
   | TriReveal.CURTAIN => showGlyphs measureContentMap
   | _ => ret tt
   end) ;;
  ret revealMode.

(** ** Vocabulary of the further statements about style writes *)

(** The value of the last write to the opacity, and to the color, of an
    element in a list of writes. *)
Fixpoint lastOpacity (ws : list Write) (el : Elem) : option string :=
  match ws with
  | [] => None
  | x :: tl =>
      match lastOpacity tl el with
      | Some v => Some v
      | None =>
          match x with
          | SetOpacity el' v => if Nat.eqb el' el then Some v else None
          | SetColor _ _ => None
          end
      end
  end.

Fixpoint lastColor (ws : list Write) (el : Elem) : option string :=
  match ws with
  | [] => None
  | x :: tl =>
      match lastColor tl el with
      | Some v => Some v
      | None =>
          match x with
          | SetColor el' v => if Nat.eqb el' el then Some v else None
          | SetOpacity _ _ => None
          end
      end
  end.

(** Two worlds that differ in the opacities of elements at most. *)
Definition sameButOpacity (w w' : World) : Prop :=
  color w' = color w /\ cursor w' = cursor w /\ curtain w' = curtain w /\
  scrollContainer w' = scrollContainer w /\ container w' = container w /\
  lastMeasureIndex w' = lastMeasureIndex w /\ currentTime w' = currentTime w /\
  console w' = console w /\ animationFrame w' = animationFrame w /\
  frameRequests w' = frameRequests w.

(** The writes of a sweep that makes every glyph of a map opaque. *)
Definition showWrites {V : Type} (elems : V -> list Elem) (m : JsMap V) : list Write :=
  flat_map (fun entry => opacityWrites "1" (elems (snd entry))) m.

(** ** Vocabulary of the statements about a frame *)

(** A command leaves a reading of the world as it was. *)
Definition preserves {A F : Type} (f : World -> F) (c : Cmd A) : Prop :=
  forall w, f (snd (c w)) = f w.

(** A command run on a note writes to the styles of the element of that
    note only: it leaves every reading of the world alone that such writes
    leave alone. *)
Definition touchesOnlyNote (c : NoteData -> Cmd unit) : Prop :=
  forall (n : NoteData) (F : Type) (f : World -> F),
    (forall el v w, element n = Some el ->
                    f (set_opacity (fun m => <[el := v]> m) w) = f w) ->
    (forall el v w, element n = Some el ->
                    f (set_color (fun m => <[el := v]> m) w) = f w) ->
    preserves f (c n).

(** The two note loops at the end of the frame step, over the notes filed
    under the measure. *)
Definition noteLoops (highlight : NoteData -> Cmd unit) (reset : NoteData -> Cmd unit)
    (props : Props) (measure : Z) : Cmd unit :=
  (match Map_get (noteMap props) measure, mode props with
   | Some ns, PLAYBACK => forEach highlight ns
   | _, _ => ret tt
   end) ;;
  (match mode props, Map_get (noteMap props) measure with
   | RECORD, Some ns => forEach reset ns
   | _, _ => ret tt
   end).

(** [cursorX] of a frame: [systemX + systemWidth * effectiveProgress]. *)
Definition frameCursorX (sheet : GraphicalMusicSheet) (located : Located)
    (e : Extent) (minNoteX : Q) : Q :=
  let unitInPixels := unitInPixelsOf sheet in
  let visualStartX := visualStartXOf (loc_measure located) unitInPixels e minNoteX in
  let systemX := visualStartX * unitInPixels in
  let systemWidth := (maxX e - visualStartX) * unitInPixels in
  systemX + systemWidth * progress located.

(** The world in which the note loops of a frame start. *)
Definition loopsStartFrom (props : Props) (sheet : GraphicalMusicSheet) (measure : Z)
    (prog : Q) (e : Extent) (minNoteX : Q) (visibilityRuns : bool) (w w3 : World) : Prop :=
  let unitInPixels := unitInPixelsOf sheet in
  let visualStartX := visualStartXOf measure unitInPixels e minNoteX in
  let cursorX :=
    visualStartX * unitInPixels + (maxX e - visualStartX) * unitInPixels * prog in
  cursor w3 =
    Some {| cursor_left := cursorX;
            cursor_top := minY e * unitInPixels;
            cursor_height := (maxY e - minY e) * unitInPixels;
            cursor_display := "block";
            cursor_backgroundColor :=
              match mode props with RECORD => recordColor | PLAYBACK => playbackColor end;
            cursor_boxShadow :=
              match mode props with RECORD => recordShadow | PLAYBACK => playbackShadow end |} /\
  lastMeasureIndex w3 = (measure - 1)%Z /\
  scrollContainer w3 = scrollContainer (snd (scrollLogic cursorX (measure - 1) w)) /\
  color w3 = color w /\
  console w3 = console w /\
  currentTime w3 = currentTime w /\
  (visibilityRuns = false -> opacity w3 = opacity w).

(** A number of moderate size.  The model computes in exact rationals; the
    source computes in doubles, whose sums and products of a few numbers of
    this size stay far below [Number.MAX_VALUE].  The bound keeps the
    statements about the pixel position of the cursor to the frames on which
    the doubles do not overflow; in particular it rules out the extent of a
    measure none of whose staves has a shape, which keeps the initial
    [Number.MAX_VALUE] (in the source the cursor position is then [NaN]). *)
Definition moderate (x : Q) : Prop := Qabs x <= inject_Z (2 ^ 500).

(** The numbers that enter the pixel position of the cursor are moderate:
    the pixel factor, the four extremes of the measure and the visual
    start. *)
Definition moderateFrame (sheet : GraphicalMusicSheet) (measure : Z)
    (e : Extent) (minNoteX : Q) : Prop :=
  let unitInPixels := unitInPixelsOf sheet in
  moderate unitInPixels /\
  moderate (minY e) /\ moderate (maxY e) /\ moderate (minX e) /\ moderate (maxX e) /\
  moderate (visualStartXOf measure unitInPixels e minNoteX).

(** ** The anchor sidebar *)

Module AnchorSidebar.

(** The props that decide which rows are drawn; an optional callback is
    recorded by whether it is given. *)
Record SidebarProps : Type := mkSidebarProps
  { anchors : list Anchor;
    mode : AppMode;
    currentMeasure : Z;
    handleDelete : bool;
    handleRestamp : bool }.

(** A row of the list: the row of an anchor, with its key [m], whether it
    is the active row, the anchor whose time it shows and to which a click
    on it jumps, whether its time input is disabled and whether it has a
    delete button; or the row of a ghost measure, with its key and whether
    it has a Fix button. *)
Inductive Row : Type :=
| AnchorRow (m : Z) (isActive : bool) (anchor : Anchor)
            (inputDisabled : bool) (deleteButton : bool)
| GhostRow (m : Z) (fixButton : bool).

Definition key (row : Row) : Z :=
  match row with
  | AnchorRow m _ _ _ _ => m
  | GhostRow m _ => m
  end.

(** [anchors.length > 0 ? Math.max(...anchors.map(a => a.measure)) : 0] *)
Definition maxMeasure (anchors : list Anchor) : Z :=
  match anchors with
  | [] => 0%Z
  | a :: tl => fold_left Z.max (map measure tl) (measure a)
  end.

Definition isRECORD (mode : AppMode) : bool :=
  match mode with RECORD => true | PLAYBACK => false end.

(** The body of the loop for the measure [m]. *)
Definition rowOf (props : SidebarProps) (m : Z) : Row :=
  let anchor := find (fun a => (measure a =? m)%Z) (anchors props) in
  let isActive := (m =? currentMeasure props)%Z in
  match anchor with
  | Some anchor =>
      AnchorRow m isActive anchor
        (negb (isRECORD (mode props)) || (m =? 1)%Z)
        (negb (m =? 1)%Z && isRECORD (mode props) && handleDelete props)
  | None =>
      GhostRow m (isRECORD (mode props) && handleRestamp props)
  end.

(** [for (let m = 1; m <= maxMeasure; m++) rows.push(...)] *)
Definition rows (props : SidebarProps) : list Row :=
  map (fun i => rowOf props (Z.of_nat i)) (seq 1 (Z.to_nat (maxMeasure (anchors props)))).

(** [onClick={() => handleJumpToMeasure(anchor.time)}]: the time a click on
    the row jumps to; a ghost row has no click handler. *)
Definition onClick (row : Row) : option Q :=
  match row with
  | AnchorRow _ _ anchor _ _ => Some (time anchor)
  | GhostRow _ _ => None
  end.

End AnchorSidebar.

(** The first anchor of a list, in the order of the list, with the measure. *)
Definition firstWithMeasure (anchors : list Anchor) (m : Z) (a : Anchor) : Prop :=
  exists pre post,
    anchors = pre ++ a :: post /\ measure a = m /\
    Forall (fun b => measure b <> m) pre.

(** ** File names of uploads *)

(** A JavaScript string: its UTF-16 code units. *)
Definition JsString : Type := list N.

(** The class [[a-zA-Z0-9.-]] of the pattern. *)
Definition isFileNameChar (u : N) : bool :=
  ((97 <=? u) && (u <=? 122) ||      (* a-z *)
   (65 <=? u) && (u <=? 90) ||       (* A-Z *)
   (48 <=? u) && (u <=? 57) ||       (* 0-9 *)
   (u =? 46) ||                      (* . *)
   (u =? 45))%N.                     (* - *)

Definition underscore : N := 95%N.

(** [fileName.replace(/[^a-zA-Z0-9.-]/g, '_')]: the pattern has no [u]
    flag, so it is matched against single code units. *)
Definition cleanFileName (fileName : JsString) : JsString :=
  map (fun u => if isFileNameChar u then u else underscore) fileName.

(** The decimal digits of a natural number, as a template literal prints
    it. *)
Fixpoint digitsOf (d : Decimal.uint) : JsString :=
  match d with
  | Decimal.Nil => []
  | Decimal.D0 d => 48%N :: digitsOf d
  | Decimal.D1 d => 49%N :: digitsOf d
  | Decimal.D2 d => 50%N :: digitsOf d
  | Decimal.D3 d => 51%N :: digitsOf d
  | Decimal.D4 d => 52%N :: digitsOf d
  | Decimal.D5 d => 53%N :: digitsOf d
  | Decimal.D6 d => 54%N :: digitsOf d
  | Decimal.D7 d => 55%N :: digitsOf d
  | Decimal.D8 d => 56%N :: digitsOf d
  | Decimal.D9 d => 57%N :: digitsOf d
  end.

Definition Number_toString (n : N) : JsString := digitsOf (N.to_uint n).

(** The name under which [uploadFile] stores a file:
    [`${timestamp}_${cleanName}`], with [timestamp = Date.now()]. *)
Definition uploadFileName (timestamp : N) (name : JsString) : JsString :=
  let cleanName := cleanFileName name in
  Number_toString timestamp ++ [underscore] ++ cleanName.

(** A code unit that a stored name may hold: one of the class, or the
    underscore that replaces the others. *)
Definition isStorageChar (u : N) : Prop := isFileNameChar u = true \/ u = underscore.
(** ** A small score used in the examples

    Three measures on one staff, each 10 units wide and 4 units high, laid
    side by side from x = 0 at y = 5, with 10 pixels to the unit: the pixel
    boxes are [0,100], [100,200] and [200,300] by [50,90]. *)

Definition sampleEntry (relX : Q) (vfId : string) : GraphicalStaffEntry :=
  mkGraphicalStaffEntry
    (Some (mkBoundingBox (mkPoint 0 0) (mkPoint relX 0) 0 1 0 1))
    (Some [mkGraphicalVoiceEntry
             (Some [mkGraphicalNote (Some [mkVfStaveNote (Some vfId)])])]).

Definition sampleMeasure (absX : Q) (entries : list GraphicalStaffEntry) : GraphicalMeasure :=
  mkGraphicalMeasure
    (Some (mkBoundingBox (mkPoint absX 5) (mkPoint 0 0) 0 10 0 4))
    entries.

Definition sampleSheet : GraphicalMusicSheet :=
  mkSheet
    [Some [Some (sampleMeasure 0 [sampleEntry 2 "n1"; sampleEntry 6 "n2"])];
     Some [Some (sampleMeasure 10 [sampleEntry 5 "n3"])];
     Some [Some (sampleMeasure 20 [sampleEntry 5 "n4"])]]
    (Some 10).

Definition sampleWorld : World :=
  {| opacity := ∅;
     color := ∅;
     cursor := Some (mkCursorStyle 0 0 100 "none" "" "");
     curtain := None;
     scrollContainer := Some (mkScrollContainer 400 0 []);
     container := Some (mkRect 0 0 300 300);
     lastMeasureIndex := -1;
     currentTime := Some 0;
     console := [];
     animationFrame := None;
     frameRequests := 0 |}.

Definition sampleProps (anchors : list Anchor) (mode : AppMode)
    (noteMap : JsMap (list NoteData)) : Props :=
  {| anchors := anchors;
     mode := mode;
     osmdRef := Some (mkOSMD (Some sampleSheet));
     isLoaded := true;
     noteMap := noteMap |}.

(** Glyph maps of the three sample measures: element [i] is the note of
    measure [i], elements [11], [12] and [13] are beams, [22] is a rest and
    [32] an accidental of measure 2. *)
Definition sampleNote (vfId : string) (m : Z) (el : Elem) (ts : Q) : NoteData :=
  {| note_id := vfId; measureIndex := m; timestamp := Fin ts; element := Some el |}.

Definition sampleNoteMap : JsMap (list NoteData) :=
  [(1%Z, [sampleNote "n1" 1%Z 1%nat (20#100); sampleNote "n2" 1%Z 4%nat (60#100)]);
   (2%Z, [sampleNote "n3" 2%Z 2%nat (50#100)]);
   (3%Z, [sampleNote "n4" 3%Z 3%nat (50#100)])].

Definition sampleBeamsMap : JsMap (list Elem) :=
  [(1%Z, [11%nat]); (2%Z, [12%nat]); (3%Z, [13%nat])].

Definition sampleContentMap : JsMap (list Elem) :=
  [(1%Z, [1%nat; 4%nat; 11%nat]);
   (2%Z, [2%nat; 12%nat; 22%nat; 32%nat]);
   (3%Z, [3%nat; 13%nat])].

Definition sampleDocument : Document :=
  {| getElementById := fun s =>
       if String.eqb s "n1" then Some 1%nat
       else if String.eqb s "n2" then Some 4%nat
       else if String.eqb s "n3" then Some 2%nat
       else if String.eqb s "n4" then Some 3%nat
       else None;
     closest_vf_stavenote := fun _ => None;
     getElementsByClassName_vf_beam := [11%nat; 12%nat; 13%nat];
     querySelectorAll_glyphs :=
       [1%nat; 4%nat; 11%nat; 2%nat; 12%nat; 22%nat; 32%nat; 3%nat; 13%nat];
     getBoundingClientRect := fun el =>
       match el with
       | 1%nat => mkRect 20 50 24 4
       | 4%nat => mkRect 60 50 64 4
       | 11%nat => mkRect 20 50 64 44
       | 2%nat => mkRect 150 50 154 4
       | 12%nat => mkRect 150 50 160 10
       | 22%nat => mkRect 170 50 174 4
       | 32%nat => mkRect 140 50 144 4
       | 3%nat => mkRect 250 50 254 4
       | 13%nat => mkRect 250 50 260 10
       | _ => mkRect 0 0 0 0
       end;
     classList_contains := fun el cls =>
       match el with
       | 11%nat | 12%nat | 13%nat => String.eqb cls "vf-beam"
       | 22%nat => String.eqb cls "vf-rest"
       | 32%nat => String.eqb cls "vf-accidental"
       | _ => String.eqb cls "vf-stavenote"
       end |}.

(** The anchors of the examples of the frame step, and a score whose only
    measure has lost its staff measure. *)
Definition sampleAnchors : list Anchor := [mkAnchor 1 0; mkAnchor 2 10].

Definition brokenSheet : GraphicalMusicSheet := mkSheet [Some [None]] (Some 10).

Definition brokenProps : Props :=
  {| anchors := sampleAnchors;
     mode := PLAYBACK;
     osmdRef := Some (mkOSMD (Some brokenSheet));
     isLoaded := true;
     noteMap := [] |}.

(** The sample score with its second measure malformed: once without a
    bounding shape, once with a shape of width zero. *)
Definition shapelessSheet : GraphicalMusicSheet :=
  mkSheet
    [Some [Some (sampleMeasure 0 [sampleEntry 2 "n1"; sampleEntry 6 "n2"])];
     Some [Some (mkGraphicalMeasure None [sampleEntry 5 "n3"])];
     Some [Some (sampleMeasure 20 [sampleEntry 5 "n4"])]]
    (Some 10).

Definition zeroWidthSheet : GraphicalMusicSheet :=
  mkSheet
    [Some [Some (sampleMeasure 0 [sampleEntry 2 "n1"; sampleEntry 6 "n2"])];
     Some [Some (mkGraphicalMeasure
                   (Some (mkBoundingBox (mkPoint 10 5) (mkPoint 0 0) 0 0 0 4))
                   [sampleEntry 5 "n3"])];
     Some [Some (sampleMeasure 20 [sampleEntry 5 "n4"])]]
    (Some 10).

(** A staff measure of the score has no bounding shape. *)
Definition hasShapelessMeasure (measureList : list MeasureStaves) : Prop :=
  exists staves staffMeasure,
    In (Some staves) measureList /\
    In (Some staffMeasure) staves /\
    PositionAndShape staffMeasure = None.


(** The frame of the examples: playback of the sample score with the audio
    clock at 5 seconds, halfway through measure 1, whose staff box spans
    [0,10] by [5,9] and whose first note stands at x = 2. *)
Definition sampleFrameProps : Props := sampleProps sampleAnchors PLAYBACK sampleNoteMap.

Definition sampleExtent : Extent := {| minY := 5; maxY := 9; minX := 0; maxX := 10 |}.

Definition sampleCurtainWorld : World :=
  set_curtain (Some (mkCurtainStyle "none" 0 "0px")) sampleWorld.

(** The sample note map with the rest of measure 2 filed with the notes, as
    the geometry mapper files every graphical note that has an element:
    element [22], which the sample document classes as a rest. *)
Definition sampleNoteMapWithRest : JsMap (list NoteData) :=
  [(1%Z, [sampleNote "n1" 1%Z 1%nat (20#100); sampleNote "n2" 1%Z 4%nat (60#100)]);
   (2%Z, [sampleNote "n3" 2%Z 2%nat (50#100); sampleNote "r1" 2%Z 22%nat (80#100)]);
   (3%Z, [sampleNote "n4" 3%Z 3%nat (50#100)])].
(* ================================================================== *)
(** * Part II: properties                                              *)
(* ================================================================== *)

(** ** Boolean comparisons *)

Lemma Qleb_le (x y : Q) : Qleb x y = true <-> x <= y.
Proof. unfold Qleb. apply Qle_bool_iff. Qed.

Lemma Qleb_gt (x y : Q) : Qleb x y = false <-> y < x.
Proof.
  unfold Qleb. split; intros H.
  - apply Qnot_le_lt. intros Hle. apply Qle_bool_iff in Hle. congruence.
  - destruct (Qle_bool x y) eqn:E; [|reflexivity].
    apply Qle_bool_iff in E. exfalso. apply (Qlt_not_le _ _ H E).
Qed.

Lemma Qltb_lt (x y : Q) : Qltb x y = true <-> x < y.
Proof.
  unfold Qltb. rewrite negb_true_iff. apply Qleb_gt.
Qed.

Lemma Qltb_ge (x y : Q) : Qltb x y = false <-> y <= x.
Proof.
  unfold Qltb. rewrite negb_false_iff. apply Qleb_le.
Qed.

Example findCurrentMeasure_sample :
  Located_eq (findCurrentMeasure [mkAnchor 1 0; mkAnchor 2 10; mkAnchor 4 25] (35#2))
             (mkLocated 2 (1#2)).
Proof. split; reflexivity. Qed.

Lemma Math_max_Qmax (x y : Q) : Math_max x y == Qmax x y.
Proof.
  unfold Math_max. destruct (Qltb x y) eqn:E.
  - apply Qltb_lt in E. symmetry. apply Q.max_r. lra.
  - apply Qltb_ge in E. symmetry. apply Q.max_l. exact E.
Qed.

Lemma Math_min_Qmin (x y : Q) : Math_min x y == Qmin x y.
Proof.
  unfold Math_min. destruct (Qltb y x) eqn:E.
  - apply Qltb_lt in E. symmetry. apply Q.min_r. lra.
  - apply Qltb_ge in E. symmetry. apply Q.min_l. exact E.
Qed.

Lemma Math_clamp (x : Q) : Math_max 0 (Math_min 1 x) == clamp x 0 1.
Proof.
  unfold clamp. rewrite Math_max_Qmax.
  apply Q.max_compat; [reflexivity | apply Math_min_Qmin].
Qed.

(** ** The stable sort *)

Section StableSortFacts.
Context {A : Type}.
Variable leb : A -> A -> bool.
Hypothesis leb_total : forall a b, leb a b = true \/ leb b a = true.
Hypothesis leb_trans :
  forall a b c, leb a b = true -> leb b c = true -> leb a c = true.

Let le (a b : A) : Prop := leb a b = true.

Lemma insertSorted_perm (a : A) (l : list A) :
  Permutation (insertSorted leb a l) (a :: l).
Proof.
  induction l as [|b tl IH]; simpl.
  - apply Permutation_refl.
  - destruct (leb a b).
    + apply Permutation_refl.
    + apply Permutation_trans with (b :: a :: tl).
      * apply perm_skip. exact IH.
      * apply perm_swap.
Qed.

Lemma stableSort_perm (l : list A) : Permutation (stableSort leb l) l.
Proof.
  induction l as [|a tl IH]; simpl.
  - apply perm_nil.
  - apply Permutation_trans with (a :: stableSort leb tl).
    + apply insertSorted_perm.
    + apply perm_skip. exact IH.
Qed.

Lemma stableSort_In (l : list A) (x : A) : In x (stableSort leb l) <-> In x l.
Proof.
  split; apply Permutation_in.
  - apply stableSort_perm.
  - apply Permutation_sym, stableSort_perm.
Qed.

Lemma insertSorted_sorted (a : A) (l : list A) :
  StronglySorted le l -> StronglySorted le (insertSorted leb a l).
Proof.
  induction 1 as [|b tl Hs IH Hb]; simpl.
  - constructor; constructor.
  - destruct (leb a b) eqn:E.
    + constructor.
      * constructor; assumption.
      * constructor; [exact E|].
        rewrite Forall_forall in *. intros c Hc.
        apply leb_trans with b; [exact E | apply Hb, Hc].
    + constructor; [exact IH|].
      rewrite Forall_forall in *. intros c Hc.
      apply (Permutation_in _ (insertSorted_perm a tl)) in Hc.
      destruct Hc as [<-|Hc].
      * destruct (leb_total a b) as [F|T]; [congruence | exact T].
      * apply Hb, Hc.
Qed.

Lemma stableSort_sorted (l : list A) : StronglySorted le (stableSort leb l).
Proof.
  induction l as [|a tl IH]; simpl.
  - constructor.
  - apply insertSorted_sorted, IH.
Qed.

(** Stability: the elements of one equivalence class keep the order of the
    input.  [p] selects a set of elements that are all below each other. *)
Variable p : A -> bool.
Hypothesis p_class : forall a b, p a = true -> p b = true -> leb a b = true.

Lemma filter_insertSorted (a : A) (l : list A) :
  filter p (insertSorted leb a l) = filter p (a :: l).
Proof.
  induction l as [|b tl IH]; simpl in *.
  - reflexivity.
  - destruct (leb a b) eqn:E; simpl.
    + reflexivity.
    + rewrite IH. destruct (p a) eqn:Pa, (p b) eqn:Pb; try reflexivity.
      rewrite (p_class a b Pa Pb) in E. discriminate.
Qed.

Lemma stableSort_stable (l : list A) : filter p (stableSort leb l) = filter p l.
Proof.
  induction l as [|a tl IH]; simpl.
  - reflexivity.
  - rewrite filter_insertSorted. simpl. rewrite IH. reflexivity.
Qed.
End StableSortFacts.

(** ** The two comparators are total preorders *)

Lemma byTime_total (a b : Anchor) : byTime a b = true \/ byTime b a = true.
Proof.
  unfold byTime. destruct (Qleb (time a) (time b)) eqn:E; [now left|].
  right. apply Qleb_gt in E. apply Qleb_le. lra.
Qed.

Lemma byTime_trans (a b c : Anchor) :
  byTime a b = true -> byTime b c = true -> byTime a c = true.
Proof.
  unfold byTime. rewrite !Qleb_le. intros. lra.
Qed.

Lemma byMeasure_total (a b : Anchor) : byMeasure a b = true \/ byMeasure b a = true.
Proof. unfold byMeasure. lia. Qed.

Lemma byMeasure_trans (a b c : Anchor) :
  byMeasure a b = true -> byMeasure b c = true -> byMeasure a c = true.
Proof. unfold byMeasure. lia. Qed.

Lemma sortedAnchors_timeSorted (anchors : list Anchor) :
  timeSorted (stableSort byTime anchors).
Proof. apply stableSort_sorted; [apply byTime_total | apply byTime_trans]. Qed.

(** ** The scan of [findCurrentMeasure] *)

(** A time-sorted list splits at the query time. *)
Lemma timeSorted_split (t : Q) (l : list Anchor) :
  timeSorted l ->
  exists pre post,
    l = pre ++ post /\ Forall (atOrBefore t) pre /\ Forall (after t) post.
Proof.
  induction 1 as [|a tl Hs IH Ha].
  - exists [], []. repeat split; constructor.
  - destruct (Qleb (time a) t) eqn:E.
    + destruct IH as (pre & post & -> & Hpre & Hpost).
      exists (a :: pre), post. repeat split; [|exact Hpost].
      constructor; [apply Qleb_le, E | exact Hpre].
    + exists [], (a :: tl). repeat split; [constructor|].
      apply Qleb_gt in E. constructor; [exact E|].
      rewrite Forall_forall in *. intros b Hb.
      specialize (Ha b Hb). unfold byTime in Ha. apply Qleb_le in Ha.
      unfold after. lra.
Qed.

(** The loop stops at the first anchor after the query time and leaves the
    last anchor before it in its three variables. *)
Lemma scanAnchors_split (t : Q) (pre : list Anchor) :
  forall (a : Anchor) (post : list Anchor) (st : ScanState),
    Forall (atOrBefore t) (pre ++ [a]) ->
    Forall (after t) post ->
    scanAnchors t ((pre ++ [a]) ++ post) st =
      mkScan (measure a) (time a) (headTime post).
Proof.
  induction pre as [|b pre IH]; intros a post st Hpre Hpost; simpl.
  - inversion Hpre as [|? ? Ha _]; subst.
    apply Qleb_le in Ha. rewrite Ha.
    destruct post as [|c post]; simpl; [reflexivity|].
    inversion Hpost as [|? ? Hc _]; subst.
    apply Qleb_gt in Hc. rewrite Hc. reflexivity.
  - inversion Hpre as [|? ? Hb Hrest]; subst.
    apply Qleb_le in Hb. rewrite Hb.
    apply IH; assumption.
Qed.

Lemma scanAnchors_after (t : Q) (post : list Anchor) (st : ScanState) :
  Forall (after t) post -> scanAnchors t post st = st.
Proof.
  destruct post as [|c post]; simpl; [reflexivity|].
  intros H. inversion H as [|? ? Hc _]; subst.
  apply Qleb_gt in Hc. rewrite Hc. reflexivity.
Qed.

Lemma lastIndexAtOrBefore_after (t : Q) (post : list Anchor) :
  forall i c, Forall (after t) post -> lastIndexAtOrBefore t post i c = c.
Proof.
  induction post as [|b post IH]; intros i c H; simpl; [reflexivity|].
  inversion H as [|? ? Hb Hrest]; subst.
  apply Qleb_gt in Hb. rewrite Hb. apply IH, Hrest.
Qed.

Lemma lastIndexAtOrBefore_split (t : Q) (pre : list Anchor) :
  forall (a : Anchor) (post : list Anchor) (i : nat) (c : option nat),
    Forall (atOrBefore t) (pre ++ [a]) ->
    Forall (after t) post ->
    lastIndexAtOrBefore t ((pre ++ [a]) ++ post) i c = Some (i + length pre)%nat.
Proof.
  induction pre as [|b pre IH]; intros a post i c Hpre Hpost; simpl.
  - inversion Hpre as [|? ? Ha _]; subst.
    apply Qleb_le in Ha. rewrite Ha.
    rewrite lastIndexAtOrBefore_after by exact Hpost.
    f_equal. lia.
  - inversion Hpre as [|? ? Hb Hrest]; subst.
    rewrite (IH a post (S i) _ Hrest Hpost). f_equal. lia.
Qed.

(** The reference index is what its name says: the greatest position of the
    list whose anchor is at or before the query time. *)
Lemma lastIndexAtOrBefore_greatest (t : Q) (l : list Anchor) (i : nat) :
  lastIndexAtOrBefore t l 0 None = Some i ->
  (exists a, nth_error l i = Some a /\ time a <= t) /\
  (forall j b, (i < j)%nat -> nth_error l j = Some b -> t < time b).
Proof.
  enough (G : forall l k c i,
             lastIndexAtOrBefore t l k c = Some i ->
             c = Some i /\ (forall j b, nth_error l j = Some b -> t < time b)
             \/ (k <= i)%nat /\
                (exists a, nth_error l (i - k) = Some a /\ time a <= t) /\
                (forall j b, (i - k < j)%nat -> nth_error l j = Some b ->
                             t < time b)).
  { intros H. destruct (G l 0%nat None i H) as [[F _]|(_ & Ha & Hj)].
    - discriminate.
    - rewrite Nat.sub_0_r in *. split; assumption. }
  clear l i. induction l as [|a tl IH]; intros k c i H; simpl in H.
  - left. split; [exact H|]. intros [|j] b Hb; discriminate.
  - destruct (IH _ _ _ H) as [[Hc Hall]|(Hk & (x & Hx & Hxt) & Hj)].
    + destruct (Qleb (time a) t) eqn:E.
      * right. injection Hc as <-. rewrite Nat.sub_diag.
        split; [lia|]. split.
        -- exists a. split; [reflexivity | apply Qleb_le, E].
        -- intros [|j] b Hlt Hb; [lia|]. apply (Hall j b Hb).
      * left. split; [exact Hc|].
        intros [|j] b Hb; simpl in Hb.
        -- injection Hb as <-. apply Qleb_gt, E.
        -- apply (Hall j b Hb).
    + right. split; [lia|].
      replace (i - k)%nat with (S (i - S k)) by lia. split.
      * exists x. split; assumption.
      * intros [|j] b Hlt Hb; [lia|]. simpl in Hb.
        apply (Hj j b); [lia | exact Hb].
Qed.

Lemma nth_error_snoc_app {A : Type} (pre : list A) (a : A) (post : list A) :
  nth_error ((pre ++ [a]) ++ post) (length pre) = Some a.
Proof.
  rewrite <- app_assoc. simpl.
  rewrite nth_error_app2 by lia. rewrite Nat.sub_diag. reflexivity.
Qed.

Lemma nth_error_snoc_app_next {A : Type} (pre : list A) (a : A) (post : list A) :
  nth_error ((pre ++ [a]) ++ post) (S (length pre)) = nth_error post 0.
Proof.
  rewrite nth_error_app2 by (rewrite length_app; simpl; lia).
  rewrite length_app. simpl.
  replace (S (length pre) - (length pre + 1))%nat with 0%nat by lia.
  reflexivity.
Qed.

Lemma timeSorted_last_le (pre : list Anchor) (a b : Anchor) (post : list Anchor) :
  timeSorted ((pre ++ [a]) ++ b :: post) -> time a <= time b.
Proof.
  induction pre as [|c pre IH]; simpl; intros H.
  - inversion H as [|? ? _ Hall]; subst.
    inversion Hall as [|? ? Hab _]; subst.
    unfold byTime in Hab. apply Qleb_le, Hab.
  - inversion H; subst. apply IH. assumption.
Qed.

Lemma list_snoc_cases {A : Type} (l : list A) :
  l = [] \/ exists pre a, l = pre ++ [a].
Proof.
  destruct l as [|x tl]; [now left | right].
  destruct (exists_last (l := x :: tl)) as (pre & a & E); [discriminate|].
  exists pre, a. exact E.
Qed.

(** The code against the reference, wherever the reference is defined. *)
Lemma findCurrentMeasure_locate_agree (anchors : list Anchor) (t : Q) (r : Located) :
  locate_spec anchors t = Some r -> Located_eq (findCurrentMeasure anchors t) r.
Proof.
  destruct anchors as [|a0 tl].
  { simpl. intros [= <-]. split; reflexivity. }
  unfold locate_spec, findCurrentMeasure.
  pose proof (sortedAnchors_timeSorted (a0 :: tl)) as Hs.
  remember (stableSort byTime (a0 :: tl)) as sorted eqn:Esorted. clear Esorted.
  destruct (timeSorted_split t sorted Hs) as (pre & post & -> & Hpre & Hpost).
  destruct (list_snoc_cases pre) as [-> | (pre' & a & ->)].
  { simpl. rewrite lastIndexAtOrBefore_after by exact Hpost. discriminate. }
  rewrite (lastIndexAtOrBefore_split t pre' a post 0 None Hpre Hpost).
  rewrite (scanAnchors_split t pre' a post _ Hpre Hpost).
  simpl (0 + length pre')%nat.
  rewrite nth_error_snoc_app, nth_error_snoc_app_next.
  assert (Ha : time a <= t).
  { rewrite Forall_app in Hpre. destruct Hpre as [_ Hpre].
    inversion Hpre; subst. assumption. }
  destruct post as [|b post]; simpl.
  { intros [= <-]. split; reflexivity. }
  assert (Hb : t < time b) by (inversion Hpost; subst; assumption).
  assert (Hlt : time a < time b) by lra.
  assert (E1 : Qltb (time a) (time b) = true) by (apply Qltb_lt, Hlt).
  assert (E2 : Qeq_bool (time b) (time a) = false).
  { destruct (Qeq_bool (time b) (time a)) eqn:E; [|reflexivity].
    apply Qeq_bool_iff in E. lra. }
  rewrite E1, E2. intros [= <-]. split; simpl; [reflexivity|].
  apply Math_clamp.
Qed.

Lemma locate_spec_defined (anchors : list Anchor) (t : Q) :
  (anchors = [] \/ exists a, In a anchors /\ time a <= t) ->
  exists r, locate_spec anchors t = Some r.
Proof.
  intros H. destruct anchors as [|a0 tl].
  { simpl. eexists. reflexivity. }
  destruct H as [H | (x & Hx & Hxt)]; [discriminate|].
  unfold locate_spec.
  pose proof (sortedAnchors_timeSorted (a0 :: tl)) as Hs.
  apply (stableSort_In byTime) in Hx.
  remember (stableSort byTime (a0 :: tl)) as sorted eqn:Esorted. clear Esorted.
  destruct (timeSorted_split t sorted Hs) as (pre & post & -> & Hpre & Hpost).
  destruct (list_snoc_cases pre) as [-> | (pre' & a & ->)].
  { simpl in Hx. rewrite Forall_forall in Hpost. specialize (Hpost x Hx).
    unfold after in Hpost. lra. }
  rewrite (lastIndexAtOrBefore_split t pre' a post 0 None Hpre Hpost).
  simpl (0 + length pre')%nat. rewrite nth_error_snoc_app.
  eexists. reflexivity.
Qed.

(** Before the first anchor the loop breaks at once and the initial values
    of the three variables are what is returned. *)
Lemma findCurrentMeasure_before_all (anchors : list Anchor) (t : Q) :
  Forall (after t) anchors ->
  findCurrentMeasure anchors t = mkLocated 1 0.
Proof.
  intros H. destruct anchors as [|a0 tl]; [reflexivity|].
  unfold findCurrentMeasure.
  rewrite scanAnchors_after; [reflexivity|].
  rewrite Forall_forall in *. intros x Hx. apply H.
  apply (stableSort_In byTime). exact Hx.
Qed.

(** ** Claims about [findCurrentMeasure] *)

(** C1.  [findCurrentMeasure] computes the reference [locate] of the
    specification: wherever the reference is defined the two results agree,
    the reference is defined for the empty anchor list and whenever some
    anchor is at or before the query time, the empty list gives (1, 0), and
    on the anchors (1,0), (2,10), (4,25) the times 5, 10, 17.5 and 30 give
    (1, 0.5), (2, 0), (2, 0.5) and (4, 0). *)
Theorem findCurrentMeasure_refines_locate :
  (forall anchors t r,
      locate_spec anchors t = Some r ->
      Located_eq (findCurrentMeasure anchors t) r) /\
  (forall anchors t,
      (anchors = [] \/ exists a, In a anchors /\ time a <= t) ->
      exists r, locate_spec anchors t = Some r) /\
  (forall t, findCurrentMeasure [] t = mkLocated 1 0) /\
  (let anchors := [mkAnchor 1 0; mkAnchor 2 10; mkAnchor 4 25] in
   Located_eq (findCurrentMeasure anchors 5) (mkLocated 1 (1#2)) /\
   Located_eq (findCurrentMeasure anchors 10) (mkLocated 2 0) /\
   Located_eq (findCurrentMeasure anchors (35#2)) (mkLocated 2 (1#2)) /\
   Located_eq (findCurrentMeasure anchors 30) (mkLocated 4 0)).
Proof.
  split; [exact findCurrentMeasure_locate_agree|].
  split; [exact locate_spec_defined|].
  split; [reflexivity|].
  cbv zeta. repeat split; reflexivity.
Qed.

Lemma findCurrentMeasure_refines_locate_witness :
  exists r,
    locate_spec [mkAnchor 1 0; mkAnchor 2 10; mkAnchor 4 25] (35#2) = Some r /\
    Located_eq
      (findCurrentMeasure [mkAnchor 1 0; mkAnchor 2 10; mkAnchor 4 25] (35#2)) r.
Proof.
  eexists. split.
  - reflexivity.
  - apply (proj1 findCurrentMeasure_refines_locate). reflexivity.
Defined.

(** C9.  For a query time before every anchor the result is measure 1 with
    progress 0, whether or not measure 1 is anchored: the anchors [(3, 5)]
    at time 2 give measure 1. *)
Theorem findCurrentMeasure_before_first_anchor :
  forall (anchors : list Anchor) (t : Q),
    anchors <> [] ->
    (forall a, In a anchors -> t < time a) ->
    findCurrentMeasure anchors t = mkLocated 1 0.
Proof.
  intros anchors t _ H. apply findCurrentMeasure_before_all.
  apply Forall_forall. exact H.
Qed.

Lemma findCurrentMeasure_before_first_anchor_witness :
  findCurrentMeasure [mkAnchor 3 5] 2 = mkLocated 1 0.
Proof.
  apply findCurrentMeasure_before_first_anchor.
  - discriminate.
  - intros a [<- | []]. reflexivity.
Defined.

(** ** Ties in time *)

Lemma timeSorted_snoc_le (pre : list Anchor) (w : Anchor) :
  timeSorted (pre ++ [w]) -> forall x, In x (pre ++ [w]) -> time x <= time w.
Proof.
  induction pre as [|c pre IH]; simpl; intros H x Hx.
  - destruct Hx as [<- | []]. lra.
  - inversion H as [|? ? Hs Hall]; subst.
    destruct Hx as [<- | Hx].
    + rewrite Forall_forall in Hall.
      assert (Hw : In w (pre ++ [w])) by (apply in_or_app; right; now left).
      specialize (Hall w Hw). unfold byTime in Hall. apply Qleb_le, Hall.
    + apply IH; assumption.
Qed.

Lemma timeSorted_app_l (l1 l2 : list Anchor) :
  timeSorted (l1 ++ l2) -> timeSorted l1.
Proof.
  induction l1 as [|a l1 IH]; simpl; intros H; [constructor|].
  inversion H as [|? ? Hs Hall]; subst. constructor.
  - apply IH, Hs.
  - rewrite Forall_app in Hall. apply Hall.
Qed.

Lemma atTime_class (T : Q) (a b : Anchor) :
  atTime T a = true -> atTime T b = true -> byTime a b = true.
Proof.
  unfold atTime, byTime. rewrite !Qeq_bool_iff, Qleb_le.
  intros Ha Hb. rewrite Ha, Hb. lra.
Qed.

Lemma filter_none {A : Type} (p : A -> bool) (l : list A) :
  (forall x, In x l -> p x = false) -> filter p l = [].
Proof.
  induction l as [|a tl IH]; simpl; intros H; [reflexivity|].
  rewrite (H a) by now left. apply IH. intros x Hx. apply H. now right.
Qed.

(** The measure returned when [T] is the latest anchor time at or before the
    query: the last anchor in the input among those carrying [T]. *)
Lemma findCurrentMeasure_tie (anchors : list Anchor) (t T : Q) :
  (exists a, In a anchors /\ time a == T) ->
  T <= t ->
  (forall b, In b anchors -> time b <= t -> time b <= T) ->
  exists pre w,
    filter (atTime T) anchors = pre ++ [w] /\
    loc_measure (findCurrentMeasure anchors t) = measure w.
Proof.
  intros (a & Ha & HaT) HT Hmax.
  destruct anchors as [|a0 tl]; [destruct Ha|].
  rewrite <- (stableSort_stable byTime (atTime T) (atTime_class T)).
  unfold findCurrentMeasure.
  pose proof (sortedAnchors_timeSorted (a0 :: tl)) as Hs.
  assert (Hin : forall x, In x (stableSort byTime (a0 :: tl)) <-> In x (a0 :: tl))
    by (intros x; apply stableSort_In).
  remember (stableSort byTime (a0 :: tl)) as sorted eqn:Esorted. clear Esorted.
  destruct (timeSorted_split t sorted Hs) as (pre & post & -> & Hpre & Hpost).
  apply Hin in Ha.
  destruct (list_snoc_cases pre) as [-> | (pre' & w & ->)].
  { simpl in Ha. rewrite Forall_forall in Hpost. specialize (Hpost a Ha).
    unfold after in Hpost. lra. }
  rewrite (scanAnchors_split t pre' w post _ Hpre Hpost). simpl.
  exists (filter (atTime T) pre'), w. split; [|reflexivity].
  assert (Hw : time w == T).
  { assert (Hwt : time w <= t).
    { rewrite Forall_forall in Hpre. apply Hpre, in_or_app. right. now left. }
    assert (HwT : time w <= T).
    { apply Hmax; [|exact Hwt]. apply Hin, in_or_app. left.
      apply in_or_app. right. now left. }
    assert (HaW : time a <= time w).
    { apply in_app_or in Ha. destruct Ha as [Ha | Ha].
      - apply (timeSorted_snoc_le pre' w); [|exact Ha].
        apply (timeSorted_app_l _ post), Hs.
      - rewrite Forall_forall in Hpost. specialize (Hpost a Ha).
        unfold after in Hpost. lra. }
    lra. }
  rewrite !filter_app. simpl.
  replace (atTime T w) with true
    by (symmetry; unfold atTime; apply Qeq_bool_iff, Hw).
  rewrite (filter_none (atTime T) post).
  - rewrite app_nil_r. reflexivity.
  - intros x Hx. rewrite Forall_forall in Hpost. specialize (Hpost x Hx).
    unfold after in Hpost. unfold atTime.
    destruct (Qeq_bool (time x) T) eqn:E; [|reflexivity].
    apply Qeq_bool_iff in E. lra.
Qed.

(** C2, as the code has it.  When several anchors share the latest anchor
    time at or before the query, the one that comes last in the anchor list
    as given is the active one: the sort compares times only and keeps the
    input order of equal times, and the scan lets a later entry overwrite an
    earlier one.  Its measure is the larger one whenever the anchor list is
    given in ascending measure order. *)
Theorem tie_resolved_by_input_order :
  forall (anchors : list Anchor) (t T : Q),
    (exists a, In a anchors /\ time a == T) ->
    T <= t ->
    (forall b, In b anchors -> time b <= t -> time b <= T) ->
    (exists pre w,
        filter (atTime T) anchors = pre ++ [w] /\
        loc_measure (findCurrentMeasure anchors t) = measure w) /\
    (StronglySorted measureLe anchors ->
     forall a, In a anchors -> time a == T ->
               (measure a <= loc_measure (findCurrentMeasure anchors t))%Z).
Proof.
  intros anchors t T Hex HT Hmax.
  destruct (findCurrentMeasure_tie anchors t T Hex HT Hmax) as (pre & w & Hf & Hm).
  split; [exists pre, w; split; assumption|].
  intros Hsorted a Ha HaT. rewrite Hm.
  assert (Hfa : In a (filter (atTime T) anchors)).
  { apply filter_In. split; [exact Ha|]. unfold atTime. apply Qeq_bool_iff, HaT. }
  assert (Hfs : StronglySorted measureLe (filter (atTime T) anchors)).
  { clear -Hsorted. induction Hsorted as [|x l Hs IH Hall]; simpl; [constructor|].
    destruct (atTime T x); [|exact IH]. constructor; [exact IH|].
    rewrite Forall_forall in *. intros y Hy. apply Hall.
    apply filter_In in Hy. apply Hy. }
  rewrite Hf in Hfa, Hfs. clear -Hfa Hfs.
  induction pre as [|c pre IH]; simpl in *.
  - destruct Hfa as [<- | []]. lia.
  - inversion Hfs as [|? ? Hs Hall]; subst.
    destruct Hfa as [<- | Hfa].
    + rewrite Forall_forall in Hall. apply Hall, in_or_app. right. now left.
    + apply IH; assumption.
Qed.

Lemma tie_resolved_by_input_order_witness :
  (exists pre w,
      filter (atTime 10) [mkAnchor 1 0; mkAnchor 5 10; mkAnchor 2 10] = pre ++ [w] /\
      loc_measure
        (findCurrentMeasure [mkAnchor 1 0; mkAnchor 5 10; mkAnchor 2 10] 12) =
      measure w).
Proof.
  apply (tie_resolved_by_input_order
           [mkAnchor 1 0; mkAnchor 5 10; mkAnchor 2 10] 12 10).
  - exists (mkAnchor 5 10). split; [right; now left | reflexivity].
  - discriminate.
  - intros b [<- | [<- | [<- | []]]] _; discriminate.
Defined.

(** C2 as stated fails: the anchors (1,0), (5,10), (2,10) have two entries at
    time 10, both at or before the query time 10, and the measure returned is
    2, the entry that comes later in the list, not the larger measure 5. *)
Lemma tie_larger_measure_counterexample :
  let anchors := [mkAnchor 1 0; mkAnchor 5 10; mkAnchor 2 10] in
  In (mkAnchor 5 10) anchors /\ In (mkAnchor 2 10) anchors /\
  time (mkAnchor 5 10) == time (mkAnchor 2 10) /\
  time (mkAnchor 5 10) <= 10 /\
  loc_measure (findCurrentMeasure anchors 10) = 2%Z /\
  loc_measure (findCurrentMeasure anchors 10) <> Z.max 5 2.
Proof.
  cbv zeta. repeat split.
  - right. now left.
  - right. right. now left.
  - discriminate.
  - discriminate.
Qed.

(** ** Monotonicity of the measure in the query time *)

(** The scan never returns a measure below the one it starts with when all
    anchors ahead carry larger measures. *)
Lemma scanAnchors_measure_ge (t : Q) (l : list Anchor) :
  forall st,
    StronglySorted measureLe l ->
    Forall (fun a => (currentMeasure st <= measure a)%Z) l ->
    (currentMeasure st <= currentMeasure (scanAnchors t l st))%Z.
Proof.
  induction l as [|a tl IH]; intros st Hs Hall; simpl; [lia|].
  destruct (Qleb (time a) t); [|lia].
  inversion Hs as [|? ? Hs' Ha]; subst.
  inversion Hall as [|? ? Hm _]; subst.
  etransitivity; [exact Hm|].
  apply (IH (mkScan (measure a) (time a) (headTime tl))); assumption.
Qed.

Lemma scanAnchors_measure_mono (t1 t2 : Q) (l : list Anchor) :
  t1 <= t2 ->
  forall st,
    StronglySorted measureLe l ->
    Forall (fun a => (currentMeasure st <= measure a)%Z) l ->
    (currentMeasure (scanAnchors t1 l st) <= currentMeasure (scanAnchors t2 l st))%Z.
Proof.
  intros Ht. induction l as [|a tl IH]; intros st Hs Hall; simpl; [lia|].
  inversion Hs as [|? ? Hs' Ha]; subst.
  inversion Hall as [|? ? Hm _]; subst.
  destruct (Qleb (time a) t1) eqn:E1.
  - assert (E2 : Qleb (time a) t2 = true).
    { apply Qleb_le. apply Qleb_le in E1. lra. }
    rewrite E2. apply IH; assumption.
  - destruct (Qleb (time a) t2); [|lia].
    etransitivity; [exact Hm|].
    apply (scanAnchors_measure_ge t2 tl
             (mkScan (measure a) (time a) (headTime tl))); assumption.
Qed.

(** C3, as the code has it.  For anchors whose measures are at least 1 and
    ascend along the time-sorted list, the measure returned does not decrease
    when the query time grows. *)
Theorem measure_monotone_ordered_anchors :
  forall (anchors : list Anchor) (t1 t2 : Q),
    measureOrdered anchors ->
    t1 <= t2 ->
    (loc_measure (findCurrentMeasure anchors t1) <=
     loc_measure (findCurrentMeasure anchors t2))%Z.
Proof.
  intros anchors t1 t2 [Hpos Hs] Ht.
  destruct anchors as [|a0 tl]; [simpl; lia|].
  unfold findCurrentMeasure. cbv zeta. simpl loc_measure.
  apply scanAnchors_measure_mono; [exact Ht | exact Hs |].
  rewrite Forall_forall in *. intros x Hx. simpl.
  apply Hpos. apply (stableSort_In byTime). exact Hx.
Qed.

Lemma measure_monotone_ordered_anchors_witness :
  (loc_measure (findCurrentMeasure [mkAnchor 1 0; mkAnchor 2 10; mkAnchor 4 25] 5) <=
   loc_measure (findCurrentMeasure [mkAnchor 1 0; mkAnchor 2 10; mkAnchor 4 25] 30))%Z.
Proof.
  apply measure_monotone_ordered_anchors.
  - split.
    + repeat constructor; simpl; lia.
    + vm_compute stableSort. unfold measureLe.
      repeat (constructor; simpl; try lia).
  - discriminate.
Defined.

(** C3 as stated fails: nothing ties measure numbers to times.  With the
    anchors (1,0), (3,5), (2,10) the time 5 gives measure 3 and the later
    time 10 gives measure 2. *)
Lemma measure_monotone_counterexample :
  let anchors := [mkAnchor 1 0; mkAnchor 3 5; mkAnchor 2 10] in
  5 <= 10 /\
  ~ (loc_measure (findCurrentMeasure anchors 5) <=
     loc_measure (findCurrentMeasure anchors 10))%Z.
Proof.
  cbv zeta. split; [discriminate|].
  vm_compute. intros H. apply H. reflexivity.
Qed.

(** ** Click to seek *)

Lemma clickedMeasureFrom_hit (u cx cy : Q) (rest : list MeasureStaves) :
  forall (i k : Z),
    clickedMeasureFrom u cx cy i rest = Normal k ->
    k <> (-1)%Z ->
    exists n : nat,
      k = (i + Z.of_nat n)%Z /\
      (exists ms, nth_error rest n = Some ms /\ hitsMeasure u cx cy ms) /\
      (forall j ms, (j < n)%nat -> nth_error rest j = Some ms ->
                    missesMeasure u cx cy ms).
Proof.
  induction rest as [|ms tl IH]; intros i k H Hk; simpl in H.
  - injection H as <-. contradiction.
  - destruct ms as [staves|].
    + destruct (clickExtent staves initialExtent) as [e|msg] eqn:Ee; simpl in H;
        [|discriminate].
      destruct (boxContains (pixelBox u e) cx cy) eqn:Eb.
      * injection H as <-. exists 0%nat. split; [lia|]. split.
        -- exists (Some staves). split; [reflexivity|].
           exists staves, e. repeat split; assumption.
        -- intros j ms Hj. lia.
      * destruct (IH _ _ H Hk) as (n & -> & Hhit & Hmiss).
        exists (S n). split; [lia|]. split; [exact Hhit|].
        intros [|j] ms Hj Hnth; simpl in Hnth.
        -- injection Hnth as <-. exists e. split; assumption.
        -- apply (Hmiss j); [lia | exact Hnth].
    + destruct (IH _ _ H Hk) as (n & -> & Hhit & Hmiss).
      exists (S n). split; [lia|]. split; [exact Hhit|].
      intros [|j] ms Hj Hnth; simpl in Hnth.
      * injection Hnth as <-. exact I.
      * apply (Hmiss j); [lia | exact Hnth].
Qed.

Lemma clickedMeasureFrom_first (u cx cy : Q) (rest : list MeasureStaves) :
  forall (i : Z) (n : nat),
    (exists ms, nth_error rest n = Some ms /\ hitsMeasure u cx cy ms) ->
    (forall j ms, (j < n)%nat -> nth_error rest j = Some ms ->
                  missesMeasure u cx cy ms) ->
    clickedMeasureFrom u cx cy i rest = Normal (i + Z.of_nat n)%Z.
Proof.
  induction rest as [|ms tl IH]; intros i n (ms0 & Hnth & Hhit) Hmiss.
  - destruct n; discriminate.
  - destruct n as [|n]; simpl in Hnth.
    + injection Hnth as ->. destruct Hhit as (staves & e & -> & He & Hb).
      simpl. rewrite He. simpl. rewrite Hb. f_equal. lia.
    + assert (Hrec : clickedMeasureFrom u cx cy (i + 1) tl =
                     Normal (i + 1 + Z.of_nat n)%Z).
      { apply IH; [exists ms0; split; assumption|].
        intros j ms' Hj Hn. apply (Hmiss (S j)); [lia | exact Hn]. }
      replace (i + Z.of_nat (S n))%Z with (i + 1 + Z.of_nat n)%Z by lia.
      pose proof (Hmiss 0%nat ms (Nat.lt_0_succ n) eq_refl) as H0.
      destruct ms as [staves|]; simpl.
      * destruct H0 as (e & He & Hb). rewrite He. simpl. rewrite Hb. exact Hrec.
      * exact Hrec.
Qed.

(** Without a hit the loop runs to its end with -1, unless reading the
    layout throws on the way. *)
Lemma clickedMeasureFrom_no_hit (u cx cy : Q) (rest : list MeasureStaves) :
  forall i : Z,
    (forall j ms, nth_error rest j = Some ms -> ~ hitsMeasure u cx cy ms) ->
    clickedMeasureFrom u cx cy i rest = Normal (-1)%Z \/
    exists msg, clickedMeasureFrom u cx cy i rest = Throw msg.
Proof.
  induction rest as [|ms tl IH]; intros i H; simpl.
  - now left.
  - assert (Htl : forall j ms', nth_error tl j = Some ms' -> ~ hitsMeasure u cx cy ms').
    { intros j ms' Hn. apply (H (S j)). exact Hn. }
    destruct ms as [staves|]; [|apply IH, Htl].
    destruct (clickExtent staves initialExtent) as [e|msg] eqn:Ee; simpl.
    + destruct (boxContains (pixelBox u e) cx cy) eqn:Eb; [|apply IH, Htl].
      exfalso. apply (H 0%nat (Some staves) eq_refl).
      exists staves, e. repeat split; assumption.
    + right. exists msg. reflexivity.
Qed.

(** The reversed ascending list is descending. *)
Lemma StronglySorted_snoc {A : Type} (R : A -> A -> Prop) (l : list A) (a : A) :
  StronglySorted R l -> Forall (fun x => R x a) l -> StronglySorted R (l ++ [a]).
Proof.
  induction 1 as [|b tl Hs IH Hb]; intros Ha; simpl.
  - repeat constructor.
  - inversion Ha as [|? ? Hba Htl]; subst. constructor.
    + apply IH, Htl.
    + apply Forall_app. split; [exact Hb | repeat constructor; exact Hba].
Qed.

Lemma StronglySorted_rev {A : Type} (R : A -> A -> Prop) (l : list A) :
  StronglySorted R l -> StronglySorted (fun x y => R y x) (rev l).
Proof.
  induction 1 as [|a tl Hs IH Ha]; simpl; [constructor|].
  apply StronglySorted_snoc; [exact IH|].
  apply Forall_forall. intros x Hx. apply in_rev in Hx.
  rewrite Forall_forall in Ha. apply Ha, Hx.
Qed.

(** In a list of descending measures the first anchor at or below [n] has
    the largest measure among all anchors at or below [n]. *)
Lemma find_descending (n : Z) (l : list Anchor) (a : Anchor) :
  StronglySorted (fun x y => measureLe y x) l ->
  find (fun a => (measure a <=? n)%Z) l = Some a ->
  forall b, In b l -> (measure b <= n)%Z -> (measure b <= measure a)%Z.
Proof.
  induction 1 as [|c tl Hs IH Hc]; simpl; intros Hf b Hb Hbn; [destruct Hb|].
  destruct (measure c <=? n)%Z eqn:E.
  - injection Hf as <-. destruct Hb as [<- | Hb]; [lia|].
    rewrite Forall_forall in Hc. apply (Hc b Hb).
  - destruct Hb as [<- | Hb]; [lia|]. apply IH; assumption.
Qed.

Lemma targetAnchorOf_nearest (anchors : list Anchor) (n : Z) (a : Anchor) :
  targetAnchorOf anchors n = Some a -> nearestAnchorAtOrBelow anchors n a.
Proof.
  unfold targetAnchorOf. intros H.
  pose proof (find_some _ _ H) as [Hin Hle].
  assert (Hsub : forall b, In b (rev (stableSort byMeasure anchors)) <-> In b anchors).
  { intros b. rewrite <- in_rev. apply stableSort_In. }
  split; [apply Hsub, Hin|]. split; [lia|].
  intros b Hb Hbn.
  apply (find_descending n (rev (stableSort byMeasure anchors)) a);
    [ | exact H | apply Hsub, Hb | exact Hbn].
  apply StronglySorted_rev.
  pose proof (stableSort_sorted byMeasure byMeasure_total byMeasure_trans anchors) as Hs.
  clear -Hs. induction Hs as [|x l Hs IH Hx]; constructor; [exact IH|].
  rewrite Forall_forall in *. intros y Hy. specialize (Hx y Hy).
  unfold measureLe, byMeasure in *. lia.
Qed.

Lemma targetAnchorOf_exists (anchors : list Anchor) (n : Z) :
  (exists b, In b anchors /\ (measure b <= n)%Z) ->
  exists a, targetAnchorOf anchors n = Some a.
Proof.
  intros (b & Hb & Hbn). unfold targetAnchorOf.
  destruct (find _ _) as [a|] eqn:E; [exists a; reflexivity|].
  exfalso.
  assert (Hin : In b (rev (stableSort byMeasure anchors))).
  { rewrite <- in_rev. apply stableSort_In, Hb. }
  pose proof (find_none _ _ E b Hin) as Hf. simpl in Hf. lia.
Qed.

Lemma targetAnchorOf_none (anchors : list Anchor) (n : Z) :
  (forall a, In a anchors -> (n < measure a)%Z) ->
  targetAnchorOf anchors n = None.
Proof.
  intros H. destruct (targetAnchorOf anchors n) as [a|] eqn:E; [|reflexivity].
  destruct (targetAnchorOf_nearest _ _ _ E) as (Hin & Hle & _).
  specialize (H a Hin). lia.
Qed.

(** The handler once its three guards have passed. *)
Lemma handleScoreClick_run (props : Props) (event : MouseEvent) (w : World)
    (osmd : OSMD) (sheet : GraphicalMusicSheet) (rect : DOMRect) :
  osmdRef props = Some osmd ->
  GraphicSheet osmd = Some sheet ->
  container w = Some rect ->
  handleScoreClick props event w =
    match clickedMeasureFrom (unitInPixelsOf sheet)
            (clientX event - rect_left rect) (clientY event - rect_top rect)
            0 (MeasureList sheet) with
    | Throw msg => (Throw msg, w)
    | Normal k =>
        if (k =? -1)%Z then (Normal tt, w)
        else match targetAnchorOf (anchors props) (k + 1) with
             | None => (Normal tt, w)
             | Some a =>
                 (Normal tt,
                  match currentTime w with
                  | Some _ => set_currentTime (Some (time a)) w
                  | None => w
                  end)
             end
    end.
Proof.
  intros Ho Hs Hc. unfold handleScoreClick. rewrite Ho, Hs, Hc.
  unfold bind, liftC.
  destruct (clickedMeasureFrom _ _ _ _ _) as [k|msg]; [|reflexivity].
  destruct (k =? -1)%Z; [reflexivity|].
  destruct (targetAnchorOf _ _); reflexivity.
Qed.

(** The loop reports index [k] exactly when [k] is the first hit. *)
Lemma clickedMeasureFrom_firstHit (u cx cy : Q) (measureList : list MeasureStaves) (k : Z) :
  firstHit u cx cy measureList k ->
  clickedMeasureFrom u cx cy 0 measureList = Normal k /\ (k =? -1)%Z = false.
Proof.
  intros (n & -> & Hhit & Hmiss). split.
  - apply (clickedMeasureFrom_first u cx cy measureList 0 n Hhit Hmiss).
  - apply Z.eqb_neq. lia.
Qed.

Lemma handleScoreClick_seek (props : Props) (event : MouseEvent) (w : World)
    (osmd : OSMD) (sheet : GraphicalMusicSheet) (rect : DOMRect) (k : Z) (t0 : Q) :
  osmdRef props = Some osmd ->
  GraphicSheet osmd = Some sheet ->
  container w = Some rect ->
  firstHit (unitInPixelsOf sheet)
           (clientX event - rect_left rect) (clientY event - rect_top rect)
           (MeasureList sheet) k ->
  currentTime w = Some t0 ->
  (exists b, In b (anchors props) /\ (measure b <= k + 1)%Z) ->
  exists a,
    targetAnchorOf (anchors props) (k + 1) = Some a /\
    nearestAnchorAtOrBelow (anchors props) (k + 1) a /\
    handleScoreClick props event w =
      (Normal tt, set_currentTime (Some (time a)) w).
Proof.
  intros Ho Hs Hc Hk Ht Hex.
  destruct (targetAnchorOf_exists _ _ Hex) as (a & Ha).
  exists a. split; [exact Ha|]. split; [apply targetAnchorOf_nearest, Ha|].
  rewrite (handleScoreClick_run props event w osmd sheet rect Ho Hs Hc).
  destruct (clickedMeasureFrom_firstHit _ _ _ _ _ Hk) as [-> ->].
  rewrite Ha, Ht. reflexivity.
Qed.

(** C4.  The clicked measure is the first measure, in measure order, whose
    pixel box contains the click point, and conversely the first such
    measure is the one the loop reports.  On a hit with an anchor at or below
    the clicked measure, the audio clock becomes exactly the time of the
    first anchor at or below the clicked measure in the descending order of
    measures, which is an anchor of the largest such measure; nothing else
    changes and nothing is interpolated.  With the anchors (1,0), (3,8) a
    hit on the third measure sets the clock to 8. *)
Theorem click_seeks_to_nearest_anchor :
  (forall u cx cy measureList k,
      clickedMeasureFrom u cx cy 0 measureList = Normal k ->
      k <> (-1)%Z ->
      firstHit u cx cy measureList k) /\
  (forall u cx cy measureList k,
      firstHit u cx cy measureList k ->
      clickedMeasureFrom u cx cy 0 measureList = Normal k) /\
  (forall props event w osmd sheet rect k t0,
      osmdRef props = Some osmd ->
      GraphicSheet osmd = Some sheet ->
      container w = Some rect ->
      firstHit (unitInPixelsOf sheet)
               (clientX event - rect_left rect) (clientY event - rect_top rect)
               (MeasureList sheet) k ->
      currentTime w = Some t0 ->
      (exists b, In b (anchors props) /\ (measure b <= k + 1)%Z) ->
      exists a,
        targetAnchorOf (anchors props) (k + 1) = Some a /\
        nearestAnchorAtOrBelow (anchors props) (k + 1) a /\
        handleScoreClick props event w =
          (Normal tt, set_currentTime (Some (time a)) w)) /\
  (forall props event w osmd sheet rect t0,
      osmdRef props = Some osmd ->
      GraphicSheet osmd = Some sheet ->
      container w = Some rect ->
      firstHit (unitInPixelsOf sheet)
               (clientX event - rect_left rect) (clientY event - rect_top rect)
               (MeasureList sheet) 2 ->
      currentTime w = Some t0 ->
      anchors props = [mkAnchor 1 0; mkAnchor 3 8] ->
      currentTime (snd (handleScoreClick props event w)) = Some 8).
Proof.
  split; [|split; [|split; [exact handleScoreClick_seek|]]].
  - intros u cx cy ml k H Hk.
    destruct (clickedMeasureFrom_hit u cx cy ml 0 k H Hk) as (n & -> & Hhit & Hmiss).
    exists n. split; [lia|]. split; assumption.
  - intros u cx cy ml k Hk. apply clickedMeasureFrom_firstHit, Hk.
  - intros props event w osmd sheet rect t0 Ho Hs Hc Hk Ht Ha.
    destruct (handleScoreClick_seek props event w osmd sheet rect 2%Z t0
                Ho Hs Hc Hk Ht) as (a & Hta & _ & ->).
    + rewrite Ha. exists (mkAnchor 3 8). split; [right; now left | simpl; lia].
    + rewrite Ha in Hta. vm_compute in Hta. injection Hta as <-. reflexivity.
Qed.

(** C10.  When the click point is inside no measure's box, or the clicked
    measure lies below the measure of every anchor, the handler leaves the
    world, and with it the audio clock, as it was. *)
Theorem click_without_target_keeps_clock :
  forall (props : Props) (event : MouseEvent) (w : World),
    (forall osmd sheet rect,
        osmdRef props = Some osmd ->
        GraphicSheet osmd = Some sheet ->
        container w = Some rect ->
        let u := unitInPixelsOf sheet in
        let cx := clientX event - rect_left rect in
        let cy := clientY event - rect_top rect in
        (forall j ms, nth_error (MeasureList sheet) j = Some ms ->
                      ~ hitsMeasure u cx cy ms) \/
        (exists k, firstHit u cx cy (MeasureList sheet) k /\
                   forall a, In a (anchors props) -> (k + 1 < measure a)%Z)) ->
    snd (handleScoreClick props event w) = w /\
    currentTime (snd (handleScoreClick props event w)) = currentTime w.
Proof.
  intros props event w H.
  enough (E : snd (handleScoreClick props event w) = w) by (rewrite E; auto).
  destruct (osmdRef props) as [osmd|] eqn:Ho;
    [|unfold handleScoreClick; rewrite Ho; reflexivity].
  destruct (GraphicSheet osmd) as [sheet|] eqn:Hs;
    [|unfold handleScoreClick; rewrite Ho, Hs; reflexivity].
  destruct (container w) as [rect|] eqn:Hc;
    [|unfold handleScoreClick; rewrite Ho, Hs, Hc; reflexivity].
  rewrite (handleScoreClick_run props event w osmd sheet rect Ho Hs Hc).
  destruct (H osmd sheet rect eq_refl Hs eq_refl) as [Hno | (k & Hk & Hbelow)].
  - destruct (clickedMeasureFrom_no_hit _ _ _ _ 0 Hno) as [-> | (msg & ->)];
      reflexivity.
  - destruct (clickedMeasureFrom_firstHit _ _ _ _ _ Hk) as [-> ->].
    rewrite (targetAnchorOf_none _ _ Hbelow). reflexivity.
Qed.

(** A click at pixel (250, 70) of the sample score is in the third box. *)
Lemma sample_click_firstHit :
  firstHit (unitInPixelsOf sampleSheet) (250 - 0) (70 - 0)
           (MeasureList sampleSheet) 2.
Proof.
  exists 2%nat. split; [reflexivity|]. split.
  - eexists. split; [reflexivity|].
    eexists. eexists. split; [reflexivity|]. split; reflexivity.
  - intros [|[|j]] ms Hj Hn; try lia; injection Hn as <-;
      eexists; split; reflexivity.
Qed.

Lemma click_seeks_to_nearest_anchor_witness :
  currentTime
    (snd (handleScoreClick
            (sampleProps [mkAnchor 1 0; mkAnchor 3 8] PLAYBACK [])
            (mkMouseEvent 250 70) sampleWorld)) = Some 8.
Proof.
  apply (proj2 (proj2 (proj2 click_seeks_to_nearest_anchor))
           (sampleProps [mkAnchor 1 0; mkAnchor 3 8] PLAYBACK [])
           (mkMouseEvent 250 70) sampleWorld
           (mkOSMD (Some sampleSheet)) sampleSheet (mkRect 0 0 300 300) 0).
  - reflexivity.
  - reflexivity.
  - reflexivity.
  - exact sample_click_firstHit.
  - reflexivity.
  - reflexivity.
Defined.

(** A click at pixel (500, 70) is right of every box of the sample score. *)
Lemma click_without_target_keeps_clock_witness :
  currentTime
    (snd (handleScoreClick
            (sampleProps [mkAnchor 1 0; mkAnchor 3 8] PLAYBACK [])
            (mkMouseEvent 500 70) sampleWorld)) = currentTime sampleWorld.
Proof.
  apply click_without_target_keeps_clock.
  intros osmd sheet rect [= <-] [= <-] [= <-]. left.
  intros [|[|[|j]]] ms Hn; simpl in Hn; try (destruct j; discriminate);
    injection Hn as <-;
    intros (staves & e & [= <-] & He & Hb);
    vm_compute in He; injection He as <-; vm_compute in Hb; discriminate.
Defined.

(** ** The box of the hit test is a bounding box *)

Lemma extendExtent_covers (acc : Extent) (pos : BoundingBox) :
  extentCovers (extendExtent acc pos) acc /\ encloses (extendExtent acc pos) pos.
Proof.
  unfold extentCovers, encloses, extendExtent. simpl.
  repeat match goal with
         | |- context [Qltb ?a ?b] =>
             let E := fresh "E" in
             destruct (Qltb a b) eqn:E;
             [apply Qltb_lt in E | apply Qltb_ge in E]
         end; repeat split; lra.
Qed.

(** The extent computed for a measure encloses the box of every staff
    measure that has a shape. *)
Lemma clickExtent_encloses (staves : list (option GraphicalMeasure)) :
  forall (acc e : Extent),
    clickExtent staves acc = Normal e ->
    extentCovers e acc /\
    (forall staffMeasure pos,
        In (Some staffMeasure) staves ->
        PositionAndShape staffMeasure = Some pos ->
        encloses e pos).
Proof.
  induction staves as [|s tl IH]; intros acc e H; simpl in H.
  - injection H as <-. split; [unfold extentCovers; repeat split; lra|].
    intros sm pos [].
  - destruct s as [sm|]; [|discriminate].
    destruct (PositionAndShape sm) as [pos|] eqn:Epos.
    + destruct (IH _ _ H) as [Hcov Hall].
      destruct (extendExtent_covers acc pos) as [Hc1 He1].
      split.
      * unfold extentCovers in *. repeat split; lra.
      * intros sm' pos' [[= <-]|Hin] Hp.
        -- rewrite Epos in Hp. injection Hp as <-.
           unfold extentCovers, encloses in *. repeat split; lra.
        -- apply (Hall sm' pos' Hin Hp).
    + destruct (IH _ _ H) as [Hcov Hall]. split; [exact Hcov|].
      intros sm' pos' [[= <-]|Hin] Hp; [congruence|].
      apply (Hall sm' pos' Hin Hp).
Qed.

(** ** Commands and style writes *)

Lemma applyWrites_app (ws1 ws2 : list Write) (w : World) :
  applyWrites (ws1 ++ ws2) w = applyWrites ws2 (applyWrites ws1 w).
Proof. unfold applyWrites. apply fold_left_app. Qed.

Lemma writes_ret : writes (ret tt) [].
Proof. intros w. reflexivity. Qed.

Lemma writes_setOpacity (el : Elem) (v : string) :
  writes (setOpacity el v) [SetOpacity el v].
Proof. intros w. reflexivity. Qed.

Lemma writes_applyColor (el : Elem) (v : string) :
  writes (applyColor el v) [SetColor el v].
Proof. intros w. reflexivity. Qed.

Lemma writes_seq (c1 c2 : Cmd unit) (ws1 ws2 : list Write) :
  writes c1 ws1 -> writes c2 ws2 -> writes (c1 ;; c2) (ws1 ++ ws2).
Proof.
  intros H1 H2 w. unfold bind. rewrite H1, H2, applyWrites_app. reflexivity.
Qed.

Lemma writes_forEach {A : Type} (f : A -> Cmd unit) (g : A -> list Write) (l : list A) :
  (forall a, In a l -> writes (f a) (g a)) ->
  writes (forEach f l) (flat_map g l).
Proof.
  induction l as [|a tl IH]; intros H; simpl.
  - apply writes_ret.
  - apply writes_seq.
    + apply H. now left.
    + apply IH. intros b Hb. apply H. now right.
Qed.

(** The last write to the opacity of an element decides it. *)
Lemma applyWrites_opacity (ws : list Write) (w : World) (el : Elem) (v : string) :
  In (SetOpacity el v) ws ->
  (forall v', In (SetOpacity el v') ws -> v' = v) ->
  opacity (applyWrites ws w) !! el = Some v.
Proof.
  induction ws as [|x ws IH] using rev_ind; intros Hin Hall; [destruct Hin|].
  rewrite applyWrites_app. simpl.
  destruct x as [el' v'|el' v']; simpl.
  - destruct (decide (el' = el)) as [->|Hne].
    + rewrite lookup_insert_eq. f_equal. apply Hall.
      apply in_or_app. right. now left.
    + rewrite lookup_insert_ne by exact Hne.
      apply IH.
      * apply in_app_or in Hin. destruct Hin as [Hin|[Hin|[]]]; [exact Hin|].
        congruence.
      * intros v'' Hv. apply Hall, in_or_app. now left.
  - apply IH.
    + apply in_app_or in Hin. destruct Hin as [Hin|[Hin|[]]]; [exact Hin|].
      discriminate.
    + intros v'' Hv. apply Hall, in_or_app. now left.
Qed.

Lemma applyWrites_opacity_untouched (ws : list Write) (w : World) (el : Elem) :
  (forall v, ~ In (SetOpacity el v) ws) ->
  opacity (applyWrites ws w) !! el = opacity w !! el.
Proof.
  induction ws as [|x ws IH] using rev_ind; intros H; [reflexivity|].
  rewrite applyWrites_app. simpl.
  assert (Hws : forall v, ~ In (SetOpacity el v) ws).
  { intros v Hv. apply (H v), in_or_app. now left. }
  destruct x as [el' v'|el' v']; simpl; [|apply IH, Hws].
  rewrite lookup_insert_ne; [apply IH, Hws|].
  intros ->. apply (H v'), in_or_app. right. now left.
Qed.

Lemma applyWrites_color (ws : list Write) (w : World) (el : Elem) (v : string) :
  In (SetColor el v) ws ->
  (forall v', In (SetColor el v') ws -> v' = v) ->
  color (applyWrites ws w) !! el = Some v.
Proof.
  induction ws as [|x ws IH] using rev_ind; intros Hin Hall; [destruct Hin|].
  rewrite applyWrites_app. simpl.
  destruct x as [el' v'|el' v']; simpl.
  - apply IH.
    + apply in_app_or in Hin. destruct Hin as [Hin|[Hin|[]]]; [exact Hin|].
      discriminate.
    + intros v'' Hv. apply Hall, in_or_app. now left.
  - destruct (decide (el' = el)) as [->|Hne].
    + rewrite lookup_insert_eq. f_equal. apply Hall.
      apply in_or_app. right. now left.
    + rewrite lookup_insert_ne by exact Hne.
      apply IH.
      * apply in_app_or in Hin. destruct Hin as [Hin|[Hin|[]]]; [exact Hin|].
        congruence.
      * intros v'' Hv. apply Hall, in_or_app. now left.
Qed.

Lemma applyWrites_console (ws : list Write) (w : World) :
  console (applyWrites ws w) = console w.
Proof.
  revert w. induction ws as [|x ws IH]; intros w; [reflexivity|].
  simpl. rewrite IH. destruct x; reflexivity.
Qed.

(** ** Reveal mode: the visibility of measures *)

Lemma writes_note_opacity (v : string) (ns : list NoteData) :
  writes (forEach (fun n => match element n with
                            | Some el => setOpacity el v
                            | None => ret tt
                            end) ns)
         (opacityWrites v (noteElements ns)).
Proof.
  induction ns as [|n tl IH]; [apply writes_ret|].
  unfold noteElements, opacityWrites in *. simpl.
  rewrite map_app. apply writes_seq; [|exact IH].
  destruct (element n); [apply writes_setOpacity | apply writes_ret].
Qed.

Lemma writes_elem_opacity (v : string) (els : list Elem) :
  writes (forEach (fun el => setOpacity el v) els) (opacityWrites v els).
Proof.
  induction els as [|el tl IH]; [apply writes_ret|].
  simpl. apply (writes_seq _ _ [SetOpacity el v]); [apply writes_setOpacity | exact IH].
Qed.

Lemma writes_kept_opacity (keep : Elem -> bool) (v : string) (els : list Elem) :
  writes (forEach (fun el => if keep el then setOpacity el v else ret tt) els)
         (opacityWrites v (filter keep els)).
Proof.
  induction els as [|el tl IH]; [apply writes_ret|].
  simpl. destruct (keep el); simpl.
  - apply (writes_seq _ _ [SetOpacity el v]); [apply writes_setOpacity | exact IH].
  - apply (writes_seq _ _ []); [apply writes_ret | exact IH].
Qed.

Lemma filter_noGlyph (els : list Elem) : filter noGlyph els = [].
Proof. induction els; simpl; auto. Qed.

Lemma filter_allGlyphs (els : list Elem) : filter allGlyphs els = els.
Proof. induction els; simpl; congruence. Qed.

Lemma BoolReveal_updateMeasureVisibility_writes
    (noteMap : JsMap (list NoteData)) (beamsMap : JsMap (list Elem)) (c : Z) :
  writes (BoolReveal.updateMeasureVisibility true noteMap beamsMap c)
         (flat_map (entryWrites noteElements noGlyph c) noteMap ++
          flat_map (entryWrites elemsOf allGlyphs c) beamsMap).
Proof.
  unfold BoolReveal.updateMeasureVisibility. simpl negb. cbv iota.
  apply writes_seq; apply writes_forEach; intros [m x] _;
    unfold entryWrites; simpl fst; simpl snd.
  - destruct (m <? c)%Z; [apply writes_note_opacity|].
    destruct (c <? m)%Z; [apply writes_note_opacity|].
    rewrite filter_noGlyph. apply writes_ret.
  - rewrite filter_allGlyphs. unfold elemsOf.
    destruct (m <? c)%Z; [apply writes_elem_opacity|].
    destruct (c <? m)%Z; apply writes_elem_opacity.
Qed.

Lemma TriReveal_updateMeasureVisibility_writes (doc : Document)
    (measureContentMap : JsMap (list Elem)) (c : Z) :
  writes (TriReveal.updateMeasureVisibility doc TriReveal.NOTE measureContentMap c)
         (flat_map (entryWrites elemsOf (isBeamOrRest doc) c) measureContentMap).
Proof.
  unfold TriReveal.updateMeasureVisibility. simpl negb. cbv iota.
  apply writes_forEach; intros [m x] _;
    unfold entryWrites, elemsOf; simpl fst; simpl snd.
  destruct (m <? c)%Z; [apply writes_elem_opacity|].
  destruct (c <? m)%Z; [apply writes_elem_opacity|].
  apply (writes_kept_opacity (isBeamOrRest doc)).
Qed.

Section EntryWrites.
Context {V : Type}.
Variable elems : V -> list Elem.
Variable keep : Elem -> bool.
Variable c : Z.

(** Every write of the helper gives a glyph the opacity of a measure it is
    filed under. *)
Lemma entryWrites_sound (m : JsMap V) (el : Elem) (v : string) :
  In (SetOpacity el v) (flat_map (entryWrites elems keep c) m) ->
  exists k, In (k, el) (glyphsOf elems m) /\ v = revealOpacity c k.
Proof.
  unfold glyphsOf. rewrite in_flat_map. intros ([k x] & Hentry & Hw).
  exists k. unfold entryWrites, revealOpacity, opacityWrites in *.
  simpl fst in *. simpl snd in *.
  assert (G : forall l, In (SetOpacity el v) (map (fun e => SetOpacity e v) l) -> In el l).
  { intros l Hl. apply in_map_iff in Hl. destruct Hl as (e & [= ->] & He). exact He. }
  assert (Hel : In el (elems x) /\
                v = (if (k <? c)%Z then "1" else if (c <? k)%Z then "0" else "1")%string).
  { destruct (k <? c)%Z; [|destruct (c <? k)%Z];
      apply in_map_iff in Hw; destruct Hw as (e & [= -> <-] & He);
      (split; [|reflexivity]); try exact He.
    apply filter_In in He. apply He. }
  destruct Hel as [Hel ->]. split; [|reflexivity].
  apply in_flat_map. exists (k, x). split; [exact Hentry|].
  simpl. apply in_map_iff. exists el. split; [reflexivity | exact Hel].
Qed.

(** Every glyph outside the current measure, and every kept glyph of the
    current measure, is written. *)
Lemma entryWrites_complete (m : JsMap V) (k : Z) (el : Elem) :
  In (k, el) (glyphsOf elems m) ->
  k <> c \/ keep el = true ->
  In (SetOpacity el (revealOpacity c k)) (flat_map (entryWrites elems keep c) m).
Proof.
  unfold glyphsOf. rewrite in_flat_map. intros ([k' x] & Hentry & Hp) Hk.
  simpl in Hp. apply in_map_iff in Hp. destruct Hp as (e & [= -> ->] & He).
  apply in_flat_map. exists (k, x). split; [exact Hentry|].
  unfold entryWrites, revealOpacity, opacityWrites. simpl fst. simpl snd.
  destruct (k <? c)%Z eqn:E1; [apply in_map_iff; exists el; auto|].
  destruct (c <? k)%Z eqn:E2; [apply in_map_iff; exists el; auto|].
  apply in_map_iff. exists el. split; [reflexivity|].
  apply filter_In. split; [exact He|].
  destruct Hk as [Hk|Hk]; [lia | exact Hk].
Qed.
End EntryWrites.

Lemma revealOpacity_before (c m : Z) : (m < c)%Z -> revealOpacity c m = "1"%string.
Proof. unfold revealOpacity. intros H. destruct (Z.ltb_spec m c); [reflexivity | lia]. Qed.

Lemma revealOpacity_after (c m : Z) : (c < m)%Z -> revealOpacity c m = "0"%string.
Proof.
  unfold revealOpacity. intros H.
  destruct (Z.ltb_spec m c); [lia|]. destruct (Z.ltb_spec c m); [reflexivity | lia].
Qed.

Lemma revealOpacity_current (c : Z) : revealOpacity c c = "1"%string.
Proof. unfold revealOpacity. rewrite Z.ltb_irrefl. reflexivity. Qed.

(** A glyph that the helper writes to is filed under another measure than
    the current one, or is a kept glyph of the current measure. *)
Lemma entryWrites_written {V : Type} (elems : V -> list Elem) (keep : Elem -> bool)
    (c : Z) (m : JsMap V) (el : Elem) (v : string) :
  In (SetOpacity el v) (flat_map (entryWrites elems keep c) m) ->
  exists k, In (k, el) (glyphsOf elems m) /\ (k <> c \/ keep el = true).
Proof.
  unfold glyphsOf. rewrite in_flat_map. intros ([k x] & Hentry & Hw).
  exists k. unfold entryWrites, opacityWrites in Hw. simpl fst in Hw. simpl snd in Hw.
  assert (Hel : In el (elems x) /\ (k <> c \/ keep el = true)).
  { destruct (Z.ltb_spec k c); [|destruct (Z.ltb_spec c k)];
      apply in_map_iff in Hw; destruct Hw as (e & [= -> <-] & He).
    - split; [exact He | left; lia].
    - split; [exact He | left; lia].
    - apply filter_In in He. split; [apply He | right; apply He]. }
  destruct Hel as [Hel Hk]. split; [|exact Hk].
  apply in_flat_map. exists (k, x). split; [exact Hentry|].
  simpl. apply in_map_iff. exists el. split; [reflexivity | exact Hel].
Qed.

(** C5, as amended.  After the visibility helper has run in reveal mode for
    the current measure [c], on glyph maps that file each glyph under one
    measure: every glyph filed under a measure before [c] has opacity 1 and
    every glyph filed under a measure after [c] has opacity 0.  Of the
    current measure, the three-state viewer gives opacity 1 to the beams and
    rests and leaves the other glyphs as they were; the boolean viewer gives
    opacity 1 to the glyphs of its beams map and leaves what is filed with
    the notes only as it was, a rest among them: its helper has no branch
    for the notes of the current measure and knows no rests.  In the sample
    maps of the measures 1, 2, 3 with current measure 2: the glyphs of
    measure 1 are opaque, those of measure 3 transparent, the beam of
    measure 2 opaque; the rest of measure 2 is opaque in the three-state
    viewer, and in the boolean viewer, where it is filed with the notes,
    it stays as hidden as the step to measure 1 left it. *)
Theorem reveal_visibility_by_measure :
  (forall (noteMap : JsMap (list NoteData)) (beamsMap : JsMap (list Elem))
          (c : Z) (w : World),
      let glyphs := glyphsOf noteElements noteMap ++ glyphsOf elemsOf beamsMap in
      let w' := snd (BoolReveal.updateMeasureVisibility true noteMap beamsMap c w) in
      oneMeasurePerGlyph glyphs ->
      forall m el,
        In (m, el) glyphs ->
        ((m < c)%Z -> opacity w' !! el = Some "1"%string) /\
        ((c < m)%Z -> opacity w' !! el = Some "0"%string) /\
        (m = c -> In (m, el) (glyphsOf elemsOf beamsMap) ->
         opacity w' !! el = Some "1"%string) /\
        (m = c -> ~ In (m, el) (glyphsOf elemsOf beamsMap) ->
         opacity w' !! el = opacity w !! el)) /\
  (forall (doc : Document) (measureContentMap : JsMap (list Elem))
          (c : Z) (w : World),
      let glyphs := glyphsOf elemsOf measureContentMap in
      let w' := snd (TriReveal.updateMeasureVisibility doc TriReveal.NOTE
                       measureContentMap c w) in
      oneMeasurePerGlyph glyphs ->
      forall m el,
        In (m, el) glyphs ->
        ((m < c)%Z -> opacity w' !! el = Some "1"%string) /\
        ((c < m)%Z -> opacity w' !! el = Some "0"%string) /\
        (m = c -> isBeamOrRest doc el = true ->
         opacity w' !! el = Some "1"%string) /\
        (m = c -> isBeamOrRest doc el = false ->
         opacity w' !! el = opacity w !! el)) /\
  (let w' := snd (BoolReveal.updateMeasureVisibility true sampleNoteMap
                    sampleBeamsMap 2 sampleWorld) in
   opacity w' !! 1%nat = Some "1"%string /\ opacity w' !! 4%nat = Some "1"%string /\
   opacity w' !! 11%nat = Some "1"%string /\
   opacity w' !! 3%nat = Some "0"%string /\ opacity w' !! 13%nat = Some "0"%string /\
   opacity w' !! 12%nat = Some "1"%string) /\
  (let w' := snd (TriReveal.updateMeasureVisibility sampleDocument TriReveal.NOTE
                    sampleContentMap 2 sampleWorld) in
   opacity w' !! 1%nat = Some "1"%string /\ opacity w' !! 4%nat = Some "1"%string /\
   opacity w' !! 11%nat = Some "1"%string /\
   opacity w' !! 3%nat = Some "0"%string /\ opacity w' !! 13%nat = Some "0"%string /\
   opacity w' !! 12%nat = Some "1"%string /\ opacity w' !! 22%nat = Some "1"%string) /\
  (let w1 := snd (BoolReveal.updateMeasureVisibility true sampleNoteMapWithRest
                    sampleBeamsMap 1 sampleWorld) in
   let w2 := snd (BoolReveal.updateMeasureVisibility true sampleNoteMapWithRest
                    sampleBeamsMap 2 w1) in
   opacity w2 !! 1%nat = Some "1"%string /\ opacity w2 !! 4%nat = Some "1"%string /\
   opacity w2 !! 11%nat = Some "1"%string /\
   opacity w2 !! 3%nat = Some "0"%string /\ opacity w2 !! 13%nat = Some "0"%string /\
   opacity w2 !! 12%nat = Some "1"%string /\
   opacity w2 !! 22%nat = opacity w1 !! 22%nat /\
   opacity w1 !! 22%nat = Some "0"%string).
Proof.
  split; [|split; [|split; [|split]]].
  - intros noteMap beamsMap c w glyphs w' Hone m el Hin.
    subst w'. rewrite (BoolReveal_updateMeasureVisibility_writes noteMap beamsMap c w).
    simpl snd.
    assert (Hval : forall v,
               In (SetOpacity el v)
                  (flat_map (entryWrites noteElements noGlyph c) noteMap ++
                   flat_map (entryWrites elemsOf allGlyphs c) beamsMap) ->
               v = revealOpacity c m).
    { intros v Hv. apply in_app_or in Hv.
      destruct Hv as [Hv|Hv]; apply entryWrites_sound in Hv;
        destruct Hv as (k & Hk & ->); f_equal; apply (Hone k m el);
        try exact Hin; subst glyphs; apply in_or_app; [left | right]; exact Hk. }
    assert (Hwritten : m <> c \/ In (m, el) (glyphsOf elemsOf beamsMap) ->
               In (SetOpacity el (revealOpacity c m))
                  (flat_map (entryWrites noteElements noGlyph c) noteMap ++
                   flat_map (entryWrites elemsOf allGlyphs c) beamsMap)).
    { intros Hm. apply in_or_app.
      assert (Hb : In (m, el) (glyphsOf elemsOf beamsMap) ->
                   In (SetOpacity el (revealOpacity c m))
                      (flat_map (entryWrites elemsOf allGlyphs c) beamsMap)).
      { intros Hb. apply entryWrites_complete; [exact Hb | now right]. }
      destruct Hm as [Hm|Hm]; [|right; apply Hb, Hm].
      subst glyphs. apply in_app_or in Hin. destruct Hin as [Hn|Hn].
      - left. apply entryWrites_complete; [exact Hn | now left].
      - right. apply Hb, Hn. }
    split; [|split; [|split]].
    + intros Hlt. rewrite <- (revealOpacity_before c m Hlt).
      apply applyWrites_opacity; [apply Hwritten; left; lia | exact Hval].
    + intros Hgt. rewrite <- (revealOpacity_after c m Hgt).
      apply applyWrites_opacity; [apply Hwritten; left; lia | exact Hval].
    + intros Hmc Hb.
      replace "1"%string with (revealOpacity c m)
        by (rewrite Hmc; apply revealOpacity_current).
      apply applyWrites_opacity; [apply Hwritten; right; exact Hb | exact Hval].
    + intros Hmc Hnb. apply applyWrites_opacity_untouched. intros v Hv.
      apply in_app_or in Hv. destruct Hv as [Hv|Hv];
        apply entryWrites_written in Hv; destruct Hv as (k & Hk & Hkept).
      * assert (Hkm : k = m)
          by (apply (Hone k m el); [subst glyphs; apply in_or_app; left; exact Hk
                                   | exact Hin]).
        destruct Hkept as [Hne | Hkeep]; [congruence | discriminate].
      * assert (Hkm : k = m)
          by (apply (Hone k m el); [subst glyphs; apply in_or_app; right; exact Hk
                                   | exact Hin]).
        subst k. contradiction.
  - intros doc mcm c w glyphs w' Hone m el Hin.
    subst w'. rewrite (TriReveal_updateMeasureVisibility_writes doc mcm c w).
    simpl snd.
    assert (Hval : forall v,
               In (SetOpacity el v)
                  (flat_map (entryWrites elemsOf (isBeamOrRest doc) c) mcm) ->
               v = revealOpacity c m).
    { intros v Hv. apply entryWrites_sound in Hv.
      destruct Hv as (k & Hk & ->). f_equal. apply (Hone k m el); assumption. }
    split; [|split; [|split]].
    + intros Hlt. rewrite <- (revealOpacity_before c m Hlt).
      apply applyWrites_opacity; [|exact Hval].
      apply entryWrites_complete; [exact Hin | left; lia].
    + intros Hgt. rewrite <- (revealOpacity_after c m Hgt).
      apply applyWrites_opacity; [|exact Hval].
      apply entryWrites_complete; [exact Hin | left; lia].
    + intros Hmc Hk.
      replace "1"%string with (revealOpacity c m)
        by (rewrite Hmc; apply revealOpacity_current).
      apply applyWrites_opacity; [|exact Hval].
      apply entryWrites_complete; [exact Hin | right; exact Hk].
    + intros Hmc Hother. apply applyWrites_opacity_untouched. intros v Hv.
      apply entryWrites_written in Hv. destruct Hv as (k & Hk & Hkept).
      assert (Hkm : k = m) by (apply (Hone k m el); assumption).
      destruct Hkept as [Hne | Hkeep]; congruence.
  - cbv zeta. repeat split; vm_compute; reflexivity.
  - cbv zeta. repeat split; vm_compute; reflexivity.
  - cbv zeta. repeat split; vm_compute; reflexivity.
Qed.

(** In the sample maps no glyph is filed under two measures. *)
Lemma sample_glyphs_oneMeasure :
  oneMeasurePerGlyph (glyphsOf noteElements sampleNoteMap ++
                      glyphsOf elemsOf sampleBeamsMap).
Proof.
  intros m1 m2 el H1 H2. vm_compute in H1, H2.
  intuition congruence.
Qed.

Lemma reveal_visibility_by_measure_witness :
  opacity (snd (BoolReveal.updateMeasureVisibility true sampleNoteMap
                  sampleBeamsMap 2 sampleWorld)) !! 3%nat = Some "0"%string.
Proof.
  apply (proj1 reveal_visibility_by_measure sampleNoteMap sampleBeamsMap 2%Z
           sampleWorld sample_glyphs_oneMeasure 3%Z 3%nat).
  - vm_compute. right. right. right. now left.
  - reflexivity.
Defined.

(** C5 as stated fails in the boolean viewer: there a rest is filed with the
    notes of its measure, and the helper has no branch for the notes of the
    current measure.  The rest of measure 2 is hidden while measure 1 is
    current, and after the helper has run for the current measure 2 it is
    still hidden, although it is a non-note glyph of the current measure in
    maps that file each glyph under one measure. *)
Lemma rest_of_current_measure_counterexample :
  let glyphs := glyphsOf noteElements sampleNoteMapWithRest ++
                glyphsOf elemsOf sampleBeamsMap in
  let w1 := snd (BoolReveal.updateMeasureVisibility true sampleNoteMapWithRest
                   sampleBeamsMap 1 sampleWorld) in
  let w2 := snd (BoolReveal.updateMeasureVisibility true sampleNoteMapWithRest
                   sampleBeamsMap 2 w1) in
  oneMeasurePerGlyph glyphs /\
  In (2%Z, 22%nat) glyphs /\
  classList_contains sampleDocument 22%nat "vf-rest" = true /\
  opacity w2 !! 22%nat = Some "0"%string /\
  opacity w2 !! 22%nat <> Some "1"%string.
Proof.
  cbv zeta. split; [|split; [|split; [|split]]].
  - intros m1 m2 el H1 H2. vm_compute in H1, H2. intuition congruence.
  - vm_compute. tauto.
  - reflexivity.
  - vm_compute. reflexivity.
  - vm_compute. discriminate.
Qed.

(** ** The note loops of the frame step *)

Lemma returns_ret : returns (ret tt).
Proof. intros w. exists w. reflexivity. Qed.

Lemma returns_modify (f : World -> World) : returns (modify f).
Proof. intros w. exists (f w). reflexivity. Qed.

Lemma returns_writes (c : Cmd unit) (ws : list Write) : writes c ws -> returns c.
Proof. intros H w. exists (applyWrites ws w). apply H. Qed.

Lemma returns_bind {B : Type} (c : Cmd unit) (k : unit -> Cmd B) :
  returns c -> forall w, exists w1, bind c k w = k tt w1.
Proof.
  intros H w. destruct (H w) as (w1 & E). exists w1.
  unfold bind. rewrite E. reflexivity.
Qed.

Lemma returns_paintCursor (mode : AppMode) (x t h : Q) : returns (paintCursor mode x t h).
Proof. apply returns_modify. Qed.

Lemma returns_scrollLogic (x : Q) (i : Z) : returns (scrollLogic x i).
Proof. apply returns_modify. Qed.

Lemma returns_slideCurtain (r : TriReveal.RevealMode) (x : Q) :
  returns (TriReveal.slideCurtain r x).
Proof. apply returns_modify. Qed.

Lemma BoolReveal_updateMeasureVisibility_returns (revealMode : bool)
    (noteMap : JsMap (list NoteData)) (beamsMap : JsMap (list Elem)) (c : Z) :
  returns (BoolReveal.updateMeasureVisibility revealMode noteMap beamsMap c).
Proof.
  destruct revealMode.
  - eapply returns_writes. apply BoolReveal_updateMeasureVisibility_writes.
  - apply returns_ret.
Qed.

Lemma TriReveal_updateMeasureVisibility_returns (doc : Document)
    (revealMode : TriReveal.RevealMode) (m : JsMap (list Elem)) (c : Z) :
  returns (TriReveal.updateMeasureVisibility doc revealMode m c).
Proof.
  destruct revealMode; try apply returns_ret.
  eapply returns_writes. apply TriReveal_updateMeasureVisibility_writes.
Qed.

Lemma BoolReveal_visibilityCheck_returns (revealMode : bool)
    (noteMap : JsMap (list NoteData)) (beamsMap : JsMap (list Elem)) (measure : Z) :
  returns (let* lastIndex := gets lastMeasureIndex in
           if revealMode && negb (measure - 1 =? lastIndex)%Z
           then BoolReveal.updateMeasureVisibility revealMode noteMap beamsMap measure
           else ret tt).
Proof.
  intros w. unfold bind, gets.
  destruct (revealMode && negb (measure - 1 =? lastMeasureIndex w)%Z).
  - apply BoolReveal_updateMeasureVisibility_returns.
  - apply returns_ret.
Qed.

Lemma TriReveal_visibilityCheck_returns (doc : Document)
    (revealMode : TriReveal.RevealMode) (m : JsMap (list Elem)) (measure : Z) :
  returns (let* lastIndex := gets lastMeasureIndex in
           if TriReveal.isNOTE revealMode && negb (measure - 1 =? lastIndex)%Z
           then TriReveal.updateMeasureVisibility doc revealMode m measure
           else ret tt).
Proof.
  intros w. unfold bind, gets.
  destruct (TriReveal.isNOTE revealMode && negb (measure - 1 =? lastMeasureIndex w)%Z).
  - apply TriReveal_updateMeasureVisibility_returns.
  - apply returns_ret.
Qed.

Lemma BoolReveal_highlightNote_writes (revealMode : bool) (hp : Q) (n : NoteData) :
  writes (BoolReveal.highlightNote revealMode hp n)
         (BoolReveal_highlightWrites revealMode hp n).
Proof.
  unfold BoolReveal.highlightNote, BoolReveal_highlightWrites, noteOpacity, noteColor.
  destruct (element n) as [el|]; [|apply writes_ret].
  apply (writes_seq _ _ [_] [_]).
  - destruct revealMode; [|apply writes_setOpacity].
    destruct (isAhead hp (timestamp n)); apply writes_setOpacity.
  - destruct (isHighlighted hp (timestamp n)); apply writes_applyColor.
Qed.

Lemma TriReveal_highlightNote_writes (revealMode : TriReveal.RevealMode) (hp : Q)
    (n : NoteData) :
  writes (TriReveal.highlightNote revealMode hp n)
         (TriReveal_highlightWrites revealMode hp n).
Proof.
  unfold TriReveal.highlightNote, TriReveal_highlightWrites, noteOpacity, noteColor.
  destruct (element n) as [el|]; [|apply writes_ret].
  apply writes_seq.
  - destruct (TriReveal.isNOTE revealMode); [|apply writes_ret].
    destruct (isAhead hp (timestamp n)); apply writes_setOpacity.
  - destruct (isHighlighted hp (timestamp n)); apply writes_applyColor.
Qed.

Lemma TriReveal_resetNote_writes (n : NoteData) :
  writes (TriReveal.resetNote n) (resetWrites n).
Proof.
  unfold TriReveal.resetNote, resetWrites.
  destruct (element n) as [el|]; [|apply writes_ret].
  apply (writes_seq _ _ [_] [_]); [apply writes_applyColor | apply writes_setOpacity].
Qed.

(** The tests of the note loop on a finite timestamp are the closed
    interval and the strict bound of the specification. *)
Lemma isHighlighted_interval (hp ts : Q) :
  isHighlighted hp (Fin ts) = true <-> ts - (4#100) <= hp /\ hp <= ts + (1#100).
Proof.
  unfold isHighlighted, lookahead. simpl.
  rewrite andb_true_iff, !Qleb_le. tauto.
Qed.

Lemma isAhead_interval (hp ts : Q) :
  isAhead hp (Fin ts) = true <-> hp < ts - (4#100).
Proof. unfold isAhead, lookahead. simpl. apply Qltb_lt. Qed.

(** ** The frame step up to the note loops *)

Ltac skip_returning H :=
  match goal with
  | |- exists w3, bind ?c ?k ?w = _ =>
      let w1 := fresh "w" in
      let E := fresh "E" in
      destruct (returns_bind c k ltac:(apply H) w) as (w1 & E);
      rewrite E; clear E; cbv beta
  end.

Lemma TriReveal_frameBody_reaches (doc : Document) (props : Props)
    (rm : TriReveal.RevealMode) (mcm : JsMap (list Elem))
    (sheet : GraphicalMusicSheet) (measure : Z) (prog : Q)
    (e : Extent) (minNoteX : Q) :
  frameGeometry sheet measure e minNoteX ->
  forall w, exists w3,
    TriReveal.frameBody doc props rm mcm sheet measure prog w =
    ((match Map_get (noteMap props) measure, mode props with
      | Some ns, PLAYBACK =>
          forEach (TriReveal.highlightNote rm
                     (highlightProgressOf e
                        (visualStartXOf measure (unitInPixelsOf sheet) e minNoteX) prog)) ns
      | _, _ => ret tt
      end) ;;
     (match mode props, Map_get (noteMap props) measure with
      | RECORD, Some ns => forEach TriReveal.resetNote ns
      | _, _ => ret tt
      end)) w3.
Proof.
  intros (Hrange & staves & Hat & Hne & Hgeo) w.
  unfold TriReveal.frameBody.
  destruct (MeasureList sheet) as [|m0 ml] eqn:Eml; [simpl in Hrange; lia|].
  destruct (Z.leb_spec (Z.of_nat (length (m0 :: ml))) (measure - 1)) as [Hge|_]; [lia|].
  rewrite Hat.
  destruct staves as [|s0 staves]; [contradiction|].
  unfold bind at 1. unfold liftC. rewrite Hgeo.
  skip_returning (returns_paintCursor (mode props)).
  skip_returning returns_scrollLogic.
  skip_returning returns_slideCurtain.
  skip_returning (TriReveal_visibilityCheck_returns doc rm mcm measure).
  skip_returning returns_modify.
  eexists. reflexivity.
Qed.

Lemma BoolReveal_frameBody_reaches (props : Props) (rm : bool)
    (beamsMap : JsMap (list Elem))
    (sheet : GraphicalMusicSheet) (measure : Z) (prog : Q)
    (e : Extent) (minNoteX : Q) :
  frameGeometry sheet measure e minNoteX ->
  forall w, exists w3,
    BoolReveal.frameBody props rm beamsMap sheet measure prog w =
    ((match Map_get (noteMap props) measure, mode props with
      | Some ns, PLAYBACK =>
          forEach (BoolReveal.highlightNote rm
                     (highlightProgressOf e
                        (visualStartXOf measure (unitInPixelsOf sheet) e minNoteX) prog)) ns
      | _, _ => ret tt
      end) ;;
     (match mode props, Map_get (noteMap props) measure with
      | RECORD, Some ns => forEach BoolReveal.resetNote ns
      | _, _ => ret tt
      end)) w3.
Proof.
  intros (Hrange & staves & Hat & Hne & Hgeo) w.
  unfold BoolReveal.frameBody.
  destruct (MeasureList sheet) as [|m0 ml] eqn:Eml; [simpl in Hrange; lia|].
  destruct (Z.leb_spec (Z.of_nat (length (m0 :: ml))) (measure - 1)) as [Hge|_]; [lia|].
  rewrite Hat.
  destruct staves as [|s0 staves]; [contradiction|].
  unfold bind at 1. unfold liftC. rewrite Hgeo.
  skip_returning (returns_paintCursor (mode props)).
  skip_returning returns_scrollLogic.
  skip_returning (BoolReveal_visibilityCheck_returns rm (noteMap props) beamsMap measure).
  skip_returning returns_modify.
  eexists. reflexivity.
Qed.

Lemma try_catch_log_normal (label : string) (body : Cmd unit) (w w' : World) :
  body w = (Normal tt, w') -> try_catch_log label body w = (Normal tt, w').
Proof. intros H. unfold try_catch_log. rewrite H. reflexivity. Qed.

Lemma try_catch_log_throw (label msg : string) (body : Cmd unit) (w w' : World) :
  body w = (Throw msg, w') ->
  try_catch_log label body w = (Normal tt, console_error (label ++ msg) w').
Proof. intros H. unfold try_catch_log. rewrite H. reflexivity. Qed.

Lemma try_catch_log_returns (label : string) (body : Cmd unit) :
  returns (try_catch_log label body).
Proof.
  intros w. unfold try_catch_log.
  destruct (body w) as [[[]|msg] w']; eexists; reflexivity.
Qed.

(** The frame step once its guards have passed. *)
Lemma TriReveal_updateCursorPosition_run (doc : Document) (props : Props)
    (rm : TriReveal.RevealMode) (mcm : JsMap (list Elem)) (t : Q) (w : World)
    (osmd : OSMD) (sheet : GraphicalMusicSheet) (c0 : CursorStyle) :
  osmdRef props = Some osmd ->
  isLoaded props = true ->
  cursor w = Some c0 ->
  GraphicSheet osmd = Some sheet ->
  TriReveal.updateCursorPosition doc props rm mcm t w =
    try_catch_log "Error positioning cursor:"
      (TriReveal.frameBody doc props rm mcm sheet
         (loc_measure (findCurrentMeasure (anchors props) t))
         (progress (findCurrentMeasure (anchors props) t))) w.
Proof.
  intros Ho Hl Hc Hs. unfold TriReveal.updateCursorPosition.
  rewrite Ho, Hl, Hc, Hs. reflexivity.
Qed.

Lemma BoolReveal_updateCursorPosition_run (props : Props)
    (rm : bool) (beamsMap : JsMap (list Elem)) (t : Q) (w : World)
    (osmd : OSMD) (sheet : GraphicalMusicSheet) (c0 : CursorStyle) :
  osmdRef props = Some osmd ->
  isLoaded props = true ->
  cursor w = Some c0 ->
  GraphicSheet osmd = Some sheet ->
  BoolReveal.updateCursorPosition props rm beamsMap t w =
    try_catch_log "Error positioning cursor:"
      (BoolReveal.frameBody props rm beamsMap sheet
         (loc_measure (findCurrentMeasure (anchors props) t))
         (progress (findCurrentMeasure (anchors props) t))) w.
Proof.
  intros Ho Hl Hc Hs. unfold BoolReveal.updateCursorPosition.
  rewrite Ho, Hl, Hc, Hs. reflexivity.
Qed.

(** ** What the note loops leave behind *)

Lemma TriReveal_highlight_loop (rm : TriReveal.RevealMode) (hp : Q)
    (ns : list NoteData) (w : World) (n : NoteData) (el : Elem) :
  oneTimestampPerElement ns ->
  In n ns -> element n = Some el ->
  let w' := applyWrites (flat_map (TriReveal_highlightWrites rm hp) ns) w in
  color w' !! el = Some (noteColor hp (timestamp n)) /\
  (rm = TriReveal.NOTE -> opacity w' !! el = Some (noteOpacity hp (timestamp n))).
Proof.
  intros Hone Hn Hel w'. subst w'.
  assert (Hsame : forall n' x, In n' ns ->
             In x (TriReveal_highlightWrites rm hp n') ->
             (forall v, x = SetColor el v -> v = noteColor hp (timestamp n)) /\
             (forall v, x = SetOpacity el v -> v = noteOpacity hp (timestamp n))).
  { intros n' x Hn' Hx. unfold TriReveal_highlightWrites in Hx.
    destruct (element n') as [el'|] eqn:Eel'; [|destruct Hx].
    assert (Hts : el' = el -> timestamp n' = timestamp n).
    { intros ->. apply (Hone n' n el); assumption. }
    apply in_app_or in Hx. destruct Hx as [Hx|[<-|[]]].
    - destruct (TriReveal.isNOTE rm); [|destruct Hx].
      destruct Hx as [<-|[]]. split; intros v [= -> <-]. rewrite Hts; reflexivity.
    - split; intros v [= -> <-]. rewrite Hts; reflexivity. }
  split; [|intros ->].
  - apply applyWrites_color.
    + apply in_flat_map. exists n. split; [exact Hn|].
      unfold TriReveal_highlightWrites. rewrite Hel.
      apply in_or_app. right. now left.
    + intros v' Hv. apply in_flat_map in Hv. destruct Hv as (n' & Hn' & Hx).
      apply (proj1 (Hsame n' _ Hn' Hx)). reflexivity.
  - apply applyWrites_opacity.
    + apply in_flat_map. exists n. split; [exact Hn|].
      unfold TriReveal_highlightWrites. rewrite Hel. simpl. now left.
    + intros v' Hv. apply in_flat_map in Hv. destruct Hv as (n' & Hn' & Hx).
      apply (proj2 (Hsame n' _ Hn' Hx)). reflexivity.
Qed.

Lemma BoolReveal_highlight_loop (rm : bool) (hp : Q)
    (ns : list NoteData) (w : World) (n : NoteData) (el : Elem) :
  oneTimestampPerElement ns ->
  In n ns -> element n = Some el ->
  let w' := applyWrites (flat_map (BoolReveal_highlightWrites rm hp) ns) w in
  color w' !! el = Some (noteColor hp (timestamp n)) /\
  opacity w' !! el =
    Some (if rm then noteOpacity hp (timestamp n) else "1"%string).
Proof.
  intros Hone Hn Hel w'. subst w'.
  assert (Hsame : forall n' x, In n' ns ->
             In x (BoolReveal_highlightWrites rm hp n') ->
             (forall v, x = SetColor el v -> v = noteColor hp (timestamp n)) /\
             (forall v, x = SetOpacity el v ->
                        v = if rm then noteOpacity hp (timestamp n) else "1"%string)).
  { intros n' x Hn' Hx. unfold BoolReveal_highlightWrites in Hx.
    destruct (element n') as [el'|] eqn:Eel'; [|destruct Hx].
    assert (Hts : el' = el -> timestamp n' = timestamp n).
    { intros ->. apply (Hone n' n el); assumption. }
    destruct Hx as [<-|[<-|[]]]; split; intros v [= -> <-].
    - destruct rm; [rewrite Hts|]; reflexivity.
    - rewrite Hts; reflexivity. }
  split.
  - apply applyWrites_color.
    + apply in_flat_map. exists n. split; [exact Hn|].
      unfold BoolReveal_highlightWrites. rewrite Hel. right. now left.
    + intros v' Hv. apply in_flat_map in Hv. destruct Hv as (n' & Hn' & Hx).
      apply (proj1 (Hsame n' _ Hn' Hx)). reflexivity.
  - apply applyWrites_opacity.
    + apply in_flat_map. exists n. split; [exact Hn|].
      unfold BoolReveal_highlightWrites. rewrite Hel. now left.
    + intros v' Hv. apply in_flat_map in Hv. destruct Hv as (n' & Hn' & Hx).
      apply (proj2 (Hsame n' _ Hn' Hx)). reflexivity.
Qed.

Lemma reset_loop (ns : list NoteData) (w : World) (n : NoteData) (el : Elem) :
  In n ns -> element n = Some el ->
  let w' := applyWrites (flat_map resetWrites ns) w in
  color w' !! el = Some defaultColor /\ opacity w' !! el = Some "1"%string.
Proof.
  intros Hn Hel w'. subst w'.
  assert (Hsame : forall n' x, In n' ns -> In x (resetWrites n') ->
             (forall v, x = SetColor el v -> v = defaultColor) /\
             (forall v, x = SetOpacity el v -> v = "1"%string)).
  { intros n' x Hn' Hx. unfold resetWrites in Hx.
    destruct (element n') as [el'|]; [|destruct Hx].
    destruct Hx as [<-|[<-|[]]]; split; intros v [= -> <-]; reflexivity. }
  split.
  - apply applyWrites_color.
    + apply in_flat_map. exists n. split; [exact Hn|].
      unfold resetWrites. rewrite Hel. now left.
    + intros v' Hv. apply in_flat_map in Hv. destruct Hv as (n' & Hn' & Hx).
      apply (proj1 (Hsame n' _ Hn' Hx)). reflexivity.
  - apply applyWrites_opacity.
    + apply in_flat_map. exists n. split; [exact Hn|].
      unfold resetWrites. rewrite Hel. right. now left.
    + intros v' Hv. apply in_flat_map in Hv. destruct Hv as (n' & Hn' & Hx).
      apply (proj2 (Hsame n' _ Hn' Hx)). reflexivity.
Qed.

(** The record loop of the boolean viewer stops at the first note that has
    an element: the note is painted, then the call of the result of
    [applyColor] throws. *)
Lemma BoolReveal_reset_loop_throws (pre : list NoteData) (n : NoteData)
    (post : list NoteData) (el : Elem) (w : World) :
  Forall (fun n' => element n' = None) pre ->
  element n = Some el ->
  forEach BoolReveal.resetNote (pre ++ n :: post) w =
    (Throw TypeError_not_a_function, applyWrites [SetColor el defaultColor] w).
Proof.
  intros Hpre Hel. induction Hpre as [|n' pre Hn' _ IH]; simpl.
  - unfold bind, BoolReveal.resetNote. rewrite Hel. reflexivity.
  - unfold bind at 1. unfold BoolReveal.resetNote at 1. rewrite Hn'. exact IH.
Qed.

(** In the three-state viewer the frame step leaves every note of the
    current measure as the specification of the note loop says: in playback
    mode the note has the highlight color exactly when the highlight
    progress passes the test of the color logic (for a finite timestamp: lies
    in [timestamp - 0.04, timestamp + 0.01]) and, in note-reveal mode, the
    opacity 0 exactly when the highlight progress is below
    timestamp - 0.04; in record mode the note has the default color and
    opacity 1. *)
Theorem TriReveal_note_highlighting :
  forall (doc : Document) (props : Props) (rm : TriReveal.RevealMode)
         (mcm : JsMap (list Elem)) (t : Q) (w : World)
         (osmd : OSMD) (sheet : GraphicalMusicSheet) (c0 : CursorStyle)
         (e : Extent) (minNoteX : Q) (ns : list NoteData),
    osmdRef props = Some osmd ->
    isLoaded props = true ->
    cursor w = Some c0 ->
    GraphicSheet osmd = Some sheet ->
    let located := findCurrentMeasure (anchors props) t in
    let hp := frameHighlightProgress sheet located e minNoteX in
    let w' := snd (TriReveal.updateCursorPosition doc props rm mcm t w) in
    frameGeometry sheet (loc_measure located) e minNoteX ->
    Map_get (noteMap props) (loc_measure located) = Some ns ->
    (mode props = PLAYBACK ->
     oneTimestampPerElement ns ->
     forall n el, In n ns -> element n = Some el ->
       color w' !! el = Some (noteColor hp (timestamp n)) /\
       (rm = TriReveal.NOTE ->
        opacity w' !! el = Some (noteOpacity hp (timestamp n)))) /\
    (mode props = RECORD ->
     forall n el, In n ns -> element n = Some el ->
       color w' !! el = Some defaultColor /\ opacity w' !! el = Some "1"%string).
Proof.
  intros doc props rm mcm t w osmd sheet c0 e minNoteX ns Ho Hl Hc Hs
         located hp w' Hgeo Hns.
  subst w'.
  rewrite (TriReveal_updateCursorPosition_run doc props rm mcm t w osmd sheet c0
             Ho Hl Hc Hs).
  fold located.
  destruct (TriReveal_frameBody_reaches doc props rm mcm sheet
              (loc_measure located) (progress located) e minNoteX Hgeo w)
    as (w3 & E).
  rewrite Hns in E. split; intros Hmode; rewrite Hmode in E.
  - intros Hone n el Hn Hel.
    assert (Hw : writes (forEach (TriReveal.highlightNote rm hp) ns ;; ret tt)
                        (flat_map (TriReveal_highlightWrites rm hp) ns ++ [])).
    { apply writes_seq; [|apply writes_ret].
      apply writes_forEach. intros a _. apply TriReveal_highlightNote_writes. }
    rewrite app_nil_r in Hw.
    rewrite (try_catch_log_normal _ _ w _ (eq_trans E (Hw w3))). simpl snd.
    apply TriReveal_highlight_loop; assumption.
  - intros n el Hn Hel.
    assert (Hw : writes (ret tt ;; forEach TriReveal.resetNote ns)
                        ([] ++ flat_map resetWrites ns)).
    { apply writes_seq; [apply writes_ret|].
      apply writes_forEach. intros a _. apply TriReveal_resetNote_writes. }
    simpl app in Hw.
    rewrite (try_catch_log_normal _ _ w _ (eq_trans E (Hw w3))). simpl snd.
    apply (reset_loop ns w3 n el Hn Hel).
Qed.

(** The playback half holds in the boolean viewer as well. *)
Theorem BoolReveal_playback_highlighting :
  forall (props : Props) (rm : bool) (beamsMap : JsMap (list Elem)) (t : Q)
         (w : World) (osmd : OSMD) (sheet : GraphicalMusicSheet) (c0 : CursorStyle)
         (e : Extent) (minNoteX : Q) (ns : list NoteData),
    osmdRef props = Some osmd ->
    isLoaded props = true ->
    cursor w = Some c0 ->
    GraphicSheet osmd = Some sheet ->
    let located := findCurrentMeasure (anchors props) t in
    let hp := frameHighlightProgress sheet located e minNoteX in
    let w' := snd (BoolReveal.updateCursorPosition props rm beamsMap t w) in
    frameGeometry sheet (loc_measure located) e minNoteX ->
    Map_get (noteMap props) (loc_measure located) = Some ns ->
    mode props = PLAYBACK ->
    oneTimestampPerElement ns ->
    forall n el, In n ns -> element n = Some el ->
      color w' !! el = Some (noteColor hp (timestamp n)) /\
      opacity w' !! el =
        Some (if rm then noteOpacity hp (timestamp n) else "1"%string).
Proof.
  intros props rm beamsMap t w osmd sheet c0 e minNoteX ns Ho Hl Hc Hs
         located hp w' Hgeo Hns Hmode Hone n el Hn Hel.
  subst w'.
  rewrite (BoolReveal_updateCursorPosition_run props rm beamsMap t w osmd sheet c0
             Ho Hl Hc Hs).
  fold located.
  destruct (BoolReveal_frameBody_reaches props rm beamsMap sheet
              (loc_measure located) (progress located) e minNoteX Hgeo w)
    as (w3 & E).
  rewrite Hns, Hmode in E.
  assert (Hw : writes (forEach (BoolReveal.highlightNote rm hp) ns ;; ret tt)
                      (flat_map (BoolReveal_highlightWrites rm hp) ns ++ [])).
  { apply writes_seq; [|apply writes_ret].
    apply writes_forEach. intros a _. apply BoolReveal_highlightNote_writes. }
  rewrite app_nil_r in Hw.
  rewrite (try_catch_log_normal _ _ w _ (eq_trans E (Hw w3))). simpl snd.
  apply BoolReveal_highlight_loop; assumption.
Qed.

(** In record mode the frame step of the boolean viewer, once it reaches a
    measure with a note that has an element, paints that note and throws:
    the error is logged, no opacity is written, and the notes after it are
    not touched. *)
Lemma BoolReveal_record_frame_throws :
  forall (props : Props) (rm : bool) (beamsMap : JsMap (list Elem)) (t : Q)
         (w : World) (osmd : OSMD) (sheet : GraphicalMusicSheet) (c0 : CursorStyle)
         (e : Extent) (minNoteX : Q) (pre post : list NoteData) (n : NoteData)
         (el : Elem),
    osmdRef props = Some osmd ->
    isLoaded props = true ->
    cursor w = Some c0 ->
    GraphicSheet osmd = Some sheet ->
    let located := findCurrentMeasure (anchors props) t in
    frameGeometry sheet (loc_measure located) e minNoteX ->
    Map_get (noteMap props) (loc_measure located) = Some (pre ++ n :: post) ->
    mode props = RECORD ->
    Forall (fun n' => element n' = None) pre ->
    element n = Some el ->
    exists w3,
      BoolReveal.updateCursorPosition props rm beamsMap t w =
        (Normal tt,
         console_error ("Error positioning cursor:" ++ TypeError_not_a_function)
           (applyWrites [SetColor el defaultColor] w3)).
Proof.
  intros props rm beamsMap t w osmd sheet c0 e minNoteX pre post n el
         Ho Hl Hc Hs located Hgeo Hns Hmode Hpre Hel.
  rewrite (BoolReveal_updateCursorPosition_run props rm beamsMap t w osmd sheet c0
             Ho Hl Hc Hs).
  fold located.
  destruct (BoolReveal_frameBody_reaches props rm beamsMap sheet
              (loc_measure located) (progress located) e minNoteX Hgeo w)
    as (w3 & E).
  rewrite Hns, Hmode in E. exists w3.
  apply try_catch_log_throw. rewrite E.
  unfold bind at 1. unfold ret at 1.
  apply BoolReveal_reset_loop_throws; assumption.
Qed.

(** ** The animation loop *)

(** The frame step and everything inside it leave the bookkeeping of
    [requestAnimationFrame] alone. *)
Lemma keeps_ret {A : Type} (a : A) : keepsSchedule (ret a).
Proof. intros w. split; reflexivity. Qed.

Lemma keeps_throw {A : Type} (msg : string) : keepsSchedule (@throw A msg).
Proof. intros w. split; reflexivity. Qed.

Lemma keeps_liftC {A : Type} (c : Completion A) : keepsSchedule (liftC c).
Proof. intros w. split; reflexivity. Qed.

Lemma keeps_gets {A : Type} (f : World -> A) : keepsSchedule (gets f).
Proof. intros w. split; reflexivity. Qed.

Lemma keeps_modify (f : World -> World) :
  (forall w, frameRequests (f w) = frameRequests w /\
             animationFrame (f w) = animationFrame w) ->
  keepsSchedule (modify f).
Proof. intros H w. apply H. Qed.

Lemma keeps_bind {A B : Type} (c : Cmd A) (k : A -> Cmd B) :
  keepsSchedule c -> (forall a, keepsSchedule (k a)) -> keepsSchedule (bind c k).
Proof.
  intros Hc Hk w. unfold bind. specialize (Hc w).
  destruct (c w) as [[a|msg] w1]; simpl in Hc.
  - destruct (Hk a w1) as [H1 H2]. destruct Hc as [H3 H4]. split; congruence.
  - exact Hc.
Qed.

Lemma keeps_forEach {A : Type} (f : A -> Cmd unit) (l : list A) :
  (forall a, keepsSchedule (f a)) -> keepsSchedule (forEach f l).
Proof.
  intros H. induction l as [|a tl IH]; simpl.
  - apply keeps_ret.
  - apply keeps_bind; [apply H | intros _; exact IH].
Qed.

Lemma keeps_try_catch_log (label : string) (body : Cmd unit) :
  keepsSchedule body -> keepsSchedule (try_catch_log label body).
Proof.
  intros H w. unfold try_catch_log. specialize (H w).
  destruct (body w) as [[[]|msg] w1]; exact H.
Qed.

Lemma keeps_setOpacity (el : Elem) (v : string) : keepsSchedule (setOpacity el v).
Proof. apply keeps_modify. intros w. split; reflexivity. Qed.

Lemma keeps_applyColor (el : Elem) (v : string) : keepsSchedule (applyColor el v).
Proof. apply keeps_modify. intros w. split; reflexivity. Qed.

Lemma keeps_paintCursor (m : AppMode) (x t h : Q) : keepsSchedule (paintCursor m x t h).
Proof. apply keeps_modify. intros w. split; reflexivity. Qed.

Lemma keeps_scrollLogic (x : Q) (i : Z) : keepsSchedule (scrollLogic x i).
Proof.
  apply keeps_modify. intros w. destruct (scrollContainer w); split; reflexivity.
Qed.

Lemma keeps_slideCurtain (r : TriReveal.RevealMode) (x : Q) : keepsSchedule (TriReveal.slideCurtain r x).
Proof.
  apply keeps_modify. intros w. destruct (curtain w); [|split; reflexivity].
  destruct r; split; reflexivity.
Qed.

Create HintDb schedule.
#[local] Hint Resolve keeps_ret keeps_throw keeps_liftC keeps_gets keeps_setOpacity
  keeps_applyColor keeps_paintCursor keeps_scrollLogic keeps_slideCurtain : schedule.

Ltac keeps :=
  repeat first
    [ progress auto with schedule
    | apply keeps_bind; [|intros ?]
    | apply keeps_forEach; intros ?
    | apply keeps_try_catch_log
    | apply keeps_modify; intros ?; split; reflexivity
    | match goal with
      | |- keepsSchedule (match ?x with _ => _ end) => destruct x
      end ].

Lemma keeps_BoolReveal_frameBody (props : Props) (rm : bool)
    (bm : JsMap (list Elem)) (sheet : GraphicalMusicSheet) (measure : Z) (prog : Q) :
  keepsSchedule (BoolReveal.frameBody props rm bm sheet measure prog).
Proof.
  unfold BoolReveal.frameBody, BoolReveal.updateMeasureVisibility,
    BoolReveal.highlightNote, BoolReveal.resetNote.
  keeps.
Qed.

Lemma keeps_TriReveal_frameBody (doc : Document) (props : Props)
    (rm : TriReveal.RevealMode) (bm : JsMap (list Elem))
    (sheet : GraphicalMusicSheet) (measure : Z) (prog : Q) :
  keepsSchedule (TriReveal.frameBody doc props rm bm sheet measure prog).
Proof.
  unfold TriReveal.frameBody, TriReveal.updateMeasureVisibility,
    TriReveal.highlightNote, TriReveal.resetNote.
  keeps.
Qed.

Lemma keeps_BoolReveal_updateCursorPosition (props : Props) (rm : bool)
    (bm : JsMap (list Elem)) (t : Q) :
  keepsSchedule (BoolReveal.updateCursorPosition props rm bm t).
Proof.
  intros w. unfold BoolReveal.updateCursorPosition.
  destruct (osmdRef props) as [osmd|]; [|split; reflexivity].
  destruct (isLoaded props); [|split; reflexivity].
  destruct (cursor w); [|split; reflexivity].
  destruct (GraphicSheet osmd); [|split; reflexivity].
  apply keeps_try_catch_log, keeps_BoolReveal_frameBody.
Qed.

Lemma keeps_TriReveal_updateCursorPosition (doc : Document) (props : Props)
    (rm : TriReveal.RevealMode) (bm : JsMap (list Elem)) (t : Q) :
  keepsSchedule (TriReveal.updateCursorPosition doc props rm bm t).
Proof.
  intros w. unfold TriReveal.updateCursorPosition.
  destruct (osmdRef props) as [osmd|]; [|split; reflexivity].
  destruct (isLoaded props); [|split; reflexivity].
  destruct (cursor w); [|split; reflexivity].
  destruct (GraphicSheet osmd); [|split; reflexivity].
  apply keeps_try_catch_log, keeps_TriReveal_frameBody.
Qed.

(** The frame step always returns to [animate]. *)
Lemma BoolReveal_updateCursorPosition_returns (props : Props) (rm : bool)
    (bm : JsMap (list Elem)) (t : Q) :
  returns (BoolReveal.updateCursorPosition props rm bm t).
Proof.
  intros w. unfold BoolReveal.updateCursorPosition.
  destruct (osmdRef props) as [osmd|]; [|apply returns_ret].
  destruct (isLoaded props); [|apply returns_ret].
  destruct (cursor w); [|apply returns_ret].
  destruct (GraphicSheet osmd); [|apply returns_ret].
  apply try_catch_log_returns.
Qed.

Lemma TriReveal_updateCursorPosition_returns (doc : Document) (props : Props)
    (rm : TriReveal.RevealMode) (bm : JsMap (list Elem)) (t : Q) :
  returns (TriReveal.updateCursorPosition doc props rm bm t).
Proof.
  intros w. unfold TriReveal.updateCursorPosition.
  destruct (osmdRef props) as [osmd|]; [|apply returns_ret].
  destruct (isLoaded props); [|apply returns_ret].
  destruct (cursor w); [|apply returns_ret].
  destruct (GraphicSheet osmd); [|apply returns_ret].
  apply try_catch_log_returns.
Qed.

(** A frame whose step returns and keeps the schedule requests the next
    frame. *)
Lemma animate_schedules (step : Q -> Cmd unit) (w : World) :
  (forall t, returns (step t)) ->
  (forall t, keepsSchedule (step t)) ->
  exists w',
    (let* audioTime := readAudioTime in step audioTime ;; requestAnimationFrame) w =
      (Normal tt, w') /\
    frameRequests w' = S (frameRequests w) /\
    animationFrame w' = Some (S (frameRequests w)).
Proof.
  intros Hret Hkeep. unfold bind at 1. unfold readAudioTime, gets.
  set (t := match currentTime w with Some t => t | None => 0 end).
  destruct (Hret t w) as (w1 & E). destruct (Hkeep t w) as [Hf Ha].
  rewrite E in Hf, Ha. simpl in Hf, Ha.
  unfold bind. rewrite E. unfold requestAnimationFrame, modify.
  eexists. split; [reflexivity|]. simpl. rewrite Hf. split; reflexivity.
Qed.

Lemma audioAdvances_run (t : Q) (w : World) :
  exists w1, audioAdvances t w = (Normal tt, w1) /\
             frameRequests w1 = frameRequests w.
Proof.
  unfold audioAdvances, modify. eexists. split; [reflexivity|].
  destruct (currentTime w); reflexivity.
Qed.

Lemma BoolReveal_frames_run (props : Props) (rm : bool) (bm : JsMap (list Elem))
    (audioTimes : list Q) :
  forall w, exists w',
    BoolReveal.frames props rm bm audioTimes w = (Normal tt, w') /\
    frameRequests w' = (frameRequests w + length audioTimes)%nat.
Proof.
  induction audioTimes as [|t tl IH]; intros w; simpl.
  - exists w. split; [reflexivity | lia].
  - destruct (audioAdvances_run t w) as (w1 & E1 & F1).
    destruct (animate_schedules (BoolReveal.updateCursorPosition props rm bm) w1
                (BoolReveal_updateCursorPosition_returns props rm bm)
                (keeps_BoolReveal_updateCursorPosition props rm bm))
      as (w2 & E2 & F2 & _).
    destruct (IH w2) as (w3 & E3 & F3).
    exists w3. split; [|lia].
    unfold bind at 1. rewrite E1. unfold bind at 1.
    unfold BoolReveal.animate. rewrite E2. exact E3.
Qed.

Lemma TriReveal_frames_run (doc : Document) (props : Props)
    (rm : TriReveal.RevealMode) (bm : JsMap (list Elem)) (audioTimes : list Q) :
  forall w, exists w',
    TriReveal.frames doc props rm bm audioTimes w = (Normal tt, w') /\
    frameRequests w' = (frameRequests w + length audioTimes)%nat.
Proof.
  induction audioTimes as [|t tl IH]; intros w; simpl.
  - exists w. split; [reflexivity | lia].
  - destruct (audioAdvances_run t w) as (w1 & E1 & F1).
    destruct (animate_schedules (TriReveal.updateCursorPosition doc props rm bm) w1
                (TriReveal_updateCursorPosition_returns doc props rm bm)
                (keeps_TriReveal_updateCursorPosition doc props rm bm))
      as (w2 & E2 & F2 & _).
    destruct (IH w2) as (w3 & E3 & F3).
    exists w3. split; [|lia].
    unfold bind at 1. rewrite E1. unfold bind at 1.
    unfold TriReveal.animate. rewrite E2. exact E3.
Qed.

(** C8.  An exception raised inside the [try] block of the frame step is
    caught and logged: the step returns normally with the world as the
    throw left it (the updates after the throw are not made) and one more
    line on the console.  The frame step therefore always returns; every
    call of [animate] returns and requests the next frame; and a run of
    frames of any length completes, with one request per frame.  This holds
    in both viewers. *)
Theorem frame_exceptions_never_stop_the_loop :
  (forall props rm bm t w osmd sheet c0 msg w1,
      osmdRef props = Some osmd ->
      isLoaded props = true ->
      cursor w = Some c0 ->
      GraphicSheet osmd = Some sheet ->
      BoolReveal.frameBody props rm bm sheet
        (loc_measure (findCurrentMeasure (anchors props) t))
        (progress (findCurrentMeasure (anchors props) t)) w = (Throw msg, w1) ->
      BoolReveal.updateCursorPosition props rm bm t w =
        (Normal tt, console_error ("Error positioning cursor:" ++ msg) w1)) /\
  (forall props rm bm t, returns (BoolReveal.updateCursorPosition props rm bm t)) /\
  (forall props rm bm w, exists w',
      BoolReveal.animate props rm bm w = (Normal tt, w') /\
      frameRequests w' = S (frameRequests w) /\
      animationFrame w' = Some (S (frameRequests w))) /\
  (forall props rm bm audioTimes w, exists w',
      BoolReveal.frames props rm bm audioTimes w = (Normal tt, w') /\
      frameRequests w' = (frameRequests w + length audioTimes)%nat) /\
  (forall doc props rm mcm t w osmd sheet c0 msg w1,
      osmdRef props = Some osmd ->
      isLoaded props = true ->
      cursor w = Some c0 ->
      GraphicSheet osmd = Some sheet ->
      TriReveal.frameBody doc props rm mcm sheet
        (loc_measure (findCurrentMeasure (anchors props) t))
        (progress (findCurrentMeasure (anchors props) t)) w = (Throw msg, w1) ->
      TriReveal.updateCursorPosition doc props rm mcm t w =
        (Normal tt, console_error ("Error positioning cursor:" ++ msg) w1)) /\
  (forall doc props rm mcm t,
      returns (TriReveal.updateCursorPosition doc props rm mcm t)) /\
  (forall doc props rm mcm w, exists w',
      TriReveal.animate doc props rm mcm w = (Normal tt, w') /\
      frameRequests w' = S (frameRequests w) /\
      animationFrame w' = Some (S (frameRequests w))) /\
  (forall doc props rm mcm audioTimes w, exists w',
      TriReveal.frames doc props rm mcm audioTimes w = (Normal tt, w') /\
      frameRequests w' = (frameRequests w + length audioTimes)%nat).
Proof.
  repeat split.
  - intros props rm bm t w osmd sheet c0 msg w1 Ho Hl Hc Hs Hthrow.
    rewrite (BoolReveal_updateCursorPosition_run props rm bm t w osmd sheet c0
               Ho Hl Hc Hs).
    apply try_catch_log_throw, Hthrow.
  - intros props rm bm t. apply BoolReveal_updateCursorPosition_returns.
  - intros props rm bm w.
    apply (animate_schedules (BoolReveal.updateCursorPosition props rm bm) w).
    + apply BoolReveal_updateCursorPosition_returns.
    + apply keeps_BoolReveal_updateCursorPosition.
  - intros props rm bm audioTimes w. apply BoolReveal_frames_run.
  - intros doc props rm mcm t w osmd sheet c0 msg w1 Ho Hl Hc Hs Hthrow.
    rewrite (TriReveal_updateCursorPosition_run doc props rm mcm t w osmd sheet c0
               Ho Hl Hc Hs).
    apply try_catch_log_throw, Hthrow.
  - intros doc props rm mcm t. apply TriReveal_updateCursorPosition_returns.
  - intros doc props rm mcm w.
    apply (animate_schedules (TriReveal.updateCursorPosition doc props rm mcm) w).
    + apply TriReveal_updateCursorPosition_returns.
    + apply keeps_TriReveal_updateCursorPosition.
  - intros doc props rm mcm audioTimes w. apply TriReveal_frames_run.
Qed.

(** On the score with the missing staff measure the geometry loop throws in
    the first frame; the error is on the console and the cursor has not
    been painted. *)
Lemma frame_exceptions_never_stop_the_loop_witness :
  TriReveal.updateCursorPosition sampleDocument brokenProps TriReveal.NOTE [] 0
    sampleWorld =
  (Normal tt,
   console_error ("Error positioning cursor:" ++ TypeError_undefined) sampleWorld).
Proof.
  apply (proj1 (proj2 (proj2 (proj2 (proj2 frame_exceptions_never_stop_the_loop))))
           sampleDocument brokenProps TriReveal.NOTE [] 0 sampleWorld
           (mkOSMD (Some brokenSheet)) brokenSheet
           (mkCursorStyle 0 0 100 "none" "" "")).
  - reflexivity.
  - reflexivity.
  - reflexivity.
  - reflexivity.
  - reflexivity.
Defined.

(** The loop goes on after the exception: three frames on the broken score
    leave three errors on the console and three requests made. *)
Example broken_score_three_frames :
  let w' := snd (TriReveal.frames sampleDocument brokenProps TriReveal.NOTE []
                   [0; 1#60; 2#60] sampleWorld) in
  length (console w') = 3%nat /\ frameRequests w' = 3%nat /\
  animationFrame w' = Some 3%nat.
Proof. cbv zeta. repeat split; vm_compute; reflexivity. Qed.

(** ** Record mode in the two viewers *)

(** C6 holds in the three-state viewer ([TriReveal_note_highlighting]) and,
    for playback mode, in the boolean viewer
    ([BoolReveal_playback_highlighting]).  In record mode the boolean viewer
    does not reset the notes.  On the sample score with the anchors (1,0),
    (2,10): a playback frame in reveal mode at time 1 hides the second note
    of measure 1 (element 4), and a playback frame at time 5.43 highlights
    it.  A record frame that follows leaves element 4 hidden in the first
    case and highlighted in the second, and logs the [TypeError]; the
    three-state viewer, from the same worlds, gives it opacity 1 and the
    default color. *)
Theorem record_reset_throws_in_boolean_viewer :
  let playing := sampleProps sampleAnchors PLAYBACK sampleNoteMap in
  let recording := sampleProps sampleAnchors RECORD sampleNoteMap in
  let hidden :=
    snd (BoolReveal.updateCursorPosition playing true sampleBeamsMap 1 sampleWorld) in
  let lit :=
    snd (BoolReveal.updateCursorPosition playing true sampleBeamsMap (543#100)
           sampleWorld) in
  let afterHidden :=
    snd (BoolReveal.updateCursorPosition recording true sampleBeamsMap 1 hidden) in
  let afterLit :=
    snd (BoolReveal.updateCursorPosition recording true sampleBeamsMap (543#100) lit) in
  let triAfterHidden :=
    snd (TriReveal.updateCursorPosition sampleDocument recording TriReveal.NOTE
           sampleContentMap 1 hidden) in
  let triAfterLit :=
    snd (TriReveal.updateCursorPosition sampleDocument recording TriReveal.NOTE
           sampleContentMap (543#100) lit) in
  (opacity hidden !! 4%nat = Some "0"%string /\
   opacity afterHidden !! 4%nat = Some "0"%string /\
   opacity triAfterHidden !! 4%nat = Some "1"%string) /\
  (color lit !! 4%nat = Some highlightColor /\
   color afterLit !! 4%nat = Some highlightColor /\
   color triAfterLit !! 4%nat = Some defaultColor) /\
  console afterHidden =
    ["Error positioning cursor:" ++ TypeError_not_a_function]%string /\
  console triAfterHidden = [].
Proof.
  cbv zeta. repeat split; vm_compute; reflexivity.
Qed.

(** The maps of the sample score are the ones the geometry mappers build. *)
Example sample_maps :
  BoolReveal.calculateNoteMap sampleDocument (Some (mkOSMD (Some sampleSheet)))
    (Some (mkRect 0 0 300 300)) = Normal (Some (sampleNoteMap, sampleBeamsMap)) /\
  TriReveal.calculateNoteMap sampleDocument (Some (mkOSMD (Some sampleSheet)))
    (Some (mkRect 0 0 300 300)) = Normal (Some (sampleNoteMap, sampleContentMap)).
Proof. split; reflexivity. Qed.

(** ** The geometry mapper on malformed layouts *)

Lemma BoolReveal_measureStavesNotes_shapeless (doc : Document) (u : Q) (n : Z)
    (staves : list (option GraphicalMeasure)) (staffMeasure : GraphicalMeasure) :
  In (Some staffMeasure) staves ->
  PositionAndShape staffMeasure = None ->
  forall acc, exists msg,
    BoolReveal.measureStavesNotes doc u n staves acc = Throw msg.
Proof.
  intros Hin Hnone. induction staves as [|s tl IH]; [destruct Hin|].
  intros acc. destruct Hin as [-> | Hin]; simpl.
  - unfold staffMeasureNotes. rewrite Hnone. simpl. eexists. reflexivity.
  - destruct s as [sm|]; [|apply IH, Hin].
    destruct (staffMeasureNotes doc u n sm acc) as [pushed|msg]; simpl.
    + apply IH, Hin.
    + eexists. reflexivity.
Qed.

(** The note pass of the boolean viewer throws on every score that has a
    staff measure without bounding shape. *)
Lemma BoolReveal_mapNotes_shapeless (doc : Document) (u : Q)
    (rest : list MeasureStaves) :
  hasShapelessMeasure rest ->
  forall i acc, exists msg, BoolReveal.mapNotes doc u i rest acc = Throw msg.
Proof.
  intros (staves & sm & Hin & Hsm & Hnone).
  induction rest as [|ms tl IH]; [destruct Hin|].
  intros i acc. simpl.
  destruct Hin as [-> | Hin].
  - destruct staves as [|s0 staves']; [destruct Hsm|].
    destruct (BoolReveal_measureStavesNotes_shapeless doc u (i + 1) _ sm Hsm Hnone [])
      as (msg & ->).
    simpl. eexists. reflexivity.
  - destruct ms as [[|s0 staves']|]; try (apply IH, Hin).
    destruct (BoolReveal.measureStavesNotes doc u (i + 1) (s0 :: staves') [])
      as [ns|msg]; simpl.
    + apply IH, Hin.
    + eexists. reflexivity.
Qed.

Lemma TriReveal_boundsExtent_shapeless
    (staves : list (option GraphicalMeasure)) (staffMeasure : GraphicalMeasure) :
  In (Some staffMeasure) staves ->
  PositionAndShape staffMeasure = None ->
  forall lo hi, exists msg, TriReveal.boundsExtent staves lo hi = Throw msg.
Proof.
  intros Hin Hnone. induction staves as [|s tl IH]; [destruct Hin|].
  intros lo hi. destruct Hin as [-> | Hin]; simpl.
  - rewrite Hnone. eexists. reflexivity.
  - destruct s as [sm|]; [|eexists; reflexivity].
    destruct (PositionAndShape sm); [apply IH, Hin | eexists; reflexivity].
Qed.

(** So does the bounds pass of the three-state viewer. *)
Lemma TriReveal_measureBoundsFrom_shapeless (u : Q) (rest : list MeasureStaves) :
  hasShapelessMeasure rest ->
  forall i acc, exists msg, TriReveal.measureBoundsFrom u i rest acc = Throw msg.
Proof.
  intros (staves & sm & Hin & Hsm & Hnone).
  induction rest as [|ms tl IH]; [destruct Hin|].
  intros i acc. simpl.
  destruct Hin as [-> | Hin].
  - destruct (TriReveal_boundsExtent_shapeless staves sm Hsm Hnone
                Number_MAX_VALUE Number_MIN_VALUE) as (msg & ->).
    simpl. eexists. reflexivity.
  - destruct ms as [staves'|]; [|eexists; reflexivity].
    destruct (TriReveal.boundsExtent staves' Number_MAX_VALUE Number_MIN_VALUE)
      as [[lo hi]|msg]; simpl.
    + apply IH, Hin.
    + eexists. reflexivity.
Qed.

(** Whenever the guards of [calculateNoteMap] pass, a staff measure without
    bounding shape makes the whole pass throw, in both viewers: no map is
    produced. *)
Lemma calculateNoteMap_shapeless_throws (doc : Document) (sheet : GraphicalMusicSheet)
    (containerRect : DOMRect) :
  hasShapelessMeasure (MeasureList sheet) ->
  (exists msg,
      BoolReveal.calculateNoteMap doc (Some (mkOSMD (Some sheet))) (Some containerRect)
      = Throw msg) /\
  (exists msg,
      TriReveal.calculateNoteMap doc (Some (mkOSMD (Some sheet))) (Some containerRect)
      = Throw msg).
Proof.
  intros H. split.
  - unfold BoolReveal.calculateNoteMap. simpl.
    destruct (BoolReveal_mapNotes_shapeless doc (unitInPixelsOf sheet) _ H 0%Z [])
      as (msg & ->).
    simpl. eexists. reflexivity.
  - unfold TriReveal.calculateNoteMap. simpl.
    destruct (TriReveal_measureBoundsFrom_shapeless (unitInPixelsOf sheet) _ H 0%Z [])
      as (msg & ->).
    simpl. eexists. reflexivity.
Qed.

(** A quotient by a width of zero is not a finite number. *)
Lemma js_div_zero (a : Q) : forall q, js_div a 0 <> Fin q.
Proof.
  intros q. unfold js_div. simpl.
  destruct (Qeq_bool a 0); [discriminate|].
  destruct (Qltb 0 a); discriminate.
Qed.

(** C7, evaluated.  On the sample score with the second measure lacking its
    bounding shape, [calculateNoteMap] throws in both viewers, so the notes
    of the well-formed measures 1 and 3 are not mapped either.  On the
    sample score with the second measure of width zero the pass completes,
    but the measure is not skipped: its note is entered under measure 2 with
    the timestamp [Infinity]. *)
Theorem calculateNoteMap_malformed_layout :
  let osmdOf := fun sheet => Some (mkOSMD (Some sheet)) in
  let containerRect := Some (mkRect 0 0 300 300) in
  hasShapelessMeasure (MeasureList shapelessSheet) /\
  BoolReveal.calculateNoteMap sampleDocument (osmdOf shapelessSheet) containerRect
    = Throw TypeError_undefined /\
  TriReveal.calculateNoteMap sampleDocument (osmdOf shapelessSheet) containerRect
    = Throw TypeError_undefined /\
  (exists noteMap beamsMap,
      BoolReveal.calculateNoteMap sampleDocument (osmdOf zeroWidthSheet) containerRect
        = Normal (Some (noteMap, beamsMap)) /\
      Map_get noteMap 2 =
        Some [{| note_id := "n3"; measureIndex := 2;
                 timestamp := PosInfinity; element := Some 2%nat |}]) /\
  (exists noteMap contentMap,
      TriReveal.calculateNoteMap sampleDocument (osmdOf zeroWidthSheet) containerRect
        = Normal (Some (noteMap, contentMap)) /\
      Map_get noteMap 2 =
        Some [{| note_id := "n3"; measureIndex := 2;
                 timestamp := PosInfinity; element := Some 2%nat |}]).
Proof.
  cbv zeta. split; [|split; [|split; [|split]]].
  - eexists. eexists. split; [right; left; reflexivity|].
    split; [left; reflexivity | reflexivity].
  - reflexivity.
  - reflexivity.
  - eexists. eexists. split; reflexivity.
  - eexists. eexists. split; reflexivity.
Qed.

(** ** The glyph maps the mappers build *)

Lemma glyphsOf_Map_set (m : JsMap (list Elem)) (k : Z) (l : list Elem) (j : Z) (x : Elem) :
  In (j, x) (glyphsOf elemsOf (Map_set m k l)) ->
  In (j, x) (glyphsOf elemsOf m) \/ (j = k /\ In x l).
Proof.
  induction m as [|[k' l'] tl IH]; simpl.
  - rewrite app_nil_r. intros H. apply in_map_iff in H.
    destruct H as (e & [= <- <-] & He). right. split; [reflexivity | exact He].
  - destruct (k' =? k)%Z eqn:E; simpl; intros H; apply in_app_or in H.
    + destruct H as [H|H].
      * apply in_map_iff in H. destruct H as (e & [= <- <-] & He).
        right. split; [reflexivity | exact He].
      * left. apply in_or_app. right. exact H.
    + destruct H as [H|H].
      * left. apply in_or_app. left. exact H.
      * destruct (IH H) as [G|G]; [left; apply in_or_app; right; exact G | right; exact G].
Qed.

Lemma Map_get_glyphs (m : JsMap (list Elem)) (k : Z) (l : list Elem) (x : Elem) :
  Map_get m k = Some l -> In x l -> In (k, x) (glyphsOf elemsOf m).
Proof.
  induction m as [|[k' l'] tl IH]; simpl; [discriminate|].
  destruct (Z.eqb_spec k' k) as [->|Hne].
  - intros [= ->] Hx. apply in_or_app. left.
    apply in_map_iff. exists x. split; [reflexivity | exact Hx].
  - intros Hg Hx. apply in_or_app. right. apply IH; assumption.
Qed.

Lemma glyphsOf_Map_push (m : JsMap (list Elem)) (k : Z) (el : Elem) (j : Z) (x : Elem) :
  In (j, x) (glyphsOf elemsOf (Map_push m k el)) ->
  In (j, x) (glyphsOf elemsOf m) \/ (j = k /\ x = el).
Proof.
  unfold Map_push. destruct (Map_get m k) as [l|] eqn:E; intros H;
    apply glyphsOf_Map_set in H; destruct H as [H|[-> H]]; auto.
  - apply in_app_or in H. destruct H as [H|[<-|[]]]; [|right; auto].
    left. apply (Map_get_glyphs m k l x E H).
  - destruct H as [<-|[]]. right. auto.
Qed.

(** Filing distinct glyphs one by one, each under one measure, never files a
    glyph twice. *)
Lemma filing_oneMeasure {B : Type} (pick : Elem -> option B) (key : B -> Z)
    (els : list Elem) :
  forall (m : JsMap (list Elem)),
    NoDup els ->
    oneMeasurePerGlyph (glyphsOf elemsOf m) ->
    (forall j x, In (j, x) (glyphsOf elemsOf m) -> ~ In x els) ->
    oneMeasurePerGlyph
      (glyphsOf elemsOf
         (fold_left (fun acc el => match pick el with
                                   | Some b => Map_push acc (key b) el
                                   | None => acc
                                   end) els m)).
Proof.
  induction els as [|el tl IH]; intros m Hnd Hone Hfresh; simpl; [exact Hone|].
  inversion Hnd as [|? ? Hel Htl]; subst.
  apply IH; [exact Htl | |].
  - destruct (pick el) as [b|]; [|exact Hone].
    intros m1 m2 x H1 H2.
    apply glyphsOf_Map_push in H1. apply glyphsOf_Map_push in H2.
    destruct H1 as [H1|[E1 X1]], H2 as [H2|[E2 X2]].
    + apply (Hone m1 m2 x H1 H2).
    + exfalso. apply (Hfresh _ _ H1). left. congruence.
    + exfalso. apply (Hfresh _ _ H2). left. congruence.
    + congruence.
  - intros j x H Hx.
    destruct (pick el) as [b|].
    + apply glyphsOf_Map_push in H. destruct H as [H|[E1 X1]].
      * apply (Hfresh _ _ H). now right.
      * subst x. contradiction.
    + apply (Hfresh _ _ H). now right.
Qed.

(** The content map of the three-state viewer and the beams map of the
    boolean viewer file each glyph under one measure, the document returning
    each element once. *)
Lemma TriReveal_mapContent_oneMeasure (doc : Document) (containerRect : DOMRect)
    (measureBounds : list TriReveal.MeasureBound) :
  NoDup (querySelectorAll_glyphs doc) ->
  oneMeasurePerGlyph
    (glyphsOf elemsOf (TriReveal.mapContent doc containerRect measureBounds)).
Proof.
  intros Hnd. unfold TriReveal.mapContent.
  apply (filing_oneMeasure _ TriReveal.bound_index); [exact Hnd | |].
  - intros m1 m2 x [].
  - intros j x [].
Qed.

Lemma BoolReveal_mapBeams_oneMeasure (doc : Document)
    (newNoteMap : JsMap (list NoteData)) :
  NoDup (getElementsByClassName_vf_beam doc) ->
  oneMeasurePerGlyph (glyphsOf elemsOf (BoolReveal.mapBeams doc newNoteMap)).
Proof.
  intros Hnd. unfold BoolReveal.mapBeams.
  apply (filing_oneMeasure _ (fun m : Z => m)); [exact Hnd | |].
  - intros m1 m2 x [].
  - intros j x [].
Qed.

(** ** Further properties of [findCurrentMeasure] *)

Lemma Math_clamp_bounds (x : Q) :
  0 <= Math_max 0 (Math_min 1 x) /\ Math_max 0 (Math_min 1 x) <= 1.
Proof.
  unfold Math_max, Math_min.
  destruct (Qltb x 1) eqn:E1; [apply Qltb_lt in E1 | apply Qltb_ge in E1].
  - destruct (Qltb 0 x) eqn:E2; [apply Qltb_lt in E2 | apply Qltb_ge in E2];
      split; lra.
  - destruct (Qltb 0 1) eqn:E2; [apply Qltb_lt in E2 | apply Qltb_ge in E2];
      split; lra.
Qed.

(** X1.  The progress returned by [findCurrentMeasure] is a fraction between
    0 and 1, for every anchor list and every query time. *)
Theorem progress_in_unit_interval :
  forall (anchors : list Anchor) (t : Q),
    0 <= progress (findCurrentMeasure anchors t) /\
    progress (findCurrentMeasure anchors t) <= 1.
Proof.
  intros anchors t. destruct anchors as [|a0 tl]; [simpl; split; lra|].
  unfold findCurrentMeasure. cbv zeta. simpl progress.
  destruct (measureEndTime _) as [e|]; [|split; lra].
  destruct (Qltb _ e); [apply Math_clamp_bounds | split; lra].
Qed.

(** The state of the scan on the sorted anchors, by cases on whether any
    anchor is at or before the query time. *)
Lemma scanAnchors_cases (anchors : list Anchor) (t : Q) (st : ScanState) :
  (Forall (after t) anchors /\
   scanAnchors t (stableSort byTime anchors) st = st) \/
  (exists a next,
      latestAtOrBefore anchors t a /\
      scanAnchors t (stableSort byTime anchors) st = mkScan (measure a) (time a) next /\
      match next with
      | Some e => t < e
      | None => forall b, In b anchors -> time b <= t
      end).
Proof.
  pose proof (sortedAnchors_timeSorted anchors) as Hs.
  assert (Hin : forall x, In x (stableSort byTime anchors) <-> In x anchors)
    by (intros x; apply stableSort_In).
  remember (stableSort byTime anchors) as sorted eqn:Esorted. clear Esorted.
  destruct (timeSorted_split t sorted Hs) as (pre & post & -> & Hpre & Hpost).
  destruct (list_snoc_cases pre) as [-> | (pre' & w & ->)].
  - left. simpl in *. split.
    + rewrite Forall_forall in *. intros x Hx. apply Hpost, Hin, Hx.
    + apply scanAnchors_after, Hpost.
  - right. exists w, (headTime post).
    assert (Hw : time w <= t).
    { rewrite Forall_forall in Hpre. apply Hpre, in_or_app. right. now left. }
    split; [|split].
    + split; [apply Hin, in_or_app; left; apply in_or_app; right; now left|].
      split; [exact Hw|].
      intros b Hb Hbt. apply Hin in Hb. apply in_app_or in Hb.
      destruct Hb as [Hb|Hb].
      * apply (timeSorted_snoc_le pre' w); [|exact Hb].
        apply (timeSorted_app_l _ post), Hs.
      * rewrite Forall_forall in Hpost. specialize (Hpost b Hb).
        unfold after in Hpost. lra.
    + apply scanAnchors_split; assumption.
    + destruct post as [|c post]; simpl.
      * intros b Hb. apply Hin in Hb. rewrite app_nil_r in Hb.
        rewrite Forall_forall in Hpre. apply Hpre, Hb.
      * inversion Hpost; subst. assumption.
Qed.

(** X2.  The measure returned is never invented: either no anchor is at or
    before the query time and the result is measure 1 with progress 0, or
    the measure is that of an anchor with the latest time at or before the
    query time. *)
Theorem active_anchor_is_latest_at_or_before :
  forall (anchors : list Anchor) (t : Q),
    ((forall a, In a anchors -> t < time a) /\
     findCurrentMeasure anchors t = mkLocated 1 0) \/
    (exists a, latestAtOrBefore anchors t a /\
               loc_measure (findCurrentMeasure anchors t) = measure a).
Proof.
  intros anchors t.
  destruct (scanAnchors_cases anchors t (mkScan 1 0 None))
    as [[Hall E] | (a & next & Ha & E & _)].
  - left. split.
    + rewrite Forall_forall in Hall. exact Hall.
    + apply findCurrentMeasure_before_all, Hall.
  - right. exists a. split; [exact Ha|].
    destruct anchors as [|a0 tl]; [destruct Ha as [[] _]|].
    unfold findCurrentMeasure. cbv zeta. rewrite E. reflexivity.
Qed.

Lemma clamp_of_zero (x : Q) : x == 0 -> Math_max 0 (Math_min 1 x) == 0.
Proof.
  intros Hx. unfold Math_max, Math_min.
  destruct (Qltb x 1) eqn:E1; [apply Qltb_lt in E1 | apply Qltb_ge in E1].
  - destruct (Qltb 0 x) eqn:E2; [apply Qltb_lt in E2; lra | reflexivity].
  - lra.
Qed.

(** At the time of an anchor the cursor stands at the start of a
    measure: the progress is 0 and the measure is that of an anchor at that
    very time; when the anchors have distinct times it is the measure of the
    anchor itself. *)
Lemma findCurrentMeasure_at_anchor_time :
  forall (anchors : list Anchor) (a : Anchor),
    In a anchors ->
    progress (findCurrentMeasure anchors (time a)) == 0 /\
    (exists w, In w anchors /\ time w == time a /\
               loc_measure (findCurrentMeasure anchors (time a)) = measure w) /\
    (distinctTimes anchors ->
     loc_measure (findCurrentMeasure anchors (time a)) = measure a).
Proof.
  intros anchors a Ha.
  destruct (scanAnchors_cases anchors (time a) (mkScan 1 0 None))
    as [[Hall _] | (w & next & (Hw & Hwt & Hmax) & E & Hnext)].
  { rewrite Forall_forall in Hall. specialize (Hall a Ha).
    unfold after in Hall. lra. }
  assert (Heq : time w == time a).
  { specialize (Hmax a Ha ltac:(lra)). lra. }
  destruct anchors as [|a0 tl]; [destruct Ha|].
  unfold findCurrentMeasure. cbv zeta. rewrite E. simpl.
  split; [|split].
  - destruct next as [e|]; [|reflexivity].
    destruct (Qltb (time w) e); [|reflexivity].
    apply clamp_of_zero. rewrite Heq. field. lra.
  - exists w. repeat split; assumption.
  - intros Hd. f_equal. apply Hd; assumption.
Qed.

(** X3.  At the time of an anchor the cursor stands at the start of a
    measure: the progress is 0 and the measure is that of an anchor at that
    very time; when the anchors have distinct times it is the measure of the
    anchor itself. *)
Theorem locate_at_anchor_time :
  forall (anchors : list Anchor) (a : Anchor),
    In a anchors ->
    progress (findCurrentMeasure anchors (time a)) == 0 /\
    (exists w, In w anchors /\ time w == time a /\
               loc_measure (findCurrentMeasure anchors (time a)) = measure w) /\
    (distinctTimes anchors ->
     loc_measure (findCurrentMeasure anchors (time a)) = measure a).
Proof. exact findCurrentMeasure_at_anchor_time. Qed.

Lemma locate_at_anchor_time_witness :
  progress (findCurrentMeasure [mkAnchor 1 0; mkAnchor 2 10; mkAnchor 4 25] 10) == 0.
Proof.
  apply (locate_at_anchor_time [mkAnchor 1 0; mkAnchor 2 10; mkAnchor 4 25]
           (mkAnchor 2 10)).
  right. now left.
Defined.

(** Two sorted lists with the same elements are the same list, when anchors
    at the same time are the same anchor. *)
Lemma timeSorted_unique (l1 : list Anchor) :
  forall l2,
    timeSorted l1 -> timeSorted l2 -> Permutation l1 l2 ->
    distinctTimes l1 -> l1 = l2.
Proof.
  induction l1 as [|a l1 IH]; intros l2 H1 H2 Hp Hd.
  - apply Permutation_nil in Hp. now subst.
  - destruct l2 as [|b l2].
    { apply Permutation_sym, Permutation_nil in Hp. discriminate. }
    inversion H1 as [|? ? Hs1 Ha]; subst. inversion H2 as [|? ? Hs2 Hb]; subst.
    assert (Hab : a = b).
    { assert (Hb1 : In b (a :: l1))
        by (apply (Permutation_in _ (Permutation_sym Hp)); now left).
      assert (Ha2 : In a (b :: l2)) by (apply (Permutation_in _ Hp); now left).
      apply Hd; [now left | exact Hb1 |].
      assert (L1 : time a <= time b).
      { destruct Hb1 as [<-|Hb1]; [lra|].
        rewrite Forall_forall in Ha. specialize (Ha b Hb1).
        unfold byTime in Ha. apply Qleb_le, Ha. }
      assert (L2 : time b <= time a).
      { destruct Ha2 as [<-|Ha2]; [lra|].
        rewrite Forall_forall in Hb. specialize (Hb a Ha2).
        unfold byTime in Hb. apply Qleb_le, Hb. }
      lra. }
    subst b. f_equal. apply IH; try assumption.
    + apply (Permutation_cons_inv Hp).
    + intros x y Hx Hy. apply Hd; now right.
Qed.

(** X4.  When no two anchors stand at the same time, the order in which
    the anchors are listed does not matter: any rearrangement of the list
    gives the same result at every query time. *)
Theorem locate_invariant_under_reordering :
  forall (anchors anchors' : list Anchor) (t : Q),
    Permutation anchors anchors' ->
    distinctTimes anchors ->
    findCurrentMeasure anchors t = findCurrentMeasure anchors' t.
Proof.
  intros anchors anchors' t Hp Hd.
  assert (Hsort : stableSort byTime anchors = stableSort byTime anchors').
  { apply timeSorted_unique; try apply sortedAnchors_timeSorted.
    - apply Permutation_trans with anchors; [apply stableSort_perm|].
      apply Permutation_trans with anchors'; [exact Hp|].
      apply Permutation_sym, stableSort_perm.
    - intros x y Hx Hy. apply Hd; apply (stableSort_In byTime); assumption. }
  destruct anchors as [|a0 tl].
  - apply Permutation_nil in Hp. subst. reflexivity.
  - destruct anchors' as [|b0 tl'].
    { apply Permutation_sym, Permutation_nil in Hp. discriminate. }
    unfold findCurrentMeasure. rewrite Hsort. reflexivity.
Qed.

Lemma locate_invariant_under_reordering_witness :
  findCurrentMeasure [mkAnchor 1 0; mkAnchor 2 10; mkAnchor 4 25] 12 =
  findCurrentMeasure [mkAnchor 4 25; mkAnchor 1 0; mkAnchor 2 10] 12.
Proof.
  apply locate_invariant_under_reordering.
  - apply Permutation_sym.
    apply (Permutation_cons_app [mkAnchor 1 0; mkAnchor 2 10] [] (mkAnchor 4 25)).
    rewrite app_nil_r. apply Permutation_refl.
  - intros a b Ha Hb Hab. simpl in Ha, Hb.
    destruct Ha as [<-|[<-|[<-|[]]]], Hb as [<-|[<-|[<-|[]]]];
      try reflexivity; simpl in Hab; discriminate.
Defined.

(** ** Further properties of [handleScoreClick] *)

(** The three outcomes of the handler. *)
Lemma handleScoreClick_outcomes (props : Props) (event : MouseEvent) (w : World) :
  (exists msg, handleScoreClick props event w = (Throw msg, w)) \/
  handleScoreClick props event w = (Normal tt, w) \/
  (exists a t0,
      In a (anchors props) /\ currentTime w = Some t0 /\
      handleScoreClick props event w =
        (Normal tt, set_currentTime (Some (time a)) w)).
Proof.
  destruct (osmdRef props) as [osmd|] eqn:Ho;
    [|right; left; unfold handleScoreClick; rewrite Ho; reflexivity].
  destruct (GraphicSheet osmd) as [sheet|] eqn:Hs;
    [|right; left; unfold handleScoreClick; rewrite Ho, Hs; reflexivity].
  destruct (container w) as [rect|] eqn:Hc;
    [|right; left; unfold handleScoreClick; rewrite Ho, Hs, Hc; reflexivity].
  rewrite (handleScoreClick_run props event w osmd sheet rect Ho Hs Hc).
  destruct (clickedMeasureFrom _ _ _ _ _) as [k|msg];
    [|left; exists msg; reflexivity].
  right. destruct (k =? -1)%Z; [now left|].
  destruct (targetAnchorOf (anchors props) (k + 1)) as [a|] eqn:Ea; [|now left].
  destruct (currentTime w) as [t0|] eqn:Et; [|now left].
  right. exists a, t0. split; [|split; reflexivity].
  apply (targetAnchorOf_nearest _ _ _ Ea).
Qed.

(** X5.  A click changes nothing but the audio clock, and the clock only to
    the time of one of the anchors: the world after the handler is the world
    before it, or the world before it with the clock set to an anchor's
    time; a handler that throws has written nothing. *)
Theorem click_changes_only_the_clock :
  forall (props : Props) (event : MouseEvent) (w : World),
    let outcome := handleScoreClick props event w in
    (snd outcome = w \/
     exists a, In a (anchors props) /\
               snd outcome = set_currentTime (Some (time a)) w) /\
    (forall msg, fst outcome = Throw msg -> snd outcome = w).
Proof.
  intros props event w outcome. subst outcome.
  destruct (handleScoreClick_outcomes props event w)
    as [(msg & ->) | [-> | (a & t0 & Ha & _ & ->)]]; simpl.
  - split; [now left | reflexivity].
  - split; [now left | discriminate].
  - split; [right; exists a; split; [exact Ha | reflexivity] | discriminate].
Qed.

(** X6.  Clicking the same point twice is the same as clicking it once. *)
Theorem click_is_idempotent :
  forall (props : Props) (event : MouseEvent) (w : World),
    (handleScoreClick props event ;; handleScoreClick props event) w =
    handleScoreClick props event w.
Proof.
  intros props event w. unfold bind.
  destruct (osmdRef props) as [osmd|] eqn:Ho;
    [|unfold handleScoreClick; rewrite Ho; reflexivity].
  destruct (GraphicSheet osmd) as [sheet|] eqn:Hs;
    [|unfold handleScoreClick; rewrite Ho, Hs; reflexivity].
  destruct (container w) as [rect|] eqn:Hc;
    [|unfold handleScoreClick; rewrite Ho, Hs, Hc; simpl; rewrite Hc; reflexivity].
  rewrite (handleScoreClick_run props event w osmd sheet rect Ho Hs Hc).
  destruct (clickedMeasureFrom _ _ _ _ _) as [k|msg] eqn:Ek; [|reflexivity].
  destruct (k =? -1)%Z eqn:E1.
  { cbv beta iota.
    rewrite (handleScoreClick_run props event w osmd sheet rect Ho Hs Hc).
    rewrite Ek, E1. reflexivity. }
  destruct (targetAnchorOf (anchors props) (k + 1)) as [a|] eqn:Ea.
  - destruct (currentTime w) as [t0|] eqn:Et; cbv beta iota.
    + rewrite (handleScoreClick_run props event
                 (set_currentTime (Some (time a)) w) osmd sheet rect Ho Hs Hc).
      simpl currentTime. rewrite Ek, E1, Ea. reflexivity.
    + rewrite (handleScoreClick_run props event w osmd sheet rect Ho Hs Hc).
      rewrite Ek, E1, Ea, Et. reflexivity.
  - cbv beta iota.
    rewrite (handleScoreClick_run props event w osmd sheet rect Ho Hs Hc).
    rewrite Ek, E1, Ea. reflexivity.
Qed.

(** X7.  Seeking and locating compose: after a click that hits measure
    [k + 1], with an audio element, some anchor at or below that measure and
    anchors at distinct times, the clock is exactly the time of a nearest
    anchor [a] at or below that measure, and [findCurrentMeasure] at that
    time gives the measure of [a] with progress 0. *)
Theorem seek_then_locate :
  forall (props : Props) (event : MouseEvent) (w : World)
         (osmd : OSMD) (sheet : GraphicalMusicSheet) (rect : DOMRect)
         (k : Z) (t0 : Q),
    osmdRef props = Some osmd ->
    GraphicSheet osmd = Some sheet ->
    container w = Some rect ->
    firstHit (unitInPixelsOf sheet)
             (clientX event - rect_left rect) (clientY event - rect_top rect)
             (MeasureList sheet) k ->
    currentTime w = Some t0 ->
    (exists b, In b (anchors props) /\ (measure b <= k + 1)%Z) ->
    distinctTimes (anchors props) ->
    exists a,
      nearestAnchorAtOrBelow (anchors props) (k + 1) a /\
      currentTime (snd (handleScoreClick props event w)) = Some (time a) /\
      loc_measure (findCurrentMeasure (anchors props) (time a)) = measure a /\
      progress (findCurrentMeasure (anchors props) (time a)) == 0.
Proof.
  intros props event w osmd sheet rect k t0 Ho Hs Hc Hk Ht Hex Hd.
  destruct (handleScoreClick_seek props event w osmd sheet rect k t0
              Ho Hs Hc Hk Ht Hex) as (a & _ & Hnear & ->).
  exists a. split; [exact Hnear|]. split; [reflexivity|].
  destruct Hnear as (Ha & _).
  destruct (findCurrentMeasure_at_anchor_time (anchors props) a Ha)
    as (Hp & _ & Hm).
  split; [apply Hm, Hd | exact Hp].
Qed.

Lemma seek_then_locate_witness :
  exists a,
    nearestAnchorAtOrBelow [mkAnchor 1 0; mkAnchor 3 8] 3 a /\
    currentTime
      (snd (handleScoreClick
              (sampleProps [mkAnchor 1 0; mkAnchor 3 8] PLAYBACK [])
              (mkMouseEvent 250 70) sampleWorld)) = Some (time a) /\
    loc_measure (findCurrentMeasure [mkAnchor 1 0; mkAnchor 3 8] (time a)) = measure a /\
    progress (findCurrentMeasure [mkAnchor 1 0; mkAnchor 3 8] (time a)) == 0.
Proof.
  apply (seek_then_locate
           (sampleProps [mkAnchor 1 0; mkAnchor 3 8] PLAYBACK [])
           (mkMouseEvent 250 70) sampleWorld
           (mkOSMD (Some sampleSheet)) sampleSheet (mkRect 0 0 300 300) 2 0).
  - reflexivity.
  - reflexivity.
  - reflexivity.
  - exact sample_click_firstHit.
  - reflexivity.
  - exists (mkAnchor 3 8). split; [right; now left | simpl; lia].
  - intros a b Ha Hb Hab. simpl in Ha, Hb.
    destruct Ha as [<-|[<-|[]]], Hb as [<-|[<-|[]]];
      try reflexivity; simpl in Hab; discriminate.
Defined.

(** X8.  The box a click is tested against is a bounding box: whenever the
    extent of a measure is computed, it encloses the box of every staff
    measure of that measure that has a shape. *)
Theorem hit_box_encloses_staff_boxes :
  forall (staves : list (option GraphicalMeasure)) (e : Extent)
         (staffMeasure : GraphicalMeasure) (pos : BoundingBox),
    clickExtent staves initialExtent = Normal e ->
    In (Some staffMeasure) staves ->
    PositionAndShape staffMeasure = Some pos ->
    encloses e pos.
Proof.
  intros staves e sm pos He Hin Hp.
  apply (proj2 (clickExtent_encloses staves initialExtent e He) sm pos Hin Hp).
Qed.

Lemma hit_box_encloses_staff_boxes_witness :
  exists e,
    clickExtent [Some (sampleMeasure 10 [])] initialExtent = Normal e /\
    encloses e (mkBoundingBox (mkPoint 10 5) (mkPoint 0 0) 0 10 0 4).
Proof.
  eexists. split; [reflexivity|].
  apply (hit_box_encloses_staff_boxes [Some (sampleMeasure 10 [])] _
           (sampleMeasure 10 [])).
  - reflexivity.
  - now left.
  - reflexivity.
Defined.

Lemma Number_MIN_below_MAX : Number_MIN_VALUE < Number_MAX_VALUE.
Proof. vm_compute. reflexivity. Qed.

Lemma clickExtent_unshaped (staves : list (option GraphicalMeasure)) (acc : Extent) :
  (forall s, In s staves ->
             exists staffMeasure, s = Some staffMeasure /\
                                  PositionAndShape staffMeasure = None) ->
  clickExtent staves acc = Normal acc.
Proof.
  induction staves as [|s tl IH]; intros H; simpl; [reflexivity|].
  destruct (H s (or_introl eq_refl)) as (sm & -> & Hn). rewrite Hn.
  apply IH. intros s' Hs'. apply H. now right.
Qed.

(** X9.  A measure none of whose staff measures has a shape (in particular
    a measure with an empty list of staves) is never the clicked measure,
    wherever the click lands, as long as the pixel factor is positive: its
    box runs from the largest double down to the smallest and is empty. *)
Theorem unshaped_measure_is_never_hit :
  forall (u cx cy : Q) (staves : list (option GraphicalMeasure)),
    0 < u ->
    (forall s, In s staves ->
               exists staffMeasure, s = Some staffMeasure /\
                                    PositionAndShape staffMeasure = None) ->
    ~ hitsMeasure u cx cy (Some staves) /\ missesMeasure u cx cy (Some staves).
Proof.
  intros u cx cy staves Hu H.
  pose proof (clickExtent_unshaped staves initialExtent H) as He.
  assert (Hb : boxContains (pixelBox u initialExtent) cx cy = false).
  { unfold boxContains, pixelBox, initialExtent. simpl.
    destruct (Qleb (Number_MAX_VALUE * u) cx) eqn:E1; [|reflexivity].
    destruct (Qleb cx (Number_MIN_VALUE * u)) eqn:E2; [|reflexivity].
    exfalso. apply Qleb_le in E1, E2.
    pose proof (proj2 (Qmult_lt_r _ _ u Hu) Number_MIN_below_MAX) as Hlt.
    lra. }
  split.
  - intros (staves' & e & [= <-] & He' & Hc). rewrite He in He'.
    injection He' as <-. congruence.
  - simpl. exists initialExtent. split; assumption.
Qed.

Lemma unshaped_measure_is_never_hit_witness :
  ~ hitsMeasure 10 50 70 (Some [Some (mkGraphicalMeasure None [])]).
Proof.
  apply (unshaped_measure_is_never_hit 10 50 70 [Some (mkGraphicalMeasure None [])]).
  - reflexivity.
  - intros s [<-|[]]. eexists. split; reflexivity.
Defined.

(** ** The note pass as a list *)

Lemma staffEntriesNotes_list (doc : Document) (u : Q) (k : Z) (width : Q)
    (entries : list GraphicalStaffEntry) :
  forall acc r,
    staffEntriesNotes doc u k width entries acc = Normal r ->
    r = acc ++ flat_map (entryNotes doc u k width) entries.
Proof.
  induction entries as [|entry tl IH]; intros acc r H; simpl in H.
  - injection H as <-. simpl. now rewrite app_nil_r.
  - simpl. unfold entryNotes at 1.
    destruct (graphicalVoiceEntries entry) as [gves|].
    + destruct (entryPositionAndShape entry) as [shape|]; [|discriminate].
      rewrite (IH _ _ H). now rewrite app_assoc.
    + apply (IH _ _ H).
Qed.

Lemma staffEntriesNotes_completes (doc : Document) (u : Q) (k : Z) (width : Q)
    (entries : list GraphicalStaffEntry) :
  forall acc,
    completes (staffEntriesNotes doc u k width entries acc) <->
    Forall wellFormedEntry entries.
Proof.
  induction entries as [|entry tl IH]; intros acc; simpl.
  - split; [constructor | intros _; eexists; reflexivity].
  - unfold wellFormedEntry at 1.
    destruct (graphicalVoiceEntries entry) as [gves|] eqn:Eg.
    + destruct (entryPositionAndShape entry) as [shape|] eqn:Es.
      * rewrite IH. split.
        -- intros H. constructor; [|exact H]. unfold wellFormedEntry.
           right. rewrite Es. discriminate.
        -- intros H. inversion H. assumption.
      * split.
        -- intros (a & Ha). discriminate.
        -- intros H. inversion H as [|? ? Hw _]; subst.
           unfold wellFormedEntry in Hw. rewrite Eg, Es in Hw.
           destruct Hw as [Hw|Hw]; [discriminate | contradiction].
    + rewrite IH. split.
      * intros H. constructor; [|exact H]. unfold wellFormedEntry. now left.
      * intros H. inversion H. assumption.
Qed.

Lemma staffMeasureNotes_list (doc : Document) (u : Q) (k : Z)
    (sm : GraphicalMeasure) (acc r : list NoteData) :
  staffMeasureNotes doc u k sm acc = Normal r ->
  r = acc ++ staffNotes doc u k (Some sm).
Proof.
  unfold staffMeasureNotes, staffNotes.
  destruct (PositionAndShape sm) as [pos|]; [|discriminate].
  apply staffEntriesNotes_list.
Qed.

Lemma staffMeasureNotes_completes (doc : Document) (u : Q) (k : Z)
    (sm : GraphicalMeasure) (acc : list NoteData) :
  completes (staffMeasureNotes doc u k sm acc) <-> wellFormedStaffMeasure sm.
Proof.
  unfold staffMeasureNotes, wellFormedStaffMeasure.
  destruct (PositionAndShape sm) as [pos|].
  - rewrite staffEntriesNotes_completes. split; [|tauto].
    intros H. split; [discriminate | exact H].
  - split; [intros (a & Ha); discriminate | intros [H _]; contradiction].
Qed.

Lemma BoolReveal_measureStavesNotes_list (doc : Document) (u : Q) (k : Z)
    (staves : list (option GraphicalMeasure)) :
  forall acc r,
    BoolReveal.measureStavesNotes doc u k staves acc = Normal r ->
    r = acc ++ measureNotesOf doc u k staves.
Proof.
  unfold measureNotesOf.
  induction staves as [|s tl IH]; intros acc r H; simpl in H.
  - injection H as <-. simpl. now rewrite app_nil_r.
  - destruct s as [sm|].
    + destruct (staffMeasureNotes doc u k sm acc) as [pushed|] eqn:E; [|discriminate].
      simpl in H. rewrite (IH _ _ H), (staffMeasureNotes_list _ _ _ _ _ _ E).
      simpl flat_map. now rewrite app_assoc.
    + apply (IH _ _ H).
Qed.

Lemma BoolReveal_measureStavesNotes_completes (doc : Document) (u : Q) (k : Z)
    (staves : list (option GraphicalMeasure)) :
  forall acc,
    completes (BoolReveal.measureStavesNotes doc u k staves acc) <->
    (forall sm, In (Some sm) staves -> wellFormedStaffMeasure sm).
Proof.
  induction staves as [|s tl IH]; intros acc; simpl.
  - split; [intros _ sm [] | intros _; eexists; reflexivity].
  - destruct s as [sm|].
    + destruct (staffMeasureNotes doc u k sm acc) as [pushed|msg] eqn:E; simpl.
      * rewrite IH. split.
        -- intros H sm' [[= <-]|Hin]; [|apply H, Hin].
           apply (staffMeasureNotes_completes doc u k sm acc). eexists. exact E.
        -- intros H sm' Hin. apply H. now right.
      * split; [intros (a & Ha); discriminate|].
        intros H. exfalso.
        assert (Hw : wellFormedStaffMeasure sm) by (apply H; now left).
        rewrite <- (staffMeasureNotes_completes doc u k sm acc) in Hw.
        destruct Hw as (a & Ha). congruence.
    + rewrite IH. split.
      * intros H sm' [Hin|Hin]; [discriminate | apply H, Hin].
      * intros H sm' Hin. apply H. now right.
Qed.

Lemma TriReveal_measureStavesNotes_list (doc : Document) (u : Q) (k : Z)
    (staves : list (option GraphicalMeasure)) :
  forall acc r,
    TriReveal.measureStavesNotes doc u k staves acc = Normal r ->
    r = acc ++ measureNotesOf doc u k staves.
Proof.
  unfold measureNotesOf.
  induction staves as [|s tl IH]; intros acc r H; simpl in H.
  - injection H as <-. simpl. now rewrite app_nil_r.
  - destruct s as [sm|]; [|discriminate].
    destruct (staffMeasureNotes doc u k sm acc) as [pushed|] eqn:E; [|discriminate].
    simpl in H. rewrite (IH _ _ H), (staffMeasureNotes_list _ _ _ _ _ _ E).
    simpl flat_map. now rewrite app_assoc.
Qed.

Lemma TriReveal_measureStavesNotes_completes (doc : Document) (u : Q) (k : Z)
    (staves : list (option GraphicalMeasure)) :
  forall acc,
    completes (TriReveal.measureStavesNotes doc u k staves acc) <->
    (forall s, In s staves -> exists sm, s = Some sm /\ wellFormedStaffMeasure sm).
Proof.
  induction staves as [|s tl IH]; intros acc; simpl.
  - split; [intros _ s [] | intros _; eexists; reflexivity].
  - destruct s as [sm|].
    + destruct (staffMeasureNotes doc u k sm acc) as [pushed|msg] eqn:E; simpl.
      * rewrite IH. split.
        -- intros H s' [<-|Hin]; [|apply H, Hin].
           exists sm. split; [reflexivity|].
           apply (staffMeasureNotes_completes doc u k sm acc). eexists. exact E.
        -- intros H s' Hin. apply H. now right.
      * split; [intros (a & Ha); discriminate|].
        intros H. exfalso.
        destruct (H (Some sm) (or_introl eq_refl)) as (sm' & [= <-] & Hw).
        rewrite <- (staffMeasureNotes_completes doc u k sm acc) in Hw.
        destruct Hw as (a & Ha). congruence.
    + split; [intros (a & Ha); discriminate|].
      intros H. destruct (H None (or_introl eq_refl)) as (sm & Hsm & _). discriminate.
Qed.

Lemma Map_set_fresh {V : Type} (m : JsMap V) (k : Z) (v : V) :
  (forall k' v', In (k', v') m -> k' <> k) -> Map_set m k v = m ++ [(k, v)].
Proof.
  induction m as [|[k' v'] tl IH]; intros H; simpl; [reflexivity|].
  destruct (Z.eqb_spec k' k) as [->|Hne].
  - exfalso. apply (H k v'); [now left | reflexivity].
  - f_equal. apply IH. intros k'' v'' Hin. apply (H k'' v''). now right.
Qed.

Lemma noteMapFrom_keys (doc : Document) (u : Q) (rest : list MeasureStaves) :
  forall i k ns, In (k, ns) (noteMapFrom doc u i rest) ->
                 (i < k <= i + Z.of_nat (length rest))%Z.
Proof.
  induction rest as [|ms tl IH]; intros i k ns H; simpl in H; [destruct H|].
  apply in_app_or in H. destruct H as [H|H].
  - destruct ms as [staves|]; [|destruct H].
    destruct (measureNotesOf doc u (i + 1) staves); [destruct H|].
    destruct H as [[= <- <-]|[]]. simpl length. lia.
  - specialize (IH _ _ _ H). simpl length. lia.
Qed.

Lemma BoolReveal_mapNotes_list (doc : Document) (u : Q) (rest : list MeasureStaves) :
  forall i acc m,
    (forall k v, In (k, v) acc -> (k <= i)%Z) ->
    BoolReveal.mapNotes doc u i rest acc = Normal m ->
    m = acc ++ noteMapFrom doc u i rest.
Proof.
  induction rest as [|ms tl IH]; intros i acc m Hacc H; simpl in H.
  - injection H as <-. simpl. now rewrite app_nil_r.
  - simpl noteMapFrom.
    destruct ms as [[|s0 staves]|].
    + simpl. apply IH; [|exact H]. intros k v Hk. specialize (Hacc k v Hk). lia.
    + destruct (BoolReveal.measureStavesNotes doc u (i + 1) (s0 :: staves) [])
        as [measureNotes|] eqn:E; [|discriminate].
      simpl in H. apply BoolReveal_measureStavesNotes_list in E.
      change (measureNotes = measureNotesOf doc u (i + 1) (s0 :: staves)) in E.
      rewrite <- E.
      destruct measureNotes as [|n ns].
      * simpl. apply IH; [|exact H]. intros k v Hk. specialize (Hacc k v Hk). lia.
      * rewrite app_assoc. rewrite <- (Map_set_fresh acc (i + 1) (n :: ns)).
        -- apply IH; [|exact H]. intros k v Hk.
           assert (Hk' : In (k, v) (acc ++ [((i + 1)%Z, n :: ns)])).
           { rewrite <- (Map_set_fresh acc (i + 1) (n :: ns)); [exact Hk|].
             intros k' v' Hin. specialize (Hacc k' v' Hin). lia. }
           apply in_app_or in Hk'. destruct Hk' as [Hk'|[[= <- <-]|[]]]; [|lia].
           specialize (Hacc k v Hk'). lia.
        -- intros k' v' Hin. specialize (Hacc k' v' Hin). lia.
    + simpl. apply IH; [|exact H]. intros k v Hk. specialize (Hacc k v Hk). lia.
Qed.

Lemma TriReveal_mapNotes_list (doc : Document) (u : Q) (rest : list MeasureStaves) :
  forall i acc m,
    (forall k v, In (k, v) acc -> (k <= i)%Z) ->
    TriReveal.mapNotes doc u i rest acc = Normal m ->
    m = acc ++ noteMapFrom doc u i rest.
Proof.
  induction rest as [|ms tl IH]; intros i acc m Hacc H; simpl in H.
  - injection H as <-. simpl. now rewrite app_nil_r.
  - simpl noteMapFrom.
    destruct ms as [staves|].
    + destruct (TriReveal.measureStavesNotes doc u (i + 1) staves [])
        as [measureNotes|] eqn:E; [|discriminate].
      simpl in H. apply TriReveal_measureStavesNotes_list in E.
      change (measureNotes = measureNotesOf doc u (i + 1) staves) in E.
      rewrite <- E.
      destruct measureNotes as [|n ns].
      * simpl. apply IH; [|exact H]. intros k v Hk. specialize (Hacc k v Hk). lia.
      * rewrite app_assoc. rewrite <- (Map_set_fresh acc (i + 1) (n :: ns)).
        -- apply IH; [|exact H]. intros k v Hk.
           assert (Hk' : In (k, v) (acc ++ [((i + 1)%Z, n :: ns)])).
           { rewrite <- (Map_set_fresh acc (i + 1) (n :: ns)); [exact Hk|].
             intros k' v' Hin. specialize (Hacc k' v' Hin). lia. }
           apply in_app_or in Hk'. destruct Hk' as [Hk'|[[= <- <-]|[]]]; [|lia].
           specialize (Hacc k v Hk'). lia.
        -- intros k' v' Hin. specialize (Hacc k' v' Hin). lia.
    + simpl. apply IH; [|exact H]. intros k v Hk. specialize (Hacc k v Hk). lia.
Qed.

Lemma bindC_completes {A B : Type} (c : Completion A) (k : A -> Completion B) :
  completes (bindC c k) <-> exists a, c = Normal a /\ completes (k a).
Proof.
  destruct c as [a|msg]; simpl.
  - split; [intros H; exists a; auto | intros (a' & [= <-] & H); exact H].
  - split; [intros (b & Hb); discriminate | intros (a & Ha & _); discriminate].
Qed.

Lemma BoolReveal_mapNotes_completes (doc : Document) (u : Q)
    (rest : list MeasureStaves) :
  forall i acc,
    completes (BoolReveal.mapNotes doc u i rest acc) <-> BoolReveal_wellFormed rest.
Proof.
  unfold BoolReveal_wellFormed.
  induction rest as [|ms tl IH]; intros i acc; simpl.
  - split; [intros _ staves sm [] | intros _; eexists; reflexivity].
  - destruct ms as [[|s0 staves]|].
    + rewrite IH. split.
      * intros H staves sm [[= <-]|Hin] Hsm; [destruct Hsm | apply (H staves sm Hin Hsm)].
      * intros H staves sm Hin. apply H. now right.
    + rewrite bindC_completes. split.
      * intros (ns & E & Hrest) staves' sm [[= <-]|Hin] Hsm.
        -- apply (BoolReveal_measureStavesNotes_completes doc u (i + 1)
                    (s0 :: staves) []); [eexists; exact E | exact Hsm].
        -- apply (proj1 (IH _ _) Hrest staves' sm Hin Hsm).
      * intros H.
        assert (Hc : completes (BoolReveal.measureStavesNotes doc u (i + 1)
                                  (s0 :: staves) [])).
        { apply BoolReveal_measureStavesNotes_completes.
          intros sm Hsm. apply (H (s0 :: staves) sm); [now left | exact Hsm]. }
        destruct Hc as (ns & E). exists ns. split; [exact E|].
        apply (proj2 (IH _ _)). intros staves' sm Hin. apply H. now right.
    + rewrite IH. split.
      * intros H staves sm [Hin|Hin] Hsm; [discriminate | apply (H staves sm Hin Hsm)].
      * intros H staves sm Hin. apply H. now right.
Qed.

Lemma TriReveal_mapNotes_completes (doc : Document) (u : Q)
    (rest : list MeasureStaves) :
  forall i acc,
    completes (TriReveal.mapNotes doc u i rest acc) <->
    (forall staves, In (Some staves) rest ->
       forall s, In s staves ->
         exists sm, s = Some sm /\ wellFormedStaffMeasure sm).
Proof.
  induction rest as [|ms tl IH]; intros i acc; simpl.
  - split; [intros _ staves [] | intros _; eexists; reflexivity].
  - destruct ms as [staves|].
    + rewrite bindC_completes. split.
      * intros (ns & E & Hrest) staves' [[= <-]|Hin].
        -- apply (TriReveal_measureStavesNotes_completes doc u (i + 1) staves []).
           eexists. exact E.
        -- apply (proj1 (IH _ _) Hrest staves' Hin).
      * intros H.
        assert (Hc : completes (TriReveal.measureStavesNotes doc u (i + 1) staves [])).
        { apply TriReveal_measureStavesNotes_completes. apply H. now left. }
        destruct Hc as (ns & E). exists ns. split; [exact E|].
        apply (proj2 (IH _ _)). intros staves' Hin. apply H. now right.
    + rewrite IH. split.
      * intros H staves [Hin|Hin]; [discriminate | apply (H staves Hin)].
      * intros H staves Hin. apply H. now right.
Qed.

Lemma TriReveal_boundsExtent_completes (staves : list (option GraphicalMeasure)) :
  forall lo hi,
    completes (TriReveal.boundsExtent staves lo hi) <->
    (forall s, In s staves ->
       exists sm, s = Some sm /\ PositionAndShape sm <> None).
Proof.
  induction staves as [|s tl IH]; intros lo hi; simpl.
  - split; [intros _ s [] | intros _; eexists; reflexivity].
  - destruct s as [sm|].
    + destruct (PositionAndShape sm) as [pos|] eqn:E.
      * rewrite IH. split.
        -- intros H s' [<-|Hin]; [|apply H, Hin].
           exists sm. split; [reflexivity | rewrite E; discriminate].
        -- intros H s' Hin. apply H. now right.
      * split; [intros (a & Ha); discriminate|].
        intros H. destruct (H (Some sm) (or_introl eq_refl)) as (sm' & [= <-] & Hn).
        contradiction.
    + split; [intros (a & Ha); discriminate|].
      intros H. destruct (H None (or_introl eq_refl)) as (sm & Hsm & _). discriminate.
Qed.

Lemma TriReveal_measureBoundsFrom_completes (u : Q) (rest : list MeasureStaves) :
  forall i acc,
    completes (TriReveal.measureBoundsFrom u i rest acc) <->
    (forall ms, In ms rest ->
       exists staves, ms = Some staves /\
         forall s, In s staves ->
           exists sm, s = Some sm /\ PositionAndShape sm <> None).
Proof.
  induction rest as [|ms tl IH]; intros i acc; simpl.
  - split; [intros _ ms [] | intros _; eexists; reflexivity].
  - destruct ms as [staves|].
    + rewrite bindC_completes. split.
      * intros ([lo hi] & E & Hrest) ms [<-|Hin].
        -- exists staves. split; [reflexivity|].
           apply (TriReveal_boundsExtent_completes staves
                    Number_MAX_VALUE Number_MIN_VALUE).
           eexists. exact E.
        -- apply (proj1 (IH _ _) Hrest ms Hin).
      * intros H.
        assert (Hc : completes (TriReveal.boundsExtent staves
                                  Number_MAX_VALUE Number_MIN_VALUE)).
        { apply TriReveal_boundsExtent_completes.
          destruct (H (Some staves) (or_introl eq_refl)) as (st & [= <-] & Hst).
          exact Hst. }
        destruct Hc as ([lo hi] & E). exists (lo, hi). split; [exact E|].
        apply (proj2 (IH _ _)). intros ms Hin. apply H. now right.
    + split; [intros (a & Ha); discriminate|].
      intros H. destruct (H None (or_introl eq_refl)) as (st & Hst & _). discriminate.
Qed.

(** X10.  Once its guards have passed, the geometry mapper of the boolean
    viewer completes exactly on the scores it can read: those in which every
    staff measure that is present has a bounding shape, and so has every
    staff entry of it that carries voice entries.  On every other score it
    throws. *)
Theorem BoolReveal_mapper_completes_iff_well_formed :
  forall (doc : Document) (sheet : GraphicalMusicSheet) (containerRect : DOMRect),
    completes (BoolReveal.calculateNoteMap doc (Some (mkOSMD (Some sheet)))
                 (Some containerRect)) <->
    BoolReveal_wellFormed (MeasureList sheet).
Proof.
  intros doc sheet containerRect. unfold BoolReveal.calculateNoteMap. simpl.
  rewrite bindC_completes.
  rewrite <- (BoolReveal_mapNotes_completes doc (unitInPixelsOf sheet)
                (MeasureList sheet) 0 []).
  split.
  - intros (nm & E & _). eexists. exact E.
  - intros (nm & E). exists nm. split; [exact E | eexists; reflexivity].
Qed.

(** X11.  Once its guards have passed, the geometry mapper of the
    three-state viewer completes exactly on the scores in which no list of
    staves and no staff measure is missing, every staff measure has a
    bounding shape, and so has every staff entry that carries voice entries.
    On every other score it throws. *)
Theorem TriReveal_mapper_completes_iff_well_formed :
  forall (doc : Document) (sheet : GraphicalMusicSheet) (containerRect : DOMRect),
    completes (TriReveal.calculateNoteMap doc (Some (mkOSMD (Some sheet)))
                 (Some containerRect)) <->
    TriReveal_wellFormed (MeasureList sheet).
Proof.
  intros doc sheet containerRect. unfold TriReveal.calculateNoteMap. simpl.
  rewrite bindC_completes. unfold TriReveal_wellFormed. split.
  - intros (bounds & Eb & Hn). apply bindC_completes in Hn.
    destruct Hn as (nm & En & _).
    assert (Hb : completes (TriReveal.measureBoundsFrom (unitInPixelsOf sheet) 0
                              (MeasureList sheet) [])) by (eexists; exact Eb).
    rewrite TriReveal_measureBoundsFrom_completes in Hb.
    assert (Hm : completes (TriReveal.mapNotes doc (unitInPixelsOf sheet) 0
                              (MeasureList sheet) [])) by (eexists; exact En).
    rewrite TriReveal_mapNotes_completes in Hm.
    intros ms Hms. destruct (Hb ms Hms) as (staves & -> & _).
    exists staves. split; [reflexivity|]. apply (Hm staves Hms).
  - intros H.
    assert (Hb : completes (TriReveal.measureBoundsFrom (unitInPixelsOf sheet) 0
                              (MeasureList sheet) [])).
    { apply TriReveal_measureBoundsFrom_completes. intros ms Hms.
      destruct (H ms Hms) as (staves & -> & Hst). exists staves.
      split; [reflexivity|]. intros s Hs.
      destruct (Hst s Hs) as (sm & -> & Hw & _). exists sm. split; [reflexivity | exact Hw]. }
    destruct Hb as (bounds & Eb). exists bounds. split; [exact Eb|].
    apply bindC_completes.
    assert (Hm : completes (TriReveal.mapNotes doc (unitInPixelsOf sheet) 0
                              (MeasureList sheet) [])).
    { apply TriReveal_mapNotes_completes. intros staves Hin.
      destruct (H (Some staves) Hin) as (st & [= <-] & Hst). exact Hst. }
    destruct Hm as (nm & En). exists nm. split; [exact En | eexists; reflexivity].
Qed.

Lemma noteDataOf_filed (doc : Document) (k : Z) (ts : JsNum) (note : GraphicalNote)
    (n : NoteData) :
  In n (noteDataOf doc k ts note) -> noteFiledUnder k n /\ timestamp n = ts.
Proof.
  unfold noteDataOf, noteFiledUnder.
  destruct (vfnote note) as [[|vf tl]|]; try (intros []).
  destruct (attrs_id vf) as [vfId|]; [|intros []].
  destruct (String.eqb_spec vfId ""); [intros []|].
  destruct (match getElementById doc vfId with
            | Some el => Some el
            | None => getElementById doc ("vf-" ++ vfId)
            end) as [el|]; [|intros []].
  intros [<-|[]]. simpl. repeat split; auto; discriminate.
Qed.

Lemma entryNotes_filed (doc : Document) (u : Q) (k : Z) (width : Q)
    (entry : GraphicalStaffEntry) (n : NoteData) :
  In n (entryNotes doc u k width entry) ->
  noteFiledUnder k n /\ exists x, timestamp n = js_div (x * u) width.
Proof.
  unfold entryNotes.
  destruct (graphicalVoiceEntries entry) as [gves|]; [|intros []].
  destruct (entryPositionAndShape entry) as [shape|]; [|intros []].
  rewrite in_flat_map. intros (gve & _ & Hn). unfold voiceEntryNotes in Hn.
  destruct (notes gve) as [ns|]; [|destruct Hn].
  apply in_flat_map in Hn. destruct Hn as (note & _ & Hn).
  apply noteDataOf_filed in Hn. destruct Hn as [Hf Ht].
  split; [exact Hf|]. eexists. exact Ht.
Qed.

Lemma measureNotesOf_filed (doc : Document) (u : Q) (k : Z)
    (staves : list (option GraphicalMeasure)) (n : NoteData) :
  In n (measureNotesOf doc u k staves) ->
  noteFiledUnder k n /\
  exists sm pos x,
    In (Some sm) staves /\ PositionAndShape sm = Some pos /\
    timestamp n = js_div (x * u) ((BorderRight pos - BorderLeft pos) * u).
Proof.
  unfold measureNotesOf. rewrite in_flat_map. intros (s & Hs & Hn).
  unfold staffNotes in Hn. destruct s as [sm|]; [|destruct Hn].
  destruct (PositionAndShape sm) as [pos|] eqn:Ep; [|destruct Hn].
  apply in_flat_map in Hn. destruct Hn as (entry & _ & Hn).
  apply entryNotes_filed in Hn. destruct Hn as [Hf (x & Hx)].
  split; [exact Hf|]. exists sm, pos, x. repeat split; assumption.
Qed.

Lemma noteMapFrom_entries (doc : Document) (u : Q) (rest : list MeasureStaves) :
  forall i k ns,
    In (k, ns) (noteMapFrom doc u i rest) ->
    ns <> [] /\
    exists staves, In (Some staves) rest /\ ns = measureNotesOf doc u k staves.
Proof.
  induction rest as [|ms tl IH]; intros i k ns H; simpl in H; [destruct H|].
  apply in_app_or in H. destruct H as [H|H].
  - destruct ms as [staves|]; [|destruct H].
    destruct (measureNotesOf doc u (i + 1) staves) as [|n l] eqn:E; [destruct H|].
    destruct H as [[= <- <-]|[]]. split; [discriminate|].
    exists staves. split; [now left | now rewrite E].
  - destruct (IH _ _ _ H) as (Hne & staves & Hin & E).
    split; [exact Hne|]. exists staves. split; [now right | exact E].
Qed.

Lemma noteMapFrom_sorted (doc : Document) (u : Q) (rest : list MeasureStaves) :
  forall i, StronglySorted Z.lt (map fst (noteMapFrom doc u i rest)).
Proof.
  induction rest as [|ms tl IH]; intros i; simpl; [constructor|].
  rewrite map_app.
  assert (Htl : Forall (fun k => (i + 1 < k)%Z)
                       (map fst (noteMapFrom doc u (i + 1) tl))).
  { apply Forall_forall. intros k Hk. apply in_map_iff in Hk.
    destruct Hk as ([k' ns] & <- & Hin). simpl.
    apply noteMapFrom_keys in Hin. lia. }
  destruct ms as [staves|]; [|apply IH].
  destruct (measureNotesOf doc u (i + 1) staves); [apply IH|].
  simpl. constructor; [apply IH | exact Htl].
Qed.

Lemma Map_get_sorted {V : Type} (m : JsMap V) (k : Z) (v : V) :
  StronglySorted Z.lt (map fst m) -> In (k, v) m -> Map_get m k = Some v.
Proof.
  induction m as [|[k' v'] tl IH]; intros Hs Hin; [destruct Hin|].
  simpl in *. inversion Hs as [|? ? Hs' Hall]; subst.
  destruct Hin as [[= -> ->]|Hin].
  - rewrite Z.eqb_refl. reflexivity.
  - destruct (Z.eqb_spec k' k) as [->|Hne]; [|apply IH; assumption].
    exfalso. rewrite Forall_forall in Hall.
    assert (Hk : In k (map fst tl)) by (apply in_map_iff; exists (k, v); auto).
    specialize (Hall k Hk). lia.
Qed.

(** Both mappers leave the note map as the list of the notes of the
    measures. *)
Lemma calculateNoteMap_noteMap (doc : Document) (sheet : GraphicalMusicSheet)
    (containerRect : DOMRect) (noteMap : JsMap (list NoteData))
    (glyphMap : JsMap (list Elem)) :
  BoolReveal.calculateNoteMap doc (Some (mkOSMD (Some sheet))) (Some containerRect)
    = Normal (Some (noteMap, glyphMap)) \/
  TriReveal.calculateNoteMap doc (Some (mkOSMD (Some sheet))) (Some containerRect)
    = Normal (Some (noteMap, glyphMap)) ->
  noteMap = noteMapFrom doc (unitInPixelsOf sheet) 0 (MeasureList sheet).
Proof.
  intros [H|H].
  - unfold BoolReveal.calculateNoteMap in H. simpl in H.
    destruct (BoolReveal.mapNotes _ _ _ _ _) as [nm|] eqn:E; [|discriminate].
    simpl in H. injection H as <- _.
    apply (BoolReveal_mapNotes_list doc _ _ 0 [] nm); [intros k v []|exact E].
  - unfold TriReveal.calculateNoteMap in H. simpl in H.
    destruct (TriReveal.measureBoundsFrom _ _ _ _) as [bounds|]; [|discriminate].
    simpl in H.
    destruct (TriReveal.mapNotes _ _ _ _ _) as [nm|] eqn:E; [|discriminate].
    simpl in H. injection H as <- _.
    apply (TriReveal_mapNotes_list doc _ _ 0 [] nm); [intros k v []|exact E].
Qed.

Lemma unitInPixelsOf_nonzero (sheet : GraphicalMusicSheet) :
  ~ unitInPixelsOf sheet == 0.
Proof.
  unfold unitInPixelsOf. destruct (UnitInPixels sheet) as [u|]; [|discriminate].
  destruct (Qeq_bool u 0) eqn:E; [discriminate|].
  intros H. apply Qeq_bool_iff in H. congruence.
Qed.

Lemma js_div_finite (a b : Q) : ~ b == 0 -> js_div a b = Fin (a / b).
Proof.
  intros H. unfold js_div. destruct (Qeq_bool b 0) eqn:E; [|reflexivity].
  apply Qeq_bool_iff in E. contradiction.
Qed.

(** X12.  When either mapper completes, the note map it leaves is in
    order: its keys ascend strictly (so each measure has at most one entry,
    which [get] finds), every key is the number of a measure of the score,
    no entry is empty, and every note of the entry of measure [k] is filed
    under [k], has an element and a non-empty id. *)
Theorem note_map_entries_are_filed_in_order :
  forall (doc : Document) (sheet : GraphicalMusicSheet) (containerRect : DOMRect)
         (noteMap : JsMap (list NoteData)) (glyphMap : JsMap (list Elem)),
    (BoolReveal.calculateNoteMap doc (Some (mkOSMD (Some sheet))) (Some containerRect)
       = Normal (Some (noteMap, glyphMap)) \/
     TriReveal.calculateNoteMap doc (Some (mkOSMD (Some sheet))) (Some containerRect)
       = Normal (Some (noteMap, glyphMap))) ->
    StronglySorted Z.lt (map fst noteMap) /\
    forall k ns,
      In (k, ns) noteMap ->
      (1 <= k <= Z.of_nat (length (MeasureList sheet)))%Z /\
      ns <> [] /\
      Forall (noteFiledUnder k) ns /\
      Map_get noteMap k = Some ns.
Proof.
  intros doc sheet containerRect noteMap glyphMap H.
  apply calculateNoteMap_noteMap in H. subst noteMap.
  split; [apply noteMapFrom_sorted|].
  intros k ns Hin. split; [|split; [|split]].
  - apply noteMapFrom_keys in Hin. lia.
  - apply (noteMapFrom_entries _ _ _ _ _ _ Hin).
  - destruct (noteMapFrom_entries _ _ _ _ _ _ Hin) as (_ & staves & _ & ->).
    apply Forall_forall. intros n Hn.
    apply (measureNotesOf_filed _ _ _ _ _ Hn).
  - apply Map_get_sorted; [apply noteMapFrom_sorted | exact Hin].
Qed.

(** X13.  When every staff measure with a shape has a non-zero width, every
    timestamp of the note map is a finite number: the pixel factor is never
    zero, so the only divisor that can vanish is the width. *)
Theorem timestamps_finite_for_nonzero_widths :
  forall (doc : Document) (sheet : GraphicalMusicSheet) (containerRect : DOMRect)
         (noteMap : JsMap (list NoteData)) (glyphMap : JsMap (list Elem)),
    (BoolReveal.calculateNoteMap doc (Some (mkOSMD (Some sheet))) (Some containerRect)
       = Normal (Some (noteMap, glyphMap)) \/
     TriReveal.calculateNoteMap doc (Some (mkOSMD (Some sheet))) (Some containerRect)
       = Normal (Some (noteMap, glyphMap))) ->
    widthsNonzero (MeasureList sheet) ->
    forall k ns n,
      In (k, ns) noteMap -> In n ns ->
      exists q, timestamp n = Fin q.
Proof.
  intros doc sheet containerRect noteMap glyphMap H Hw k ns n Hin Hn.
  apply calculateNoteMap_noteMap in H. subst noteMap.
  destruct (noteMapFrom_entries _ _ _ _ _ _ Hin) as (_ & staves & Hst & ->).
  destruct (measureNotesOf_filed _ _ _ _ _ Hn) as (_ & sm & pos & x & Hsm & Hp & Ht).
  rewrite Ht. eexists. apply js_div_finite.
  intros Hz. apply Qmult_integral in Hz. destruct Hz as [Hz|Hz].
  - apply (Hw staves sm pos Hst Hsm Hp). lra.
  - apply (unitInPixelsOf_nonzero sheet Hz).
Qed.

(** X14.  The two viewers build the same note map: whenever the mapper of
    the three-state viewer completes, the mapper of the boolean viewer
    completes on the same score and document with the same note map. *)
Theorem mappers_agree_on_the_note_map :
  forall (doc : Document) (sheet : GraphicalMusicSheet) (containerRect : DOMRect)
         (noteMap : JsMap (list NoteData)) (contentMap : JsMap (list Elem)),
    TriReveal.calculateNoteMap doc (Some (mkOSMD (Some sheet))) (Some containerRect)
      = Normal (Some (noteMap, contentMap)) ->
    exists beamsMap,
      BoolReveal.calculateNoteMap doc (Some (mkOSMD (Some sheet))) (Some containerRect)
        = Normal (Some (noteMap, beamsMap)).
Proof.
  intros doc sheet containerRect noteMap contentMap H.
  assert (Hc : completes (BoolReveal.calculateNoteMap doc
                            (Some (mkOSMD (Some sheet))) (Some containerRect))).
  { unfold BoolReveal.calculateNoteMap. simpl. apply bindC_completes.
    assert (Hm : completes (BoolReveal.mapNotes doc (unitInPixelsOf sheet) 0
                              (MeasureList sheet) [])).
    { apply BoolReveal_mapNotes_completes.
      assert (Ht : completes (TriReveal.calculateNoteMap doc
                                (Some (mkOSMD (Some sheet))) (Some containerRect)))
        by (eexists; exact H).
      unfold TriReveal.calculateNoteMap in Ht. simpl in Ht.
      apply bindC_completes in Ht. destruct Ht as (bounds & _ & Ht).
      apply bindC_completes in Ht. destruct Ht as (nm & En & _).
      assert (Hm : completes (TriReveal.mapNotes doc (unitInPixelsOf sheet) 0
                                (MeasureList sheet) [])) by (eexists; exact En).
      rewrite TriReveal_mapNotes_completes in Hm.
      intros staves sm Hin Hsm.
      destruct (Hm staves Hin (Some sm) Hsm) as (sm' & [= <-] & Hwf). exact Hwf. }
    destruct Hm as (nm & E). exists nm. split; [exact E | eexists; reflexivity]. }
  destruct Hc as ([[nm bm]|] & E).
  - exists bm. rewrite E. repeat f_equal.
    rewrite (calculateNoteMap_noteMap doc sheet containerRect nm bm (or_introl E)).
    symmetry.
    apply (calculateNoteMap_noteMap doc sheet containerRect noteMap contentMap
             (or_intror H)).
  - exfalso. unfold BoolReveal.calculateNoteMap in E. simpl in E.
    destruct (BoolReveal.mapNotes _ _ _ _ _); discriminate.
Qed.

Lemma sampleSheet_wellFormed : TriReveal_wellFormed (MeasureList sampleSheet).
Proof.
  intros ms Hms. simpl in Hms.
  destruct Hms as [<-|[<-|[<-|[]]]]; eexists; (split; [reflexivity|]);
    intros s [<-|[]]; eexists; (split; [reflexivity|]);
    (split; [discriminate|]);
    repeat (apply Forall_cons; [right; discriminate|]); apply Forall_nil.
Qed.

Lemma BoolReveal_mapper_completes_iff_well_formed_witness :
  completes (BoolReveal.calculateNoteMap sampleDocument
               (Some (mkOSMD (Some sampleSheet))) (Some (mkRect 0 0 300 300))).
Proof.
  apply (proj2 (BoolReveal_mapper_completes_iff_well_formed sampleDocument
                  sampleSheet (mkRect 0 0 300 300))).
  intros staves sm Hin Hsm.
  destruct (sampleSheet_wellFormed (Some staves) Hin) as (st & [= <-] & Hst).
  destruct (Hst (Some sm) Hsm) as (sm' & [= <-] & Hw). exact Hw.
Defined.

Lemma TriReveal_mapper_completes_iff_well_formed_witness :
  completes (TriReveal.calculateNoteMap sampleDocument
               (Some (mkOSMD (Some sampleSheet))) (Some (mkRect 0 0 300 300))).
Proof.
  apply (proj2 (TriReveal_mapper_completes_iff_well_formed sampleDocument
                  sampleSheet (mkRect 0 0 300 300))).
  exact sampleSheet_wellFormed.
Defined.

Lemma note_map_entries_are_filed_in_order_witness :
  Map_get sampleNoteMap 2 = Some [sampleNote "n3" 2%Z 2%nat (50#100)].
Proof.
  apply (proj2 (note_map_entries_are_filed_in_order sampleDocument sampleSheet
                  (mkRect 0 0 300 300) sampleNoteMap sampleBeamsMap
                  (or_introl (proj1 sample_maps)))
           2%Z [sampleNote "n3" 2%Z 2%nat (50#100)]).
  right. now left.
Defined.

Lemma sampleSheet_widthsNonzero : widthsNonzero (MeasureList sampleSheet).
Proof.
  intros staves sm pos Hin Hsm Hp. simpl in Hin.
  destruct Hin as [[= <-]|[[= <-]|[[= <-]|[]]]];
    destruct Hsm as [[= <-]|[]]; injection Hp as <-; discriminate.
Qed.

Lemma timestamps_finite_for_nonzero_widths_witness :
  exists q, timestamp (sampleNote "n3" 2%Z 2%nat (50#100)) = Fin q.
Proof.
  apply (timestamps_finite_for_nonzero_widths sampleDocument sampleSheet
           (mkRect 0 0 300 300) sampleNoteMap sampleBeamsMap
           (or_introl (proj1 sample_maps)) sampleSheet_widthsNonzero
           2%Z [sampleNote "n3" 2%Z 2%nat (50#100)]).
  - right. now left.
  - now left.
Defined.

Lemma mappers_agree_on_the_note_map_witness :
  exists beamsMap,
    BoolReveal.calculateNoteMap sampleDocument (Some (mkOSMD (Some sampleSheet)))
      (Some (mkRect 0 0 300 300)) = Normal (Some (sampleNoteMap, beamsMap)).
Proof.
  apply (mappers_agree_on_the_note_map sampleDocument sampleSheet
           (mkRect 0 0 300 300) sampleNoteMap sampleContentMap).
  exact (proj2 sample_maps).
Defined.

(** Whatever is filed was picked for its measure. *)
Lemma filing_sound {B : Type} (pick : Elem -> option B) (key : B -> Z)
    (els : list Elem) :
  forall (m : JsMap (list Elem)) (j : Z) (x : Elem),
    In (j, x)
       (glyphsOf elemsOf
          (fold_left (fun acc el => match pick el with
                                    | Some b => Map_push acc (key b) el
                                    | None => acc
                                    end) els m)) ->
    In (j, x) (glyphsOf elemsOf m) \/
    (In x els /\ exists b, pick x = Some b /\ key b = j).
Proof.
  induction els as [|el tl IH]; intros m j x H; simpl in H; [now left|].
  destruct (IH _ _ _ H) as [Hm|(Hx & b & Hb & Hk)].
  - destruct (pick el) as [b|] eqn:Eb; [|now left].
    apply glyphsOf_Map_push in Hm. destruct Hm as [Hm|[-> ->]]; [now left|].
    right. split; [now left|]. exists b. split; [exact Eb | reflexivity].
  - right. split; [now right|]. exists b. split; assumption.
Qed.

Lemma beamMeasureFrom_sound (doc : Document) (nm : JsMap (list NoteData))
    (beamRect : DOMRect) (steps : nat) :
  forall (m k : Z),
    BoolReveal.beamMeasureFrom doc nm beamRect m steps = Some k ->
    (m <= k < m + Z.of_nat steps)%Z /\
    exists first more firstEl lastEl,
      Map_get nm k = Some (first :: more) /\
      element first = Some firstEl /\
      element (last more first) = Some lastEl /\
      rect_left (getBoundingClientRect doc firstEl) - 10 <= rect_left beamRect /\
      rect_left beamRect <= rect_right (getBoundingClientRect doc lastEl) + 10.
Proof.
  induction steps as [|steps IH]; intros m k H; simpl in H; [discriminate|].
  assert (Hnext : BoolReveal.beamMeasureFrom doc nm beamRect (m + 1) steps = Some k ->
                  (m <= k < m + Z.of_nat (S steps))%Z /\
                  exists first more firstEl lastEl,
                    Map_get nm k = Some (first :: more) /\
                    element first = Some firstEl /\
                    element (last more first) = Some lastEl /\
                    rect_left (getBoundingClientRect doc firstEl) - 10 <= rect_left beamRect /\
                    rect_left beamRect <= rect_right (getBoundingClientRect doc lastEl) + 10).
  { intros Hn. destruct (IH _ _ Hn) as [Hr Hex]. split; [lia | exact Hex]. }
  destruct (Map_get nm m) as [[|first more]|] eqn:Eg; try (apply Hnext, H).
  destruct (element first) as [firstEl|] eqn:Ef; [|apply Hnext, H].
  destruct (element (last more first)) as [lastEl|] eqn:El; [|apply Hnext, H].
  destruct (Qleb (rect_left (getBoundingClientRect doc firstEl) - 10)
                 (rect_left beamRect) &&
            Qleb (rect_left beamRect)
                 (rect_right (getBoundingClientRect doc lastEl) + 10)) eqn:Ec;
    [|apply Hnext, H].
  injection H as <-. split; [lia|].
  apply andb_true_iff in Ec. destruct Ec as [E1 E2].
  apply Qleb_le in E1, E2.
  exists first, more, firstEl, lastEl. repeat split; assumption.
Qed.

(** X15.  The beams pass of the boolean viewer files every beam at most
    once, the document listing each beam once; a beam filed under measure
    [k] is one of the beams of the document, [k] is between 1 and the number
    of entries of the note map, and the left edge of the beam lies between
    the left edge of the first note of measure [k] less 10 pixels and the
    right edge of its last note plus 10 pixels. *)
Theorem beams_are_filed_once_near_their_notes :
  forall (doc : Document) (newNoteMap : JsMap (list NoteData)),
    NoDup (getElementsByClassName_vf_beam doc) ->
    oneMeasurePerGlyph (glyphsOf elemsOf (BoolReveal.mapBeams doc newNoteMap)) /\
    forall k beam,
      In (k, beam) (glyphsOf elemsOf (BoolReveal.mapBeams doc newNoteMap)) ->
      In beam (getElementsByClassName_vf_beam doc) /\
      (1 <= k <= Map_size newNoteMap)%Z /\
      exists first more firstEl lastEl,
        Map_get newNoteMap k = Some (first :: more) /\
        element first = Some firstEl /\
        element (last more first) = Some lastEl /\
        rect_left (getBoundingClientRect doc firstEl) - 10
          <= rect_left (getBoundingClientRect doc beam) /\
        rect_left (getBoundingClientRect doc beam)
          <= rect_right (getBoundingClientRect doc lastEl) + 10.
Proof.
  intros doc nm Hnd. split; [apply BoolReveal_mapBeams_oneMeasure, Hnd|].
  intros k beam Hin. unfold BoolReveal.mapBeams in Hin.
  apply (filing_sound
           (fun beamEl => BoolReveal.beamMeasureFrom doc nm
                            (getBoundingClientRect doc beamEl) 1 (length nm))
           (fun m : Z => m)) in Hin.
  destruct Hin as [[]|(Hb & m & Hm & <-)].
  split; [exact Hb|].
  destruct (beamMeasureFrom_sound _ _ _ _ _ _ Hm) as [Hr Hex].
  split; [unfold Map_size; lia | exact Hex].
Qed.

(** X16.  The content pass of the three-state viewer files every glyph at
    most once, the document listing each glyph once; a glyph filed under
    measure [k] is one of the glyphs selected, and its horizontal center,
    relative to the container, lies within the bounds of measure [k] widened
    by 10 pixels on each side. *)
Theorem glyphs_are_filed_once_within_their_measure :
  forall (doc : Document) (containerRect : DOMRect)
         (measureBounds : list TriReveal.MeasureBound),
    NoDup (querySelectorAll_glyphs doc) ->
    let contentMap := TriReveal.mapContent doc containerRect measureBounds in
    oneMeasurePerGlyph (glyphsOf elemsOf contentMap) /\
    forall k el,
      In (k, el) (glyphsOf elemsOf contentMap) ->
      In el (querySelectorAll_glyphs doc) /\
      exists b,
        In b measureBounds /\ TriReveal.bound_index b = k /\
        let rect := getBoundingClientRect doc el in
        let elCenterX := (rect_left rect - rect_left containerRect) + rect_width rect / 2 in
        TriReveal.bound_left b - 10 <= elCenterX /\
        elCenterX <= TriReveal.bound_right b + 10.
Proof.
  intros doc containerRect bounds Hnd contentMap. subst contentMap.
  split; [apply TriReveal_mapContent_oneMeasure, Hnd|].
  intros k el Hin. unfold TriReveal.mapContent in Hin.
  apply (filing_sound _ TriReveal.bound_index) in Hin.
  destruct Hin as [[]|(Hel & b & Hb & <-)].
  split; [exact Hel|]. exists b.
  apply find_some in Hb. destruct Hb as [Hb Hc].
  apply andb_true_iff in Hc. destruct Hc as [E1 E2]. apply Qleb_le in E1, E2.
  split; [exact Hb|]. split; [reflexivity|]. split; assumption.
Qed.

Lemma sample_beams_NoDup : NoDup (getElementsByClassName_vf_beam sampleDocument).
Proof. simpl. repeat constructor; simpl; intuition discriminate. Qed.

Lemma sample_glyphs_NoDup : NoDup (querySelectorAll_glyphs sampleDocument).
Proof. simpl. repeat constructor; simpl; intuition discriminate. Qed.

Lemma beams_are_filed_once_near_their_notes_witness :
  oneMeasurePerGlyph (glyphsOf elemsOf (BoolReveal.mapBeams sampleDocument sampleNoteMap)).
Proof.
  apply (beams_are_filed_once_near_their_notes sampleDocument sampleNoteMap).
  exact sample_beams_NoDup.
Defined.

Lemma glyphs_are_filed_once_within_their_measure_witness :
  oneMeasurePerGlyph
    (glyphsOf elemsOf
       (TriReveal.mapContent sampleDocument (mkRect 0 0 300 300)
          [TriReveal.mkMeasureBound 1 0 100; TriReveal.mkMeasureBound 2 100 200;
           TriReveal.mkMeasureBound 3 200 300])).
Proof.
  apply (glyphs_are_filed_once_within_their_measure sampleDocument
           (mkRect 0 0 300 300)
           [TriReveal.mkMeasureBound 1 0 100; TriReveal.mkMeasureBound 2 100 200;
            TriReveal.mkMeasureBound 3 200 300]).
  exact sample_glyphs_NoDup.
Defined.

(** ** Lists of style writes, and running them twice *)

Lemma applyWrites_lookup_opacity (ws : list Write) :
  forall (w : World) (el : Elem),
    opacity (applyWrites ws w) !! el =
    match lastOpacity ws el with
    | Some v => Some v
    | None => opacity w !! el
    end.
Proof.
  induction ws as [|x tl IH]; intros w el; [reflexivity|].
  simpl. rewrite IH. destruct (lastOpacity tl el); [reflexivity|].
  destruct x as [el' v|el' v]; simpl; [|reflexivity].
  destruct (Nat.eqb_spec el' el) as [->|Hne].
  - apply lookup_insert_eq.
  - apply lookup_insert_ne, Hne.
Qed.

Lemma applyWrites_lookup_color (ws : list Write) :
  forall (w : World) (el : Elem),
    color (applyWrites ws w) !! el =
    match lastColor ws el with
    | Some v => Some v
    | None => color w !! el
    end.
Proof.
  induction ws as [|x tl IH]; intros w el; [reflexivity|].
  simpl. rewrite IH. destruct (lastColor tl el); [reflexivity|].
  destruct x as [el' v|el' v]; simpl; [reflexivity|].
  destruct (Nat.eqb_spec el' el) as [->|Hne].
  - apply lookup_insert_eq.
  - apply lookup_insert_ne, Hne.
Qed.

Lemma applyWrites_rest (ws : list Write) :
  forall w : World,
    cursor (applyWrites ws w) = cursor w /\
    curtain (applyWrites ws w) = curtain w /\
    scrollContainer (applyWrites ws w) = scrollContainer w /\
    container (applyWrites ws w) = container w /\
    lastMeasureIndex (applyWrites ws w) = lastMeasureIndex w /\
    currentTime (applyWrites ws w) = currentTime w /\
    console (applyWrites ws w) = console w /\
    animationFrame (applyWrites ws w) = animationFrame w /\
    frameRequests (applyWrites ws w) = frameRequests w.
Proof.
  induction ws as [|x tl IH]; intros w; [repeat split|].
  simpl. destruct (IH (applyWrite w x)) as (H1 & H2 & H3 & H4 & H5 & H6 & H7 & H8 & H9).
  rewrite H1, H2, H3, H4, H5, H6, H7, H8, H9.
  destruct x; repeat split.
Qed.

Lemma World_ext (w w' : World) :
  opacity w' = opacity w -> color w' = color w ->
  cursor w' = cursor w /\ curtain w' = curtain w /\
  scrollContainer w' = scrollContainer w /\ container w' = container w /\
  lastMeasureIndex w' = lastMeasureIndex w /\ currentTime w' = currentTime w /\
  console w' = console w /\ animationFrame w' = animationFrame w /\
  frameRequests w' = frameRequests w ->
  w' = w.
Proof.
  destruct w, w'. simpl.
  intros -> -> (-> & -> & -> & -> & -> & -> & -> & -> & ->). reflexivity.
Qed.

(** Running a list of style writes a second time changes nothing. *)
Lemma applyWrites_twice (ws : list Write) (w : World) :
  applyWrites ws (applyWrites ws w) = applyWrites ws w.
Proof.
  apply World_ext.
  - apply map_eq. intros el. rewrite !applyWrites_lookup_opacity.
    destruct (lastOpacity ws el); reflexivity.
  - apply map_eq. intros el. rewrite !applyWrites_lookup_color.
    destruct (lastColor ws el); reflexivity.
  - apply applyWrites_rest.
Qed.

Lemma writes_twice (c : Cmd unit) (ws : list Write) :
  writes c ws -> forall w, (c ;; c) w = c w.
Proof.
  intros H w. unfold bind. rewrite (H w). cbv beta iota.
  rewrite (H (applyWrites ws w)), applyWrites_twice. reflexivity.
Qed.

Lemma lastOpacity_color_only (ws : list Write) (el : Elem) :
  (forall v, ~ In (SetOpacity el v) ws) -> lastOpacity ws el = None.
Proof.
  induction ws as [|x tl IH]; intros H; [reflexivity|].
  simpl. rewrite IH by (intros v Hv; apply (H v); now right).
  destruct x as [el' v|]; [|reflexivity].
  destruct (Nat.eqb_spec el' el) as [->|]; [|reflexivity].
  exfalso. apply (H v). now left.
Qed.

Lemma lastColor_opacity_only (ws : list Write) (el : Elem) :
  (forall v, ~ In (SetColor el v) ws) -> lastColor ws el = None.
Proof.
  induction ws as [|x tl IH]; intros H; [reflexivity|].
  simpl. rewrite IH by (intros v Hv; apply (H v); now right).
  destruct x as [|el' v]; [reflexivity|].
  destruct (Nat.eqb_spec el' el) as [->|]; [|reflexivity].
  exfalso. apply (H v). now left.
Qed.

(** A list of opacity writes leaves everything else as it was. *)
Lemma applyWrites_sameButOpacity (ws : list Write) (w : World) :
  (forall el v, ~ In (SetColor el v) ws) ->
  sameButOpacity w (applyWrites ws w).
Proof.
  intros H. unfold sameButOpacity.
  split; [|apply applyWrites_rest].
  apply map_eq. intros el. rewrite applyWrites_lookup_color.
  rewrite lastColor_opacity_only; [reflexivity|]. intros v. apply H.
Qed.

Lemma entryWrites_no_color {V : Type} (elems : V -> list Elem) (keep : Elem -> bool)
    (c : Z) (m : JsMap V) (el : Elem) (v : string) :
  ~ In (SetColor el v) (flat_map (entryWrites elems keep c) m).
Proof.
  rewrite in_flat_map. intros ([k x] & _ & H).
  unfold entryWrites, opacityWrites in H. simpl in H.
  destruct (k <? c)%Z; [|destruct (c <? k)%Z];
    apply in_map_iff in H; destruct H as (e & He & _); discriminate.
Qed.

(** The writes of the helpers, for every reveal mode. *)
Lemma BoolReveal_updateMeasureVisibility_writes_any (revealMode : bool)
    (noteMap : JsMap (list NoteData)) (beamsMap : JsMap (list Elem)) (c : Z) :
  writes (BoolReveal.updateMeasureVisibility revealMode noteMap beamsMap c)
         (if revealMode
          then flat_map (entryWrites noteElements noGlyph c) noteMap ++
               flat_map (entryWrites elemsOf allGlyphs c) beamsMap
          else []).
Proof.
  destruct revealMode.
  - apply BoolReveal_updateMeasureVisibility_writes.
  - apply writes_ret.
Qed.

Lemma TriReveal_updateMeasureVisibility_writes_any (doc : Document)
    (revealMode : TriReveal.RevealMode) (m : JsMap (list Elem)) (c : Z) :
  writes (TriReveal.updateMeasureVisibility doc revealMode m c)
         (if TriReveal.isNOTE revealMode
          then flat_map (entryWrites elemsOf (isBeamOrRest doc) c) m
          else []).
Proof.
  destruct revealMode; try apply writes_ret.
  apply TriReveal_updateMeasureVisibility_writes.
Qed.

(** X17 (updateMeasureVisibility, both viewers): running the visibility
    helper a second time for the same measure changes nothing: the frame
    loop may call it again and again without any drift of the page. *)
Theorem visibility_helper_is_idempotent :
  (forall (revealMode : bool) (noteMap : JsMap (list NoteData))
          (beamsMap : JsMap (list Elem)) (c : Z) (w : World),
      (BoolReveal.updateMeasureVisibility revealMode noteMap beamsMap c ;;
       BoolReveal.updateMeasureVisibility revealMode noteMap beamsMap c) w =
      BoolReveal.updateMeasureVisibility revealMode noteMap beamsMap c w) /\
  (forall (doc : Document) (revealMode : TriReveal.RevealMode)
          (measureContentMap : JsMap (list Elem)) (c : Z) (w : World),
      (TriReveal.updateMeasureVisibility doc revealMode measureContentMap c ;;
       TriReveal.updateMeasureVisibility doc revealMode measureContentMap c) w =
      TriReveal.updateMeasureVisibility doc revealMode measureContentMap c w).
Proof.
  split.
  - intros revealMode noteMap beamsMap c w.
    apply (writes_twice _ _
             (BoolReveal_updateMeasureVisibility_writes_any revealMode noteMap beamsMap c)).
  - intros doc revealMode m c w.
    apply (writes_twice _ _
             (TriReveal_updateMeasureVisibility_writes_any doc revealMode m c)).
Qed.

(** X18 (updateMeasureVisibility, both viewers): the visibility helper
    changes opacities only: colors, cursor, curtain, scroll position, clock
    and console stay as they were. It leaves the opacity of the glyphs that
    the note loop owns untouched: in the boolean viewer a note element filed
    under the current measure only and not as a beam, in the three-state
    viewer a glyph filed under the current measure only that is neither a
    beam nor a rest. *)
Theorem visibility_helper_touches_filed_glyphs_only :
  (forall (revealMode : bool) (noteMap : JsMap (list NoteData))
          (beamsMap : JsMap (list Elem)) (c : Z) (w : World),
      let w' := snd (BoolReveal.updateMeasureVisibility revealMode noteMap beamsMap c w) in
      sameButOpacity w w' /\
      (forall el,
          (forall k, In (k, el) (glyphsOf noteElements noteMap) -> k = c) ->
          (forall k, ~ In (k, el) (glyphsOf elemsOf beamsMap)) ->
          opacity w' !! el = opacity w !! el)) /\
  (forall (doc : Document) (revealMode : TriReveal.RevealMode)
          (measureContentMap : JsMap (list Elem)) (c : Z) (w : World),
      let w' := snd (TriReveal.updateMeasureVisibility doc revealMode
                       measureContentMap c w) in
      sameButOpacity w w' /\
      (forall el,
          (forall k, In (k, el) (glyphsOf elemsOf measureContentMap) ->
                     k = c /\ isBeamOrRest doc el = false) ->
          opacity w' !! el = opacity w !! el)).
Proof.
  split.
  - intros revealMode noteMap beamsMap c w w'. subst w'.
    rewrite (BoolReveal_updateMeasureVisibility_writes_any revealMode noteMap beamsMap c w).
    simpl snd. split.
    + apply applyWrites_sameButOpacity. intros el v Hin.
      destruct revealMode; [|destruct Hin].
      apply in_app_or in Hin. destruct Hin as [H|H]; apply entryWrites_no_color in H;
        exact H.
    + intros el Hnotes Hbeams. apply applyWrites_opacity_untouched.
      intros v Hin. destruct revealMode; [|destruct Hin].
      apply in_app_or in Hin. destruct Hin as [H|H].
      * unfold glyphsOf in Hnotes. apply in_flat_map in H.
        destruct H as ([k ns] & Hentry & H).
        assert (Hk : In el (noteElements ns) -> k = c).
        { intros Hel. apply Hnotes. apply in_flat_map. exists (k, ns).
          split; [exact Hentry|]. simpl. apply in_map_iff. exists el. auto. }
        unfold entryWrites, opacityWrites in H. simpl in H.
        destruct (k <? c)%Z eqn:E1; [|destruct (c <? k)%Z eqn:E2].
        -- apply in_map_iff in H. destruct H as (e & [= -> <-] & He).
           specialize (Hk He). lia.
        -- apply in_map_iff in H. destruct H as (e & [= -> <-] & He).
           specialize (Hk He). lia.
        -- rewrite filter_noGlyph in H. destruct H.
      * apply entryWrites_sound in H. destruct H as (k & Hk & _).
        apply (Hbeams k Hk).
  - intros doc revealMode m c w w'. subst w'.
    rewrite (TriReveal_updateMeasureVisibility_writes_any doc revealMode m c w).
    simpl snd. split.
    + apply applyWrites_sameButOpacity. intros el v Hin.
      destruct (TriReveal.isNOTE revealMode); [|destruct Hin].
      apply entryWrites_no_color in Hin. exact Hin.
    + intros el Hel. apply applyWrites_opacity_untouched.
      intros v Hin. destruct (TriReveal.isNOTE revealMode); [|destruct Hin].
      apply in_flat_map in Hin. destruct Hin as ([k els] & Hentry & H).
      assert (Hk : In el (elemsOf els) -> k = c /\ isBeamOrRest doc el = false).
      { intros He. apply Hel. apply in_flat_map. exists (k, els).
        split; [exact Hentry|]. simpl. apply in_map_iff. exists el. auto. }
      unfold entryWrites, opacityWrites in H. simpl in H.
      destruct (k <? c)%Z eqn:E1; [|destruct (c <? k)%Z eqn:E2].
      * apply in_map_iff in H. destruct H as (e & [= -> <-] & He).
        destruct (Hk He). lia.
      * apply in_map_iff in H. destruct H as (e & [= -> <-] & He).
        destruct (Hk He). lia.
      * apply in_map_iff in H. destruct H as (e & [= -> <-] & He).
        apply filter_In in He. destruct He as [He Hb].
        destruct (Hk He). congruence.
Qed.

Lemma visibility_helper_touches_filed_glyphs_only_witness :
  opacity (snd (BoolReveal.updateMeasureVisibility true sampleNoteMap sampleBeamsMap 2
                  sampleWorld)) !! 2%nat =
  opacity sampleWorld !! 2%nat.
Proof.
  apply (proj2 (proj1 visibility_helper_touches_filed_glyphs_only
                  true sampleNoteMap sampleBeamsMap 2%Z sampleWorld) 2%nat).
  - intros k H. vm_compute in H. intuition congruence.
  - intros k H. vm_compute in H. intuition congruence.
Defined.

(** ** Leaving reveal mode *)

Lemma writes_showNotes (noteMap : JsMap (list NoteData)) :
  writes (showNotes noteMap)
         (showWrites noteElements noteMap).
Proof.
  unfold showNotes, showWrites. apply writes_forEach. intros entry _. apply writes_note_opacity.
Qed.

Lemma writes_showGlyphs (glyphMap : JsMap (list Elem)) :
  writes (showGlyphs glyphMap)
         (showWrites elemsOf glyphMap).
Proof.
  unfold showGlyphs, showWrites. apply writes_forEach. intros entry _. apply writes_elem_opacity.
Qed.

Lemma showWrites_all {V : Type} (elems : V -> list Elem) (m : JsMap V)
    (el : Elem) (v : string) :
  In (SetOpacity el v) (showWrites elems m) <->
  v = "1"%string /\ exists k, In (k, el) (glyphsOf elems m).
Proof.
  unfold showWrites, glyphsOf, opacityWrites. rewrite in_flat_map. split.
  - intros ([k x] & Hentry & H). simpl in H. apply in_map_iff in H.
    destruct H as (e & [= -> <-] & He). split; [reflexivity|].
    exists k. apply in_flat_map. exists (k, x). split; [exact Hentry|].
    simpl. apply in_map_iff. exists el. auto.
  - intros (-> & k & H). apply in_flat_map in H.
    destruct H as ([k' x] & Hentry & H). simpl in H. apply in_map_iff in H.
    destruct H as (e & [= -> ->] & He).
    exists (k, x). split; [exact Hentry|]. simpl. apply in_map_iff. exists el. auto.
Qed.

Lemma showWrites_no_color {V : Type} (elems : V -> list Elem) (m : JsMap V)
    (el : Elem) (v : string) :
  ~ In (SetColor el v) (showWrites elems m).
Proof.
  unfold showWrites. rewrite in_flat_map. intros (entry & _ & H). unfold opacityWrites in H.
  apply in_map_iff in H. destruct H as (e & He & _). discriminate.
Qed.

Lemma writes_then {A : Type} (c : Cmd unit) (k : Cmd A) (ws1 ws2 : list Write) (a : A) :
  writes c ws1 ->
  (forall w, k w = (Normal a, applyWrites ws2 w)) ->
  forall w, (c ;; k) w = (Normal a, applyWrites (ws1 ++ ws2) w).
Proof.
  intros H1 H2 w. unfold bind. rewrite H1. cbv beta iota.
  rewrite H2, applyWrites_app. reflexivity.
Qed.

Lemma writes_gets {A : Type} (f : World -> A) (k : A -> Cmd unit) (ws : list Write) :
  (forall a, writes (k a) ws) -> writes (bind (gets f) k) ws.
Proof. intros H w. unfold bind, gets. apply H. Qed.

Lemma BoolReveal_revealEffect_off_writes (props : Props) (beamsMap : JsMap (list Elem)) :
  writes (BoolReveal_revealEffect props false beamsMap)
         (showWrites noteElements (noteMap props) ++ showWrites elemsOf beamsMap).
Proof.
  unfold BoolReveal_revealEffect.
  apply (writes_seq (showNotes (noteMap props)) (showGlyphs beamsMap));
    [apply writes_showNotes | apply writes_showGlyphs].
Qed.

(** Away from NOTE mode the mode switching effect is a list of writes: one
    sweep when it leaves NOTE mode, one when it enters CURTAIN mode. *)
Lemma TriReveal_modeEffect_away_run (doc : Document) (props : Props)
    (prevRevealMode revealMode : TriReveal.RevealMode)
    (measureContentMap : JsMap (list Elem)) (w : World) :
  revealMode <> TriReveal.NOTE ->
  TriReveal_modeEffect doc props prevRevealMode revealMode measureContentMap w =
  (Normal revealMode,
   applyWrites
     ((if TriReveal.isNOTE prevRevealMode
       then showWrites elemsOf measureContentMap else []) ++
      [] ++
      (match revealMode with
       | TriReveal.CURTAIN => showWrites elemsOf measureContentMap
       | _ => []
       end) ++ []) w).
Proof.
  intros Hmode. unfold TriReveal_modeEffect. revert w.
  apply writes_then; [|apply writes_then; [|apply writes_then]].
  - destruct prevRevealMode, revealMode; try contradiction;
      first [apply writes_showGlyphs | apply writes_ret].
  - apply writes_gets. intros audio.
    destruct revealMode; try contradiction; apply writes_ret.
  - destruct revealMode; try contradiction;
      first [apply writes_showGlyphs | apply writes_ret].
  - reflexivity.
Qed.

(** X19 (the toggle effect of the boolean viewer, the mode switching
    effect of the three-state viewer): switching reveal off in the boolean
    viewer makes every filed note element and beam opaque and changes
    nothing but opacities; in the three-state viewer leaving NOTE mode for
    OFF, or entering CURTAIN mode from any mode, makes every filed glyph
    opaque, changes nothing but opacities, and records the new mode. *)
Theorem leaving_reveal_shows_everything :
  (forall (props : Props) (beamsMap : JsMap (list Elem)) (w : World),
      let w' := snd (BoolReveal_revealEffect props false beamsMap w) in
      sameButOpacity w w' /\
      (forall k el,
          In (k, el) (glyphsOf noteElements (noteMap props) ++
                      glyphsOf elemsOf beamsMap) ->
          opacity w' !! el = Some "1"%string)) /\
  (forall (doc : Document) (props : Props)
          (prevRevealMode revealMode : TriReveal.RevealMode)
          (measureContentMap : JsMap (list Elem)) (w : World),
      (prevRevealMode = TriReveal.NOTE /\ revealMode = TriReveal.OFF) \/
      revealMode = TriReveal.CURTAIN ->
      let outcome :=
        TriReveal_modeEffect doc props prevRevealMode revealMode measureContentMap w in
      fst outcome = Normal revealMode /\
      sameButOpacity w (snd outcome) /\
      (forall k el,
          In (k, el) (glyphsOf elemsOf measureContentMap) ->
          opacity (snd outcome) !! el = Some "1"%string)).
Proof.
  split.
  - intros props beamsMap w w'. subst w'.
    rewrite (BoolReveal_revealEffect_off_writes props beamsMap w).
    simpl snd. split.
    + apply applyWrites_sameButOpacity. intros el v Hin.
      apply in_app_or in Hin. destruct Hin as [H|H]; apply showWrites_no_color in H;
        exact H.
    + intros k el Hin. apply applyWrites_opacity.
      * apply in_or_app. apply in_app_or in Hin.
        destruct Hin as [H|H]; [left | right]; apply showWrites_all; eauto.
      * intros v' Hv. apply in_app_or in Hv.
        destruct Hv as [H|H]; apply showWrites_all in H; apply H.
  - intros doc props prev rm mcm w Hmode outcome. subst outcome.
    rewrite TriReveal_modeEffect_away_run
      by (destruct Hmode as [[_ ->] | ->]; discriminate).
    simpl fst. simpl snd. split; [reflexivity|].
    match goal with |- context [applyWrites ?l w] => set (ws := l) end.
    assert (Hop : forall el v, In (SetOpacity el v) ws <->
                    v = "1"%string /\ exists k, In (k, el) (glyphsOf elemsOf mcm)).
    { intros el v. subst ws. rewrite !in_app_iff.
      destruct Hmode as [[-> ->] | ->]; simpl TriReveal.isNOTE; cbv iota.
      - rewrite showWrites_all. simpl. tauto.
      - rewrite showWrites_all. destruct (TriReveal.isNOTE prev).
        + rewrite showWrites_all. simpl. tauto.
        + simpl. tauto. }
    assert (Hcol : forall el v, ~ In (SetColor el v) ws).
    { intros el v Hin. subst ws. apply in_app_or in Hin.
      destruct Hin as [H | H]; [|simpl in H; rewrite app_nil_r in H].
      - destruct (TriReveal.isNOTE prev); [|destruct H].
        apply showWrites_no_color in H. exact H.
      - destruct rm; try destruct H. apply showWrites_no_color in H. exact H. }
    split.
    + apply applyWrites_sameButOpacity, Hcol.
    + intros k el Hin. apply applyWrites_opacity.
      * apply Hop. split; [reflexivity | eauto].
      * intros v' Hv. apply Hop in Hv. apply Hv.
Qed.

Lemma leaving_reveal_shows_everything_witness :
  (TriReveal.NOTE = TriReveal.NOTE /\ TriReveal.OFF = TriReveal.OFF \/
   TriReveal.OFF = TriReveal.CURTAIN) /\
  opacity (snd (TriReveal_modeEffect sampleDocument
                  (sampleProps sampleAnchors PLAYBACK sampleNoteMap)
                  TriReveal.NOTE TriReveal.OFF sampleContentMap sampleWorld))
    !! 22%nat = Some "1"%string.
Proof.
  assert (H : TriReveal.NOTE = TriReveal.NOTE /\ TriReveal.OFF = TriReveal.OFF \/
              TriReveal.OFF = TriReveal.CURTAIN) by (left; split; reflexivity).
  split; [exact H|].
  apply (proj2 (proj2 (proj2 leaving_reveal_shows_everything sampleDocument
                         (sampleProps sampleAnchors PLAYBACK sampleNoteMap)
                         TriReveal.NOTE TriReveal.OFF sampleContentMap sampleWorld H))
           2%Z 22%nat).
  vm_compute. tauto.
Defined.

(** ** Readings of the world that a command leaves alone *)

Lemma preserves_ret {A F : Type} (f : World -> F) (a : A) : preserves f (ret a).
Proof. intros w. reflexivity. Qed.

Lemma preserves_throw {A F : Type} (f : World -> F) (msg : string) :
  preserves f (@throw A msg).
Proof. intros w. reflexivity. Qed.

Lemma preserves_modify {F : Type} (f : World -> F) (g : World -> World) :
  (forall w, f (g w) = f w) -> preserves f (modify g).
Proof. intros H w. apply H. Qed.

Lemma preserves_bind {A B F : Type} (f : World -> F) (c : Cmd A) (k : A -> Cmd B) :
  preserves f c -> (forall a, preserves f (k a)) -> preserves f (bind c k).
Proof.
  intros Hc Hk w. unfold bind. specialize (Hc w).
  destruct (c w) as [[a|msg] w1]; simpl in Hc.
  - rewrite (Hk a w1). exact Hc.
  - exact Hc.
Qed.

Lemma preserves_forEach {A F : Type} (f : World -> F) (g : A -> Cmd unit) (l : list A) :
  (forall a, In a l -> preserves f (g a)) -> preserves f (forEach g l).
Proof.
  induction l as [|a tl IH]; intros H; simpl.
  - apply preserves_ret.
  - apply preserves_bind; [apply H; now left | intros _; apply IH].
    intros b Hb. apply H. now right.
Qed.

Lemma preserves_try_catch_log {F : Type} (f : World -> F) (label : string)
    (body : Cmd unit) :
  (forall msg w, f (console_error msg w) = f w) ->
  preserves f body -> preserves f (try_catch_log label body).
Proof.
  intros Hf H w. unfold try_catch_log. specialize (H w).
  destruct (body w) as [[[]|msg] w1]; simpl in *; [exact H|].
  rewrite Hf. exact H.
Qed.

Lemma preserves_setOpacity_other (el el' : Elem) (v : string) :
  el' <> el -> preserves (fun w => opacity w !! el) (setOpacity el' v).
Proof. intros Hne w. simpl. apply lookup_insert_ne, Hne. Qed.

Lemma preserves_applyColor_other (el el' : Elem) (v : string) :
  el' <> el -> preserves (fun w => color w !! el) (applyColor el' v).
Proof. intros Hne w. simpl. apply lookup_insert_ne, Hne. Qed.

(** The note loops write to the element of the note they are at, and to
    nothing else. *)
Lemma BoolReveal_highlightNote_touchesOnlyNote (rm : bool) (hp : Q) :
  touchesOnlyNote (BoolReveal.highlightNote rm hp).
Proof.
  intros n F f Ho Hc. unfold BoolReveal.highlightNote.
  destruct (element n) as [el|]; [|apply preserves_ret].
  apply preserves_bind.
  - destruct rm; [destruct (isAhead hp (timestamp n))|];
      intros w; apply Ho; reflexivity.
  - intros _. destruct (isHighlighted hp (timestamp n));
      intros w; apply Hc; reflexivity.
Qed.

Lemma TriReveal_highlightNote_touchesOnlyNote (rm : TriReveal.RevealMode) (hp : Q) :
  touchesOnlyNote (TriReveal.highlightNote rm hp).
Proof.
  intros n F f Ho Hc. unfold TriReveal.highlightNote.
  destruct (element n) as [el|]; [|apply preserves_ret].
  apply preserves_bind.
  - destruct (TriReveal.isNOTE rm); [destruct (isAhead hp (timestamp n))|];
      first [apply preserves_ret | intros w; apply Ho; reflexivity].
  - intros _. destruct (isHighlighted hp (timestamp n));
      intros w; apply Hc; reflexivity.
Qed.

Lemma BoolReveal_resetNote_touchesOnlyNote : touchesOnlyNote BoolReveal.resetNote.
Proof.
  intros n F f Ho Hc. unfold BoolReveal.resetNote.
  destruct (element n) as [el|]; [|apply preserves_ret].
  apply preserves_bind; [intros w; apply Hc; reflexivity|].
  intros _. apply preserves_throw.
Qed.

Lemma TriReveal_resetNote_touchesOnlyNote : touchesOnlyNote TriReveal.resetNote.
Proof.
  intros n F f Ho Hc. unfold TriReveal.resetNote.
  destruct (element n) as [el|]; [|apply preserves_ret].
  apply preserves_bind; [intros w; apply Hc; reflexivity|].
  intros _ w. apply Ho. reflexivity.
Qed.

Lemma preserves_noteLoops {F : Type} (f : World -> F)
    (highlight reset : NoteData -> Cmd unit) (props : Props) (measure : Z) :
  touchesOnlyNote highlight -> touchesOnlyNote reset ->
  (forall ns n el v w,
      Map_get (noteMap props) measure = Some ns -> In n ns -> element n = Some el ->
      f (set_opacity (fun m => <[el := v]> m) w) = f w /\
      f (set_color (fun m => <[el := v]> m) w) = f w) ->
  preserves f (noteLoops highlight reset props measure).
Proof.
  intros Hh Hr H. unfold noteLoops.
  destruct (Map_get (noteMap props) measure) as [ns|] eqn:E.
  - apply preserves_bind; [|intros _]; destruct (mode props);
      try apply preserves_ret; apply preserves_forEach; intros n Hn;
      [apply Hh | apply Hr]; intros el v w Hel; apply (H ns n el v w eq_refl Hn Hel).
  - apply preserves_bind; [|intros _]; destruct (mode props); apply preserves_ret.
Qed.

(** ** The frame step before the note loops *)

Lemma applyWrites_lookup_color_all (ws : list Write) (w : World) :
  (forall el v, ~ In (SetColor el v) ws) -> color (applyWrites ws w) = color w.
Proof. intros H. apply (applyWrites_sameButOpacity ws w H). Qed.


Lemma bind_step {B : Type} (c : Cmd unit) (k : unit -> Cmd B) (w : World) :
  fst (c w) = Normal tt -> bind c k w = k tt (snd (c w)).
Proof.
  unfold bind. destruct (c w) as [[[]|msg] w1]; simpl; intros H;
    [reflexivity | discriminate].
Qed.

Lemma preserves_paintCursor {F : Type} (f : World -> F) (m : AppMode) (x t h : Q) :
  (forall c w, f (set_cursor c w) = f w) -> preserves f (paintCursor m x t h).
Proof. intros H w. apply H. Qed.

Lemma preserves_scrollLogic {F : Type} (f : World -> F) (x : Q) (i : Z) :
  (forall s w, f (set_scrollContainer s w) = f w) -> preserves f (scrollLogic x i).
Proof.
  intros H w. unfold scrollLogic, modify. simpl.
  destruct (scrollContainer w); [apply H | reflexivity].
Qed.

Lemma preserves_slideCurtain {F : Type} (f : World -> F) (r : TriReveal.RevealMode)
    (x : Q) :
  (forall c w, f (set_curtain c w) = f w) -> preserves f (TriReveal.slideCurtain r x).
Proof.
  intros H w. unfold TriReveal.slideCurtain, modify. simpl.
  destruct (curtain w); [|reflexivity]. destruct r; apply H.
Qed.

(** The scroll logic reads the scroll container and the last measure only. *)
Lemma scrollLogic_reads (x : Q) (i : Z) (w w1 : World) :
  scrollContainer w1 = scrollContainer w ->
  lastMeasureIndex w1 = lastMeasureIndex w ->
  scrollContainer (snd (scrollLogic x i w1)) = scrollContainer (snd (scrollLogic x i w)).
Proof.
  intros Hs Hl. unfold scrollLogic, modify. simpl. rewrite Hs, Hl.
  destruct (scrollContainer w) eqn:E; [reflexivity | congruence].
Qed.

(** What the cursor, the scroll logic and the curtain leave behind. *)
Lemma paint_scroll_fields (m : AppMode) (x t h : Q) (i : Z) (w : World) :
  let w2 := snd (scrollLogic x i (snd (paintCursor m x t h w))) in
  cursor w2 =
    Some {| cursor_left := x; cursor_top := t; cursor_height := h;
            cursor_display := "block";
            cursor_backgroundColor :=
              match m with RECORD => recordColor | PLAYBACK => playbackColor end;
            cursor_boxShadow :=
              match m with RECORD => recordShadow | PLAYBACK => playbackShadow end |} /\
  lastMeasureIndex w2 = lastMeasureIndex w /\
  scrollContainer w2 = scrollContainer (snd (scrollLogic x i w)) /\
  color w2 = color w /\ console w2 = console w /\ currentTime w2 = currentTime w /\
  opacity w2 = opacity w /\ curtain w2 = curtain w.
Proof.
  unfold scrollLogic, paintCursor, modify. simpl.
  destruct (scrollContainer w); simpl; repeat split.
Qed.

Lemma slideCurtain_fields (r : TriReveal.RevealMode) (x : Q) (w : World) :
  let w' := snd (TriReveal.slideCurtain r x w) in
  cursor w' = cursor w /\ lastMeasureIndex w' = lastMeasureIndex w /\
  scrollContainer w' = scrollContainer w /\ color w' = color w /\
  console w' = console w /\ currentTime w' = currentTime w /\
  opacity w' = opacity w.
Proof.
  unfold TriReveal.slideCurtain, modify. simpl.
  destruct (curtain w); [destruct r|]; simpl; repeat split.
Qed.

Lemma TriReveal_frameBody_prefix (doc : Document) (props : Props)
    (rm : TriReveal.RevealMode) (mcm : JsMap (list Elem))
    (sheet : GraphicalMusicSheet) (measure : Z) (prog : Q)
    (e : Extent) (minNoteX : Q) :
  frameGeometry sheet measure e minNoteX ->
  forall w, exists w3,
    TriReveal.frameBody doc props rm mcm sheet measure prog w =
      noteLoops (TriReveal.highlightNote rm
                   (highlightProgressOf e
                      (visualStartXOf measure (unitInPixelsOf sheet) e minNoteX) prog))
                TriReveal.resetNote props measure w3 /\
    loopsStartFrom props sheet measure prog e minNoteX
      (TriReveal.isNOTE rm && negb (measure - 1 =? lastMeasureIndex w)%Z) w w3 /\
    curtain w3 =
      curtain (snd (TriReveal.slideCurtain rm
                      (visualStartXOf measure (unitInPixelsOf sheet) e minNoteX *
                         unitInPixelsOf sheet +
                       (maxX e - visualStartXOf measure (unitInPixelsOf sheet) e minNoteX) *
                         unitInPixelsOf sheet * prog) w)).
Proof.
  intros (Hrange & staves & Hat & Hne & Hgeo) w.
  unfold TriReveal.frameBody.
  destruct (MeasureList sheet) as [|m0 ml] eqn:Eml; [simpl in Hrange; lia|].
  destruct (Z.leb_spec (Z.of_nat (length (m0 :: ml))) (measure - 1)) as [Hge|_]; [lia|].
  rewrite Hat.
  destruct staves as [|s0 staves]; [contradiction|].
  unfold bind at 1. unfold liftC. rewrite Hgeo. cbv beta iota zeta.
  set (u := unitInPixelsOf sheet).
  set (startX := visualStartXOf measure u e minNoteX).
  set (cursorX := startX * u + (maxX e - startX) * u * prog).
  rewrite (bind_step (paintCursor _ _ _ _) _ w eq_refl).
  rewrite (bind_step (scrollLogic _ _) _ _ eq_refl).
  rewrite (bind_step (TriReveal.slideCurtain _ _) _ _ eq_refl).
  destruct (paint_scroll_fields (mode props) cursorX (minY e * u)
              ((maxY e - minY e) * u) (measure - 1) w)
    as (P1 & P2 & P3 & P4 & P5 & P6 & P7 & P8).
  set (w2 := snd (scrollLogic cursorX (measure - 1)
                    (snd (paintCursor (mode props) cursorX (minY e * u)
                            ((maxY e - minY e) * u) w)))) in *.
  destruct (slideCurtain_fields rm cursorX w2) as (S1 & S2 & S3 & S4 & S5 & S6 & S7).
  assert (S8 : curtain (snd (TriReveal.slideCurtain rm cursorX w2)) =
               curtain (snd (TriReveal.slideCurtain rm cursorX w))).
  { unfold TriReveal.slideCurtain, modify. simpl. rewrite P8.
    destruct (curtain w) eqn:Ek; [destruct rm; reflexivity | congruence]. }
  set (w2' := snd (TriReveal.slideCurtain rm cursorX w2)) in *.
  set (runs := TriReveal.isNOTE rm && negb (measure - 1 =? lastMeasureIndex w)%Z).
  set (ws := if runs
             then flat_map (entryWrites elemsOf (isBeamOrRest doc) measure) mcm
             else []).
  assert (Hvis : (let* lastIndex := gets lastMeasureIndex in
                  if TriReveal.isNOTE rm && negb (measure - 1 =? lastIndex)%Z
                  then TriReveal.updateMeasureVisibility doc rm mcm measure
                  else ret tt) w2' = (Normal tt, applyWrites ws w2')).
  { unfold bind, gets. rewrite S2, P2. fold runs. subst ws.
    destruct runs eqn:Eruns; [|reflexivity].
    subst runs. apply andb_true_iff in Eruns. destruct Eruns as [Hnote _].
    destruct rm; try discriminate.
    apply TriReveal_updateMeasureVisibility_writes. }
  rewrite (bind_step _ _ w2' (f_equal fst Hvis)). rewrite Hvis. simpl snd.
  rewrite (bind_step (modify _) _ _ eq_refl).
  eexists. split; [reflexivity|].
  destruct (applyWrites_rest ws w2') as (R1 & R2 & R3 & R4 & R5 & R6 & R7 & R8 & R9).
  split; [|simpl; rewrite R2; exact S8].
  unfold loopsStartFrom. fold u. fold startX. fold cursorX. simpl.
  rewrite R1, R3, R6, R7, S1, S3, S5, S6, P1, P3, P5, P6.
  repeat split.
  - rewrite applyWrites_lookup_color_all; [congruence|].
    intros el v. subst ws. destruct runs; [apply entryWrites_no_color | intros []].
  - intros Hruns. subst ws. rewrite Hruns. simpl. congruence.
Qed.

Lemma BoolReveal_frameBody_prefix (props : Props) (rm : bool)
    (beamsMap : JsMap (list Elem))
    (sheet : GraphicalMusicSheet) (measure : Z) (prog : Q)
    (e : Extent) (minNoteX : Q) :
  frameGeometry sheet measure e minNoteX ->
  forall w, exists w3,
    BoolReveal.frameBody props rm beamsMap sheet measure prog w =
      noteLoops (BoolReveal.highlightNote rm
                   (highlightProgressOf e
                      (visualStartXOf measure (unitInPixelsOf sheet) e minNoteX) prog))
                BoolReveal.resetNote props measure w3 /\
    loopsStartFrom props sheet measure prog e minNoteX
      (rm && negb (measure - 1 =? lastMeasureIndex w)%Z) w w3.
Proof.
  intros (Hrange & staves & Hat & Hne & Hgeo) w.
  unfold BoolReveal.frameBody.
  destruct (MeasureList sheet) as [|m0 ml] eqn:Eml; [simpl in Hrange; lia|].
  destruct (Z.leb_spec (Z.of_nat (length (m0 :: ml))) (measure - 1)) as [Hge|_]; [lia|].
  rewrite Hat.
  destruct staves as [|s0 staves]; [contradiction|].
  unfold bind at 1. unfold liftC. rewrite Hgeo. cbv beta iota zeta.
  set (u := unitInPixelsOf sheet).
  set (startX := visualStartXOf measure u e minNoteX).
  set (cursorX := startX * u + (maxX e - startX) * u * prog).
  rewrite (bind_step (paintCursor _ _ _ _) _ w eq_refl).
  rewrite (bind_step (scrollLogic _ _) _ _ eq_refl).
  destruct (paint_scroll_fields (mode props) cursorX (minY e * u)
              ((maxY e - minY e) * u) (measure - 1) w)
    as (P1 & P2 & P3 & P4 & P5 & P6 & P7 & _).
  set (w2 := snd (scrollLogic cursorX (measure - 1)
                    (snd (paintCursor (mode props) cursorX (minY e * u)
                            ((maxY e - minY e) * u) w)))) in *.
  set (runs := rm && negb (measure - 1 =? lastMeasureIndex w)%Z).
  set (ws := if runs
             then flat_map (entryWrites noteElements noGlyph measure) (noteMap props) ++
                  flat_map (entryWrites elemsOf allGlyphs measure) beamsMap
             else []).
  assert (Hvis : (let* lastIndex := gets lastMeasureIndex in
                  if rm && negb (measure - 1 =? lastIndex)%Z
                  then BoolReveal.updateMeasureVisibility rm (noteMap props) beamsMap measure
                  else ret tt) w2 = (Normal tt, applyWrites ws w2)).
  { unfold bind, gets. rewrite P2. fold runs. subst ws.
    destruct runs eqn:Eruns; [|reflexivity].
    subst runs. apply andb_true_iff in Eruns. destruct Eruns as [Hnote _].
    subst rm. apply BoolReveal_updateMeasureVisibility_writes. }
  rewrite (bind_step _ _ w2 (f_equal fst Hvis)). rewrite Hvis. simpl snd.
  rewrite (bind_step (modify _) _ _ eq_refl).
  eexists. split; [reflexivity|].
  destruct (applyWrites_rest ws w2) as (R1 & R2 & R3 & R4 & R5 & R6 & R7 & R8 & R9).
  unfold loopsStartFrom. fold u. fold startX. fold cursorX. simpl.
  rewrite R1, R3, R6, R7, P1, P3, P5, P6.
  repeat split.
  - rewrite applyWrites_lookup_color_all; [congruence|].
    intros el v Hin. subst ws. destruct runs; [|destruct Hin].
    apply in_app_or in Hin.
    destruct Hin as [H|H]; apply entryWrites_no_color in H; exact H.
  - intros Hruns. subst ws. rewrite Hruns. simpl. congruence.
Qed.

(** ** What a frame leaves behind *)

Lemma loops_then_catch {F : Type} (f : World -> F)
    (highlight reset : NoteData -> Cmd unit) (props : Props) (measure : Z)
    (label : string) (body : Cmd unit) (w w3 : World) :
  body w = noteLoops highlight reset props measure w3 ->
  (forall msg w, f (console_error msg w) = f w) ->
  preserves f (noteLoops highlight reset props measure) ->
  f (snd (try_catch_log label body w)) = f w3.
Proof.
  intros E Hf Hp. unfold try_catch_log. rewrite E. specialize (Hp w3).
  destruct (noteLoops highlight reset props measure w3) as [[[]|msg] w4];
    simpl in *; [exact Hp | rewrite Hf; exact Hp].
Qed.

(** The world at the start of the note loops, for a frame of either viewer
    that reads the geometry of its measure, and what the loops may do to it. *)
Lemma frame_reaches_loops (props : Props) (t : Q) (w : World) (osmd : OSMD)
    (sheet : GraphicalMusicSheet) (c0 : CursorStyle) (e : Extent) (minNoteX : Q) :
  osmdRef props = Some osmd ->
  isLoaded props = true ->
  cursor w = Some c0 ->
  GraphicSheet osmd = Some sheet ->
  let located := findCurrentMeasure (anchors props) t in
  frameGeometry sheet (loc_measure located) e minNoteX ->
  forall w',
    (exists rm beamsMap, w' = snd (BoolReveal.updateCursorPosition props rm beamsMap t w)) \/
    (exists doc rm measureContentMap,
        w' = snd (TriReveal.updateCursorPosition doc props rm measureContentMap t w)) ->
    exists w3 runs,
      loopsStartFrom props sheet (loc_measure located) (progress located) e minNoteX
        runs w w3 /\
      (lastMeasureIndex w = (loc_measure located - 1)%Z -> runs = false) /\
      forall (F : Type) (f : World -> F),
        (forall msg w, f (console_error msg w) = f w) ->
        (forall ns n el v w,
            Map_get (noteMap props) (loc_measure located) = Some ns ->
            In n ns -> element n = Some el ->
            f (set_opacity (fun m => <[el := v]> m) w) = f w /\
            f (set_color (fun m => <[el := v]> m) w) = f w) ->
        f w' = f w3.
Proof.
  intros Ho Hl Hc Hs located Hgeo w' [(rm & bm & ->) | (doc & rm & mcm & ->)].
  - rewrite (BoolReveal_updateCursorPosition_run props rm bm t w osmd sheet c0
               Ho Hl Hc Hs).
    fold located.
    destruct (BoolReveal_frameBody_prefix props rm bm sheet (loc_measure located)
                (progress located) e minNoteX Hgeo w) as (w3 & E & Hstart).
    exists w3, (rm && negb (loc_measure located - 1 =? lastMeasureIndex w)%Z).
    split; [exact Hstart|]. split.
    { intros ->. rewrite Z.eqb_refl. apply andb_false_r. }
    intros F f Hf Hn.
    apply (loops_then_catch f _ _ _ _ _ _ w w3 E Hf).
    apply preserves_noteLoops;
      [apply BoolReveal_highlightNote_touchesOnlyNote
      |apply BoolReveal_resetNote_touchesOnlyNote | exact Hn].
  - rewrite (TriReveal_updateCursorPosition_run doc props rm mcm t w osmd sheet c0
               Ho Hl Hc Hs).
    fold located.
    destruct (TriReveal_frameBody_prefix doc props rm mcm sheet (loc_measure located)
                (progress located) e minNoteX Hgeo w) as (w3 & E & Hstart & _).
    exists w3, (TriReveal.isNOTE rm &&
                negb (loc_measure located - 1 =? lastMeasureIndex w)%Z).
    split; [exact Hstart|]. split.
    { intros ->. rewrite Z.eqb_refl. apply andb_false_r. }
    intros F f Hf Hn.
    apply (loops_then_catch f _ _ _ _ _ _ w w3 E Hf).
    apply preserves_noteLoops;
      [apply TriReveal_highlightNote_touchesOnlyNote
      |apply TriReveal_resetNote_touchesOnlyNote | exact Hn].
Qed.

(** A frame that does not read the geometry of its measure leaves the page
    alone: it returns early, or throws before the first write. *)
Lemma BoolReveal_frameBody_cases (props : Props) (rm : bool)
    (beamsMap : JsMap (list Elem)) (sheet : GraphicalMusicSheet) (measure : Z)
    (prog : Q) :
  (exists e minNoteX, frameGeometry sheet measure e minNoteX) \/
  (exists c, forall w,
      BoolReveal.frameBody props rm beamsMap sheet measure prog w = (c, w)).
Proof.
  unfold BoolReveal.frameBody, frameGeometry.
  destruct (MeasureList sheet) as [|m0 ml] eqn:Eml;
    [right; exists (Normal tt); reflexivity|].
  destruct (Z.leb_spec (Z.of_nat (length (m0 :: ml))) (measure - 1)) as [Hge|Hlt];
    [right; exists (Normal tt); reflexivity|].
  destruct (measureAt (m0 :: ml) (measure - 1)) as [[|s0 staves]|] eqn:Hat;
    try (right; exists (Normal tt); reflexivity).
  destruct (cursorExtent (s0 :: staves) initialExtent Number_MAX_VALUE)
    as [[e minNoteX]|msg] eqn:Hgeo.
  - left. exists e, minNoteX. split.
    + split; [|exact Hlt]. unfold measureAt in Hat.
      destruct (Z.ltb_spec (measure - 1) 0); [discriminate | lia].
    + exists (s0 :: staves). repeat split; [discriminate | exact Hgeo].
  - right. exists (Throw msg). reflexivity.
Qed.

Lemma TriReveal_frameBody_cases (doc : Document) (props : Props)
    (rm : TriReveal.RevealMode) (mcm : JsMap (list Elem))
    (sheet : GraphicalMusicSheet) (measure : Z) (prog : Q) :
  (exists e minNoteX, frameGeometry sheet measure e minNoteX) \/
  (exists c, forall w,
      TriReveal.frameBody doc props rm mcm sheet measure prog w = (c, w)).
Proof.
  unfold TriReveal.frameBody, frameGeometry.
  destruct (MeasureList sheet) as [|m0 ml] eqn:Eml;
    [right; exists (Normal tt); reflexivity|].
  destruct (Z.leb_spec (Z.of_nat (length (m0 :: ml))) (measure - 1)) as [Hge|Hlt];
    [right; exists (Normal tt); reflexivity|].
  destruct (measureAt (m0 :: ml) (measure - 1)) as [[|s0 staves]|] eqn:Hat;
    try (right; exists (Normal tt); reflexivity).
  destruct (cursorExtent (s0 :: staves) initialExtent Number_MAX_VALUE)
    as [[e minNoteX]|msg] eqn:Hgeo.
  - left. exists e, minNoteX. split.
    + split; [|exact Hlt]. unfold measureAt in Hat.
      destruct (Z.ltb_spec (measure - 1) 0); [discriminate | lia].
    + exists (s0 :: staves). repeat split; [discriminate | exact Hgeo].
  - right. exists (Throw msg). reflexivity.
Qed.

Lemma try_catch_log_untouched {F : Type} (f : World -> F) (label : string)
    (body : Cmd unit) (c : Completion unit) (w : World) :
  (forall msg w, f (console_error msg w) = f w) ->
  body w = (c, w) -> f (snd (try_catch_log label body w)) = f w.
Proof.
  intros Hf E. unfold try_catch_log. rewrite E.
  destruct c as [[]|msg]; simpl; [reflexivity | apply Hf].
Qed.

Lemma findCurrentMeasure_progress_bounds (anchors : list Anchor) (t : Q) :
  0 <= progress (findCurrentMeasure anchors t) /\
  progress (findCurrentMeasure anchors t) <= 1.
Proof.
  destruct anchors as [|a0 tl]; [simpl; split; lra|].
  unfold findCurrentMeasure. cbv zeta. simpl progress.
  destruct (measureEndTime _) as [e|]; [|split; lra].
  destruct (Qltb _ e); [apply Math_clamp_bounds | split; lra].
Qed.

Lemma visualStartXOf_ge_minX (measure : Z) (u : Q) (e : Extent) (minNoteX : Q) :
  minX e <= visualStartXOf measure u e minNoteX.
Proof.
  unfold visualStartXOf, Math_max.
  destruct ((measure =? 1)%Z && Qltb minNoteX Number_MAX_VALUE); [|lra].
  destruct (Qltb (minX e) _) eqn:E; [apply Qltb_lt in E; lra | lra].
Qed.

(** The extent of a measure none of whose staves has a shape is the initial
    one, and it is not moderate: the statements below do not speak of it. *)
Lemma cursorExtent_unshaped (staves : list (option GraphicalMeasure)) (acc : Extent)
    (minNoteX : Q) :
  (forall s, In s staves ->
             exists staffMeasure, s = Some staffMeasure /\
                                  PositionAndShape staffMeasure = None) ->
  cursorExtent staves acc minNoteX = Normal (acc, minNoteX).
Proof.
  induction staves as [|s tl IH]; intros H; simpl; [reflexivity|].
  destruct (H s (or_introl eq_refl)) as (staffMeasure & -> & Hshape).
  rewrite Hshape. apply IH. intros s' Hs'. apply H. now right.
Qed.

Lemma unshaped_measure_not_moderate (sheet : GraphicalMusicSheet) (measure : Z)
    (e : Extent) (minNoteX : Q) (staves : list (option GraphicalMeasure)) :
  (forall s, In s staves ->
             exists staffMeasure, s = Some staffMeasure /\
                                  PositionAndShape staffMeasure = None) ->
  cursorExtent staves initialExtent Number_MAX_VALUE = Normal (e, minNoteX) ->
  ~ moderateFrame sheet measure e minNoteX.
Proof.
  intros Hun Hgeo (_ & _ & _ & Hx & _).
  rewrite (cursorExtent_unshaped staves _ _ Hun) in Hgeo.
  injection Hgeo as <- _. revert Hx. unfold moderate. vm_compute. intros H. apply H.
  reflexivity.
Qed.

(** X20 (updateCursorPosition, both viewers): a frame that reads the
    geometry of its measure, with a pixel factor, an extent and a visual
    start of moderate size (at most 2^500 in magnitude, so that the doubles
    of the source do not overflow; this leaves out the measure without
    shapes, whose extent keeps [Number.MAX_VALUE]), shows the cursor: at
    the top of the measure, as high as the measure, in the color of the
    mode, at [systemX + systemWidth * progress], and records the index of
    the measure as the last one drawn.  When a unit has a positive number
    of pixels and the visual start is not right of the measure, the cursor
    lies between the visual start and the right edge of the measure, and
    the visual start is not left of the left edge. *)
Theorem frame_draws_cursor_within_measure :
  forall (props : Props) (t : Q) (w : World) (osmd : OSMD)
         (sheet : GraphicalMusicSheet) (c0 : CursorStyle) (e : Extent) (minNoteX : Q),
    osmdRef props = Some osmd ->
    isLoaded props = true ->
    cursor w = Some c0 ->
    GraphicSheet osmd = Some sheet ->
    let located := findCurrentMeasure (anchors props) t in
    let unitInPixels := unitInPixelsOf sheet in
    let visualStartX := visualStartXOf (loc_measure located) unitInPixels e minNoteX in
    frameGeometry sheet (loc_measure located) e minNoteX ->
    moderateFrame sheet (loc_measure located) e minNoteX ->
    forall w',
      (exists rm beamsMap,
          w' = snd (BoolReveal.updateCursorPosition props rm beamsMap t w)) \/
      (exists doc rm measureContentMap,
          w' = snd (TriReveal.updateCursorPosition doc props rm measureContentMap t w)) ->
      exists c,
        cursor w' = Some c /\
        cursor_display c = "block"%string /\
        cursor_left c = frameCursorX sheet located e minNoteX /\
        cursor_top c = minY e * unitInPixels /\
        cursor_height c = (maxY e - minY e) * unitInPixels /\
        cursor_backgroundColor c =
          match mode props with RECORD => recordColor | PLAYBACK => playbackColor end /\
        lastMeasureIndex w' = (loc_measure located - 1)%Z /\
        (0 < unitInPixels -> visualStartX <= maxX e ->
         minX e * unitInPixels <= visualStartX * unitInPixels /\
         visualStartX * unitInPixels <= cursor_left c /\
         cursor_left c <= maxX e * unitInPixels).
Proof.
  intros props t w osmd sheet c0 e minNoteX Ho Hl Hc Hs located u startX Hgeo _ w' Hw'.
  destruct (frame_reaches_loops props t w osmd sheet c0 e minNoteX Ho Hl Hc Hs Hgeo w' Hw')
    as (w3 & runs & (C & L & _) & _ & Hf).
  eexists. split.
  { rewrite (Hf _ cursor (fun _ _ => eq_refl)
               (fun _ _ _ _ _ _ _ _ => conj eq_refl eq_refl)). exact C. }
  simpl. do 5 (split; [reflexivity|]). split.
  { rewrite (Hf _ lastMeasureIndex (fun _ _ => eq_refl)
               (fun _ _ _ _ _ _ _ _ => conj eq_refl eq_refl)). exact L. }
  intros Hu Hstart.
  pose proof (visualStartXOf_ge_minX (loc_measure located) u e minNoteX) as Hmin.
  destruct (findCurrentMeasure_progress_bounds (anchors props) t) as [Hp0 Hp1].
  fold located in Hp0, Hp1. fold startX in Hmin. fold located. fold u. fold startX.
  assert (Hw : 0 <= (maxX e - startX) * u)
    by (apply Qmult_le_0_compat; lra).
  assert (Hlo : 0 <= (maxX e - startX) * u * progress located)
    by (apply Qmult_le_0_compat; assumption).
  assert (Hhi : (maxX e - startX) * u * progress located <= (maxX e - startX) * u).
  { rewrite <- (Qmult_1_r ((maxX e - startX) * u)) at 2.
    rewrite !(Qmult_comm ((maxX e - startX) * u)).
    apply Qmult_le_compat_r; assumption. }
  split; [|split].
  - apply Qmult_le_compat_r; lra.
  - set (A := startX * u) in *. set (B := (maxX e - startX) * u * progress located) in *.
    lra.
  - assert (Hsum : maxX e * u == startX * u + (maxX e - startX) * u) by ring.
    rewrite Hsum.
    set (A := startX * u) in *. set (B := (maxX e - startX) * u * progress located) in *.
    set (D := (maxX e - startX) * u) in *. lra.
Qed.

Lemma sample_frameGeometry :
  frameGeometry sampleSheet (loc_measure (findCurrentMeasure sampleAnchors 5))
    sampleExtent 2.
Proof.
  split; [vm_compute; split; [discriminate | reflexivity]|].
  eexists. split; [reflexivity|]. split; [discriminate|]. vm_compute. reflexivity.
Qed.

Lemma sample_moderateFrame :
  moderateFrame sampleSheet (loc_measure (findCurrentMeasure sampleAnchors 5))
    sampleExtent 2.
Proof. repeat split; vm_compute; discriminate. Qed.

Lemma frame_draws_cursor_within_measure_witness :
  exists c,
    cursor (snd (TriReveal.updateCursorPosition sampleDocument sampleFrameProps
                   TriReveal.NOTE sampleContentMap 5 sampleWorld)) = Some c /\
    cursor_left c == 54 /\ cursor_top c == 50 /\ cursor_height c == 40.
Proof.
  destruct (frame_draws_cursor_within_measure sampleFrameProps 5 sampleWorld
              (mkOSMD (Some sampleSheet)) sampleSheet
              (mkCursorStyle 0 0 100 "none" "" "") sampleExtent 2
              eq_refl eq_refl eq_refl eq_refl sample_frameGeometry sample_moderateFrame
              (snd (TriReveal.updateCursorPosition sampleDocument sampleFrameProps
                      TriReveal.NOTE sampleContentMap 5 sampleWorld))
              (or_intror (ex_intro _ sampleDocument
                            (ex_intro _ TriReveal.NOTE
                               (ex_intro _ sampleContentMap eq_refl)))))
    as (c & Hc & _ & Hleft & Htop & Hheight & _).
  exists c. split; [exact Hc|].
  rewrite Hleft, Htop, Hheight. repeat split; vm_compute; reflexivity.
Defined.


Lemma scrollLogic_container (x : Q) (i : Z) (w : World) (sc : ScrollContainer) :
  scrollContainer w = Some sc ->
  let target := x - clientWidth sc * (2 # 10) in
  let diff := Qabs (scrollLeft sc - target) in
  scrollContainer (snd (scrollLogic x i w)) =
  Some (mkScrollContainer
          (clientWidth sc)
          (if Qltb 250 diff then scrollLeft sc else target)
          (if negb (i =? lastMeasureIndex w)%Z && Qltb 50 diff
           then target :: smoothScrolls sc else smoothScrolls sc)).
Proof.
  intros Hsc target diff. unfold scrollLogic, modify. cbn [snd]. rewrite Hsc.
  cbv zeta. fold target. fold diff.
  destruct (Qltb 250 diff); destruct (negb (i =? lastMeasureIndex w)%Z && Qltb 50 diff);
    destruct sc; reflexivity.
Qed.

(** X21 (updateCursorPosition, both viewers): the scroll logic of a frame
    that reads the geometry of its measure, with a scroll container present
    and a pixel factor, an extent, a visual start, a container width and a
    scroll offset of moderate size (at most 2^500 in magnitude, so that the
    doubles of the source do not overflow and the cursor position is a
    number; this leaves out the measure without shapes).
    With [target = cursorX - 0.2 * clientWidth], the frame assigns [target]
    to the scroll offset when the offset is at most 250 pixels away from it,
    and leaves the offset alone when it is further away; the width of the
    container is not changed; a smooth scroll to [target] is requested
    exactly when the measure differs from the last one drawn and the offset
    is more than 50 pixels away, whether or not the offset was assigned. *)
Theorem frame_scroll_follows_cursor :
  forall (props : Props) (t : Q) (w : World) (osmd : OSMD)
         (sheet : GraphicalMusicSheet) (c0 : CursorStyle) (e : Extent) (minNoteX : Q)
         (sc : ScrollContainer),
    osmdRef props = Some osmd ->
    isLoaded props = true ->
    cursor w = Some c0 ->
    GraphicSheet osmd = Some sheet ->
    scrollContainer w = Some sc ->
    let located := findCurrentMeasure (anchors props) t in
    let cursorX := frameCursorX sheet located e minNoteX in
    let targetScrollLeft := cursorX - clientWidth sc * (2 # 10) in
    let diff := Qabs (scrollLeft sc - targetScrollLeft) in
    frameGeometry sheet (loc_measure located) e minNoteX ->
    moderateFrame sheet (loc_measure located) e minNoteX ->
    moderate (clientWidth sc) ->
    moderate (scrollLeft sc) ->
    forall w',
      (exists rm beamsMap,
          w' = snd (BoolReveal.updateCursorPosition props rm beamsMap t w)) \/
      (exists doc rm measureContentMap,
          w' = snd (TriReveal.updateCursorPosition doc props rm measureContentMap t w)) ->
      exists sc',
        scrollContainer w' = Some sc' /\
        clientWidth sc' = clientWidth sc /\
        (diff <= 250 -> scrollLeft sc' = targetScrollLeft) /\
        (250 < diff -> scrollLeft sc' = scrollLeft sc) /\
        smoothScrolls sc' =
          if negb (loc_measure located - 1 =? lastMeasureIndex w)%Z && Qltb 50 diff
          then targetScrollLeft :: smoothScrolls sc
          else smoothScrolls sc.
Proof.
  intros props t w osmd sheet c0 e minNoteX sc Ho Hl Hc Hs Hsc located cursorX
         target diff Hgeo _ _ _ w' Hw'.
  destruct (frame_reaches_loops props t w osmd sheet c0 e minNoteX Ho Hl Hc Hs Hgeo w' Hw')
    as (w3 & runs & (_ & _ & S & _) & _ & Hf).
  rewrite (Hf _ scrollContainer (fun _ _ => eq_refl)
             (fun _ _ _ _ _ _ _ _ => conj eq_refl eq_refl)), S.
  rewrite (scrollLogic_container _ _ w sc Hsc). fold located.
  change (visualStartXOf _ _ _ _ * _ + _) with cursorX.
  fold target. fold diff.
  eexists. split; [reflexivity|]. cbn [clientWidth scrollLeft smoothScrolls].
  split; [reflexivity|]. split; [|split; [|reflexivity]].
  - intros H. destruct (Qltb 250 diff) eqn:E250; [apply Qltb_lt in E250; lra | reflexivity].
  - intros H. apply Qltb_lt in H. rewrite H. reflexivity.
Qed.

Lemma sample_moderate_400 : moderate 400.
Proof. vm_compute. discriminate. Qed.

Lemma sample_moderate_0 : moderate 0.
Proof. vm_compute. discriminate. Qed.

Lemma frame_scroll_follows_cursor_witness :
  exists sc',
    scrollContainer
      (snd (BoolReveal.updateCursorPosition sampleFrameProps true sampleBeamsMap 5
              sampleWorld)) = Some sc' /\
    scrollLeft sc' == 54 - 80 /\ smoothScrolls sc' = [].
Proof.
  destruct (frame_scroll_follows_cursor sampleFrameProps 5 sampleWorld
              (mkOSMD (Some sampleSheet)) sampleSheet
              (mkCursorStyle 0 0 100 "none" "" "") sampleExtent 2
              (mkScrollContainer 400 0 [])
              eq_refl eq_refl eq_refl eq_refl eq_refl sample_frameGeometry
              sample_moderateFrame sample_moderate_400 sample_moderate_0
              (snd (BoolReveal.updateCursorPosition sampleFrameProps true
                      sampleBeamsMap 5 sampleWorld))
              (or_introl (ex_intro _ true (ex_intro _ sampleBeamsMap eq_refl))))
    as (sc' & Hsc & _ & Hnear & _ & Hsmooth).
  exists sc'. split; [exact Hsc|]. split.
  - rewrite Hnear; vm_compute; [reflexivity | discriminate].
  - rewrite Hsmooth. vm_compute. reflexivity.
Defined.


(** X22 (updateCursorPosition, both viewers): the highlight progress of a
    frame is the position of the cursor across the full width of the measure:
    in a measure of positive width,
    [cursorX = (minX + highlightProgress * (maxX - minX)) * unitInPixels];
    and it is a fraction between 0 and 1 when the visual start is not right
    of the measure. *)
Theorem highlight_progress_is_cursor_position :
  forall (sheet : GraphicalMusicSheet) (anchors : list Anchor) (t : Q)
         (e : Extent) (minNoteX : Q),
    let located := findCurrentMeasure anchors t in
    let unitInPixels := unitInPixelsOf sheet in
    let visualStartX := visualStartXOf (loc_measure located) unitInPixels e minNoteX in
    let highlightProgress := frameHighlightProgress sheet located e minNoteX in
    minX e < maxX e ->
    frameCursorX sheet located e minNoteX ==
      (minX e + highlightProgress * (maxX e - minX e)) * unitInPixels /\
    (visualStartX <= maxX e -> 0 <= highlightProgress /\ highlightProgress <= 1).
Proof.
  intros sheet anchors t e minNoteX located u startX hp Hwidth.
  pose proof (visualStartXOf_ge_minX (loc_measure located) u e minNoteX) as Hmin.
  destruct (findCurrentMeasure_progress_bounds anchors t) as [Hp0 Hp1].
  fold located in Hp0, Hp1. fold startX in Hmin.
  assert (Hhp : hp == (startX - minX e) / (maxX e - minX e) +
                      progress located * ((maxX e - startX) / (maxX e - minX e))).
  { subst hp. unfold frameHighlightProgress, highlightProgressOf. fold u. fold startX.
    assert (E : Qltb 0 (maxX e - minX e) = true) by (apply Qltb_lt; lra).
    rewrite E. reflexivity. }
  assert (Hne : ~ maxX e - minX e == 0) by lra.
  assert (Hscaled : hp * (maxX e - minX e) ==
                    (startX - minX e) + progress located * (maxX e - startX)).
  { rewrite Hhp. field. exact Hne. }
  split.
  - unfold frameCursorX. fold u. fold startX.
    assert (E : (minX e + hp * (maxX e - minX e)) * u ==
                (minX e + ((startX - minX e) + progress located * (maxX e - startX))) * u)
      by (rewrite Hscaled; reflexivity).
    rewrite E. ring.
  - intros Hstart.
    assert (Hlo : 0 <= progress located * (maxX e - startX))
      by (apply Qmult_le_0_compat; lra).
    assert (Hhi : progress located * (maxX e - startX) <= maxX e - startX).
    { rewrite <- (Qmult_1_l (maxX e - startX)) at 2.
      apply Qmult_le_compat_r; lra. }
    assert (H0 : 0 <= hp * (maxX e - minX e)) by (rewrite Hscaled; lra).
    assert (H1 : hp * (maxX e - minX e) <= 1 * (maxX e - minX e))
      by (rewrite Hscaled; lra).
    split.
    + destruct (Qlt_le_dec hp 0) as [Hneg|]; [|assumption].
      exfalso.
      assert (hp * (maxX e - minX e) < 0).
      { assert (E : hp * (maxX e - minX e) == - ((- hp) * (maxX e - minX e))) by ring.
        assert (0 < (- hp) * (maxX e - minX e)) by (apply Qmult_lt_0_compat; lra).
        lra. }
      lra.
    + apply (Qmult_le_r _ _ (maxX e - minX e)); [lra | exact H1].
Qed.

Lemma highlight_progress_is_cursor_position_witness :
  minX sampleExtent < maxX sampleExtent /\
  frameCursorX sampleSheet (findCurrentMeasure sampleAnchors 5) sampleExtent 2 ==
    (minX sampleExtent +
     frameHighlightProgress sampleSheet (findCurrentMeasure sampleAnchors 5)
       sampleExtent 2 * (maxX sampleExtent - minX sampleExtent)) *
    unitInPixelsOf sampleSheet.
Proof.
  assert (H : minX sampleExtent < maxX sampleExtent) by (vm_compute; reflexivity).
  split; [exact H|].
  exact (proj1 (highlight_progress_is_cursor_position sampleSheet sampleAnchors 5
                  sampleExtent 2 H)).
Defined.


(** A frame either reads the geometry of its measure, or leaves the page
    alone but for a line on the console. *)
Lemma frame_cases (props : Props) (t : Q) (w w' : World) :
  (exists rm beamsMap, w' = snd (BoolReveal.updateCursorPosition props rm beamsMap t w)) \/
  (exists doc rm measureContentMap,
      w' = snd (TriReveal.updateCursorPosition doc props rm measureContentMap t w)) ->
  (forall (F : Type) (f : World -> F),
      (forall msg w, f (console_error msg w) = f w) -> f w' = f w) \/
  (exists osmd sheet c0 e minNoteX,
      osmdRef props = Some osmd /\ isLoaded props = true /\ cursor w = Some c0 /\
      GraphicSheet osmd = Some sheet /\
      frameGeometry sheet (loc_measure (findCurrentMeasure (anchors props) t))
        e minNoteX).
Proof.
  intros [(rm & bm & ->) | (doc & rm & mcm & ->)].
  - unfold BoolReveal.updateCursorPosition.
    destruct (osmdRef props) as [osmd|]; [|left; reflexivity].
    destruct (isLoaded props); [|left; reflexivity].
    destruct (cursor w) as [c0|] eqn:Ec; [|left; reflexivity].
    destruct (GraphicSheet osmd) as [sheet|] eqn:Es; [|left; reflexivity].
    destruct (BoolReveal_frameBody_cases props rm bm sheet
                (loc_measure (findCurrentMeasure (anchors props) t))
                (progress (findCurrentMeasure (anchors props) t)))
      as [(e & minNoteX & Hgeo) | (c & Hc')].
    + right. exists osmd, sheet, c0, e, minNoteX. auto.
    + left. intros F f Hf. apply (try_catch_log_untouched f _ _ c w Hf (Hc' w)).
  - unfold TriReveal.updateCursorPosition.
    destruct (osmdRef props) as [osmd|]; [|left; reflexivity].
    destruct (isLoaded props); [|left; reflexivity].
    destruct (cursor w) as [c0|] eqn:Ec; [|left; reflexivity].
    destruct (GraphicSheet osmd) as [sheet|] eqn:Es; [|left; reflexivity].
    destruct (TriReveal_frameBody_cases doc props rm mcm sheet
                (loc_measure (findCurrentMeasure (anchors props) t))
                (progress (findCurrentMeasure (anchors props) t)))
      as [(e & minNoteX & Hgeo) | (c & Hc')].
    + right. exists osmd, sheet, c0, e, minNoteX. auto.
    + left. intros F f Hf. apply (try_catch_log_untouched f _ _ c w Hf (Hc' w)).
Qed.

(** X23 (updateCursorPosition, both viewers): a frame never changes the
    color of an element that is not the element of a note filed under the
    measure it draws, whatever the mode and the reveal mode; and when the
    measure is the one drawn last, it does not change the opacity of such an
    element either. *)
Theorem frame_touches_only_the_notes_of_its_measure :
  forall (props : Props) (t : Q) (w w' : World),
    (exists rm beamsMap,
        w' = snd (BoolReveal.updateCursorPosition props rm beamsMap t w)) \/
    (exists doc rm measureContentMap,
        w' = snd (TriReveal.updateCursorPosition doc props rm measureContentMap t w)) ->
    let measure := loc_measure (findCurrentMeasure (anchors props) t) in
    forall el : Elem,
      (forall ns n, Map_get (noteMap props) measure = Some ns -> In n ns ->
                    element n <> Some el) ->
      color w' !! el = color w !! el /\
      (lastMeasureIndex w = (measure - 1)%Z -> opacity w' !! el = opacity w !! el).
Proof.
  intros props t w w' Hw' measure el Hel.
  destruct (frame_cases props t w w' Hw')
    as [Hsame | (osmd & sheet & c0 & e & minNoteX & Ho & Hl & Hc & Hs & Hgeo)].
  - split; [|intros _].
    + apply (Hsame _ (fun w => color w !! el)). reflexivity.
    + apply (Hsame _ (fun w => opacity w !! el)). reflexivity.
  - destruct (frame_reaches_loops props t w osmd sheet c0 e minNoteX Ho Hl Hc Hs Hgeo
                w' Hw')
      as (w3 & runs & (_ & _ & _ & Hcol & _ & _ & Hop) & Hruns & Hf).
    assert (Hne : forall ns n el', Map_get (noteMap props) measure = Some ns ->
                    In n ns -> element n = Some el' -> el' <> el).
    { intros ns n el' Hns Hn Hn' ->. apply (Hel ns n Hns Hn Hn'). }
    split; [|intros Hlast].
    + rewrite (Hf _ (fun w => color w !! el) (fun _ _ => eq_refl)).
      * rewrite Hcol. reflexivity.
      * intros ns n el' v w0 Hns Hn Hn'. split; [reflexivity|].
        simpl. apply lookup_insert_ne. apply (Hne ns n el' Hns Hn Hn').
    + rewrite (Hf _ (fun w => opacity w !! el) (fun _ _ => eq_refl)).
      * rewrite (Hop (Hruns Hlast)). reflexivity.
      * intros ns n el' v w0 Hns Hn Hn'. split; [|reflexivity].
        simpl. apply lookup_insert_ne. apply (Hne ns n el' Hns Hn Hn').
Qed.

Lemma frame_touches_only_the_notes_of_its_measure_witness :
  color (snd (TriReveal.updateCursorPosition sampleDocument sampleFrameProps
                TriReveal.NOTE sampleContentMap 5 sampleWorld)) !! 2%nat =
  color sampleWorld !! 2%nat.
Proof.
  apply (frame_touches_only_the_notes_of_its_measure sampleFrameProps 5 sampleWorld
           (snd (TriReveal.updateCursorPosition sampleDocument sampleFrameProps
                   TriReveal.NOTE sampleContentMap 5 sampleWorld))
           (or_intror (ex_intro _ sampleDocument
                         (ex_intro _ TriReveal.NOTE
                            (ex_intro _ sampleContentMap eq_refl))))
           2%nat).
  intros ns n Hns Hn. vm_compute in Hns. injection Hns as <-.
  destruct Hn as [<-|[<-|[]]]; discriminate.
Defined.


(** X24 (updateCursorPosition, both viewers): a frame whose measure is not
    one of the measures 1 .. length of the score returns at once and changes
    nothing: the cursor stays where the last frame put it, and nothing is
    written to the console. *)
Theorem frame_outside_the_score_changes_nothing :
  forall (props : Props) (t : Q) (w : World),
    let measure := loc_measure (findCurrentMeasure (anchors props) t) in
    (forall osmd sheet,
        osmdRef props = Some osmd -> GraphicSheet osmd = Some sheet ->
        ~ (1 <= measure <= Z.of_nat (length (MeasureList sheet)))%Z) ->
    (forall rm beamsMap,
        BoolReveal.updateCursorPosition props rm beamsMap t w = (Normal tt, w)) /\
    (forall doc rm measureContentMap,
        TriReveal.updateCursorPosition doc props rm measureContentMap t w =
        (Normal tt, w)).
Proof.
  intros props t w measure Hout.
  assert (Hat : forall sheet,
             ~ (1 <= measure <= Z.of_nat (length (MeasureList sheet)))%Z ->
             MeasureList sheet = [] \/
             (Z.of_nat (length (MeasureList sheet)) <=? measure - 1)%Z = true \/
             measureAt (MeasureList sheet) (measure - 1) = None).
  { intros sheet Hno.
    destruct (Z.leb_spec (Z.of_nat (length (MeasureList sheet))) (measure - 1));
      [right; left; reflexivity|].
    right. right. unfold measureAt.
    destruct (Z.ltb_spec (measure - 1) 0); [reflexivity | lia]. }
  split.
  - intros rm bm. unfold BoolReveal.updateCursorPosition.
    destruct (osmdRef props) as [osmd|] eqn:Eo; [|reflexivity].
    destruct (isLoaded props); [|reflexivity].
    destruct (cursor w); [|reflexivity].
    destruct (GraphicSheet osmd) as [sheet|] eqn:Es; [|reflexivity].
    fold measure. unfold try_catch_log, BoolReveal.frameBody.
    destruct (Hat sheet (Hout osmd sheet eq_refl Es)) as [-> | [H | H]];
      [reflexivity | |].
    + rewrite H. destruct (MeasureList sheet); reflexivity.
    + rewrite H. destruct (MeasureList sheet); [reflexivity|].
      destruct (_ <=? _)%Z; reflexivity.
  - intros doc rm mcm. unfold TriReveal.updateCursorPosition.
    destruct (osmdRef props) as [osmd|] eqn:Eo; [|reflexivity].
    destruct (isLoaded props); [|reflexivity].
    destruct (cursor w); [|reflexivity].
    destruct (GraphicSheet osmd) as [sheet|] eqn:Es; [|reflexivity].
    fold measure. unfold try_catch_log, TriReveal.frameBody.
    destruct (Hat sheet (Hout osmd sheet eq_refl Es)) as [-> | [H | H]];
      [reflexivity | |].
    + rewrite H. destruct (MeasureList sheet); reflexivity.
    + rewrite H. destruct (MeasureList sheet); [reflexivity|].
      destruct (_ <=? _)%Z; reflexivity.
Qed.

Lemma frame_outside_the_score_changes_nothing_witness :
  TriReveal.updateCursorPosition sampleDocument
    (sampleProps [mkAnchor 7 0] PLAYBACK sampleNoteMap)
    TriReveal.NOTE sampleContentMap 1 sampleWorld = (Normal tt, sampleWorld).
Proof.
  apply (frame_outside_the_score_changes_nothing
           (sampleProps [mkAnchor 7 0] PLAYBACK sampleNoteMap) 1 sampleWorld).
  intros osmd sheet Ho Hs. injection Ho as <-. injection Hs as <-.
  vm_compute. intros [_ H]. apply H. reflexivity.
Defined.


(** X25 (updateCursorPosition of the three-state viewer): after a frame
    that reads the geometry of its measure, in curtain mode the curtain is
    shown with its left edge at the cursor and the width 50000px; in the
    other reveal modes the curtain is hidden and keeps its position and
    width. *)
Theorem curtain_follows_the_cursor :
  forall (doc : Document) (props : Props) (rm : TriReveal.RevealMode)
         (measureContentMap : JsMap (list Elem)) (t : Q) (w : World) (osmd : OSMD)
         (sheet : GraphicalMusicSheet) (c0 : CursorStyle) (k0 : CurtainStyle)
         (e : Extent) (minNoteX : Q),
    osmdRef props = Some osmd ->
    isLoaded props = true ->
    cursor w = Some c0 ->
    GraphicSheet osmd = Some sheet ->
    curtain w = Some k0 ->
    frameGeometry sheet (loc_measure (findCurrentMeasure (anchors props) t)) e minNoteX ->
    let w' := snd (TriReveal.updateCursorPosition doc props rm measureContentMap t w) in
    exists c k,
      cursor w' = Some c /\ curtain w' = Some k /\
      match rm with
      | TriReveal.CURTAIN =>
          curtain_display k = "block"%string /\
          curtain_left k = cursor_left c /\
          curtain_width k = "50000px"%string
      | _ =>
          curtain_display k = "none"%string /\
          curtain_left k = curtain_left k0 /\
          curtain_width k = curtain_width k0
      end.
Proof.
  intros doc props rm mcm t w osmd sheet c0 k0 e minNoteX Ho Hl Hc Hs Hk Hgeo w'.
  subst w'.
  rewrite (TriReveal_updateCursorPosition_run doc props rm mcm t w osmd sheet c0
             Ho Hl Hc Hs).
  set (located := findCurrentMeasure (anchors props) t) in *.
  destruct (TriReveal_frameBody_prefix doc props rm mcm sheet (loc_measure located)
              (progress located) e minNoteX Hgeo w) as (w3 & E & (C & _) & K).
  assert (Hloops : preserves (fun w => (cursor w, curtain w))
                     (noteLoops (TriReveal.highlightNote rm
                                   (highlightProgressOf e
                                      (visualStartXOf (loc_measure located)
                                         (unitInPixelsOf sheet) e minNoteX)
                                      (progress located)))
                                TriReveal.resetNote props (loc_measure located))).
  { apply preserves_noteLoops;
      [apply TriReveal_highlightNote_touchesOnlyNote
      |apply TriReveal_resetNote_touchesOnlyNote|].
    intros; split; reflexivity. }
  pose proof (loops_then_catch (fun w => (cursor w, curtain w)) _ _ _ _
                "Error positioning cursor:" _ w w3 E (fun _ _ => eq_refl) Hloops) as H.
  simpl in H. injection H as H1 H2.
  rewrite H1, H2, C, K.
  unfold TriReveal.slideCurtain, modify. cbn [snd]. rewrite Hk.
  destruct rm; eexists; eexists; (split; [reflexivity|]); (split; [reflexivity|]);
    repeat split.
Qed.

Lemma curtain_follows_the_cursor_witness :
  exists c k,
    cursor (snd (TriReveal.updateCursorPosition sampleDocument sampleFrameProps
                   TriReveal.CURTAIN sampleContentMap 5 sampleCurtainWorld)) = Some c /\
    curtain (snd (TriReveal.updateCursorPosition sampleDocument sampleFrameProps
                    TriReveal.CURTAIN sampleContentMap 5 sampleCurtainWorld)) = Some k /\
    curtain_display k = "block"%string /\
    curtain_left k = cursor_left c /\
    curtain_width k = "50000px"%string.
Proof.
  exact (curtain_follows_the_cursor sampleDocument sampleFrameProps TriReveal.CURTAIN
           sampleContentMap 5 sampleCurtainWorld (mkOSMD (Some sampleSheet)) sampleSheet
           (mkCursorStyle 0 0 100 "none" "" "") (mkCurtainStyle "none" 0 "0px")
           sampleExtent 2 eq_refl eq_refl eq_refl eq_refl eq_refl sample_frameGeometry).
Defined.

(** ** The note loops of a frame

    The loops run over the list filed under the measure in its order, and a
    later note overwrites what an earlier note of the same element has
    written: the last note of an element decides. *)

Lemma TriReveal_highlight_last (rm : TriReveal.RevealMode) (hp : Q)
    (pre post : list NoteData) (n : NoteData) (el : Elem) (w : World) :
  element n = Some el ->
  (forall n', In n' post -> element n' <> Some el) ->
  let w' := applyWrites (flat_map (TriReveal_highlightWrites rm hp) (pre ++ n :: post)) w in
  color w' !! el = Some (noteColor hp (timestamp n)) /\
  (rm = TriReveal.NOTE -> opacity w' !! el = Some (noteOpacity hp (timestamp n))).
Proof.
  intros Hel Hpost w'. subst w'. rewrite flat_map_app, applyWrites_app.
  set (w1 := applyWrites _ w). clearbody w1.
  assert (Hsame : forall x, In x (flat_map (TriReveal_highlightWrites rm hp) (n :: post)) ->
             (forall v, x = SetColor el v -> v = noteColor hp (timestamp n)) /\
             (forall v, x = SetOpacity el v -> v = noteOpacity hp (timestamp n))).
  { intros x Hx. apply in_flat_map in Hx. destruct Hx as (n' & Hn' & Hx).
    unfold TriReveal_highlightWrites in Hx.
    destruct (element n') as [el'|] eqn:Eel'; [|destruct Hx].
    assert (Hts : el' = el -> n' = n).
    { intros ->. destruct Hn' as [E|Hn']; [symmetry; exact E|].
      destruct (Hpost n' Hn' Eel'). }
    apply in_app_or in Hx. destruct Hx as [Hx|[<-|[]]].
    - destruct (TriReveal.isNOTE rm); [|destruct Hx].
      destruct Hx as [<-|[]]. split; intros v [= -> <-]. rewrite Hts; reflexivity.
    - split; intros v [= -> <-]. rewrite Hts; reflexivity. }
  split; [|intros ->].
  - apply applyWrites_color.
    + apply in_flat_map. exists n. split; [now left|].
      unfold TriReveal_highlightWrites. rewrite Hel.
      apply in_or_app. right. now left.
    + intros v' Hv. apply (proj1 (Hsame _ Hv)). reflexivity.
  - apply applyWrites_opacity.
    + apply in_flat_map. exists n. split; [now left|].
      unfold TriReveal_highlightWrites. rewrite Hel. simpl. now left.
    + intros v' Hv. apply (proj2 (Hsame _ Hv)). reflexivity.
Qed.

Lemma BoolReveal_highlight_last (rm : bool) (hp : Q)
    (pre post : list NoteData) (n : NoteData) (el : Elem) (w : World) :
  element n = Some el ->
  (forall n', In n' post -> element n' <> Some el) ->
  let w' := applyWrites (flat_map (BoolReveal_highlightWrites rm hp) (pre ++ n :: post)) w in
  color w' !! el = Some (noteColor hp (timestamp n)) /\
  opacity w' !! el = Some (if rm then noteOpacity hp (timestamp n) else "1"%string).
Proof.
  intros Hel Hpost w'. subst w'. rewrite flat_map_app, applyWrites_app.
  set (w1 := applyWrites _ w). clearbody w1.
  assert (Hsame : forall x, In x (flat_map (BoolReveal_highlightWrites rm hp) (n :: post)) ->
             (forall v, x = SetColor el v -> v = noteColor hp (timestamp n)) /\
             (forall v, x = SetOpacity el v ->
                        v = if rm then noteOpacity hp (timestamp n) else "1"%string)).
  { intros x Hx. apply in_flat_map in Hx. destruct Hx as (n' & Hn' & Hx).
    unfold BoolReveal_highlightWrites in Hx.
    destruct (element n') as [el'|] eqn:Eel'; [|destruct Hx].
    assert (Hts : el' = el -> n' = n).
    { intros ->. destruct Hn' as [E|Hn']; [symmetry; exact E|].
      destruct (Hpost n' Hn' Eel'). }
    destruct Hx as [<-|[<-|[]]]; split; intros v [= -> <-]; rewrite Hts; reflexivity. }
  split.
  - apply applyWrites_color.
    + apply in_flat_map. exists n. split; [now left|].
      unfold BoolReveal_highlightWrites. rewrite Hel. right. now left.
    + intros v' Hv. apply (proj1 (Hsame _ Hv)). reflexivity.
  - apply applyWrites_opacity.
    + apply in_flat_map. exists n. split; [now left|].
      unfold BoolReveal_highlightWrites. rewrite Hel. now left.
    + intros v' Hv. apply (proj2 (Hsame _ Hv)). reflexivity.
Qed.

(** The color and the opacity of the note loop, by the interval and the
    bound of the tests on a finite timestamp. *)
Lemma noteColor_interval (hp ts : Q) (c : option string) :
  c = Some (noteColor hp (Fin ts)) ->
  (c = Some highlightColor <-> ts - (4#100) <= hp /\ hp <= ts + (1#100)).
Proof.
  intros ->. unfold noteColor. rewrite <- isHighlighted_interval.
  destruct (isHighlighted hp (Fin ts)); split; intros H;
    try reflexivity; discriminate.
Qed.

Lemma noteOpacity_bound (hp ts : Q) (o : option string) :
  o = Some (noteOpacity hp (Fin ts)) ->
  (o = Some "0"%string <-> hp < ts - (4#100)).
Proof.
  intros ->. unfold noteOpacity. rewrite <- isAhead_interval.
  destruct (isAhead hp (Fin ts)); split; intros H;
    try reflexivity; discriminate.
Qed.

(** X26 (updateCursorPosition of the three-state viewer, the note loops).
    After a frame of the ready viewer that reads the geometry of its
    measure, with [ns] the list of notes filed under that measure:
    in playback mode the element of a note of [ns] has the color and, in
    NOTE reveal mode, the opacity that the last note of [ns] with this
    element decides: the color of the test of the color logic and the
    opacity of the test of the reveal logic on the timestamp of that note,
    which for a finite timestamp is the highlight color exactly when the
    highlight progress lies in [timestamp - 0.04, timestamp + 0.01] and the
    default color otherwise, and opacity 0 exactly when the highlight
    progress is below timestamp - 0.04 and opacity 1 otherwise.  In record
    mode the element of every note of [ns] has the default color and
    opacity 1. *)
Theorem TriReveal_frame_highlights_notes :
  forall (doc : Document) (props : Props) (rm : TriReveal.RevealMode)
         (mcm : JsMap (list Elem)) (t : Q) (w : World)
         (osmd : OSMD) (sheet : GraphicalMusicSheet) (c0 : CursorStyle)
         (e : Extent) (minNoteX : Q) (ns : list NoteData),
    osmdRef props = Some osmd ->
    isLoaded props = true ->
    cursor w = Some c0 ->
    GraphicSheet osmd = Some sheet ->
    let located := findCurrentMeasure (anchors props) t in
    let hp := frameHighlightProgress sheet located e minNoteX in
    let w' := snd (TriReveal.updateCursorPosition doc props rm mcm t w) in
    frameGeometry sheet (loc_measure located) e minNoteX ->
    Map_get (noteMap props) (loc_measure located) = Some ns ->
    (mode props = PLAYBACK ->
     forall pre n post el,
       ns = pre ++ n :: post ->
       element n = Some el ->
       (forall n', In n' post -> element n' <> Some el) ->
       color w' !! el = Some (noteColor hp (timestamp n)) /\
       (rm = TriReveal.NOTE ->
        opacity w' !! el = Some (noteOpacity hp (timestamp n))) /\
       (forall ts, timestamp n = Fin ts ->
          (color w' !! el = Some highlightColor <->
           ts - (4#100) <= hp /\ hp <= ts + (1#100)) /\
          (color w' !! el = Some highlightColor \/ color w' !! el = Some defaultColor) /\
          (rm = TriReveal.NOTE ->
           (opacity w' !! el = Some "0"%string <-> hp < ts - (4#100)) /\
           (opacity w' !! el = Some "0"%string \/ opacity w' !! el = Some "1"%string)))) /\
    (mode props = RECORD ->
     forall n el, In n ns -> element n = Some el ->
       color w' !! el = Some defaultColor /\ opacity w' !! el = Some "1"%string).
Proof.
  intros doc props rm mcm t w osmd sheet c0 e minNoteX ns Ho Hl Hc Hs
         located hp w' Hgeo Hns.
  subst w'.
  rewrite (TriReveal_updateCursorPosition_run doc props rm mcm t w osmd sheet c0
             Ho Hl Hc Hs).
  fold located.
  destruct (TriReveal_frameBody_reaches doc props rm mcm sheet
              (loc_measure located) (progress located) e minNoteX Hgeo w)
    as (w3 & E).
  rewrite Hns in E. split; intros Hmode; rewrite Hmode in E.
  - intros pre n post el Hsplit Hel Hpost.
    assert (Hw : writes (forEach (TriReveal.highlightNote rm hp) ns ;; ret tt)
                        (flat_map (TriReveal_highlightWrites rm hp) ns ++ [])).
    { apply writes_seq; [|apply writes_ret].
      apply writes_forEach. intros a _. apply TriReveal_highlightNote_writes. }
    rewrite app_nil_r in Hw.
    rewrite (try_catch_log_normal _ _ w _ (eq_trans E (Hw w3))). simpl snd.
    rewrite Hsplit.
    destruct (TriReveal_highlight_last rm hp pre post n el w3 Hel Hpost)
      as [Hcolor Hopacity].
    split; [exact Hcolor|]. split; [exact Hopacity|].
    intros ts Hts. rewrite Hts in Hcolor, Hopacity.
    split; [apply noteColor_interval, Hcolor|]. split.
    + rewrite Hcolor. unfold noteColor. destruct (isHighlighted hp (Fin ts)); auto.
    + intros Hrm. specialize (Hopacity Hrm).
      split; [apply noteOpacity_bound, Hopacity|].
      rewrite Hopacity. unfold noteOpacity. destruct (isAhead hp (Fin ts)); auto.
  - intros n el Hn Hel.
    assert (Hw : writes (ret tt ;; forEach TriReveal.resetNote ns)
                        ([] ++ flat_map resetWrites ns)).
    { apply writes_seq; [apply writes_ret|].
      apply writes_forEach. intros a _. apply TriReveal_resetNote_writes. }
    simpl app in Hw.
    rewrite (try_catch_log_normal _ _ w _ (eq_trans E (Hw w3))). simpl snd.
    apply (reset_loop ns w3 n el Hn Hel).
Qed.

(** X27 (updateCursorPosition of the boolean viewer, the playback loop).
    After a frame of the ready viewer in playback mode that reads the
    geometry of its measure, with [ns] the list of notes filed under that
    measure: the element of a note of [ns] has the color and the opacity
    that the last note of [ns] with this element decides: the color of the
    test of the color logic on the timestamp of that note, which for a
    finite timestamp is the highlight color exactly when the highlight
    progress lies in [timestamp - 0.04, timestamp + 0.01] and the default
    color otherwise; with reveal on, opacity 0 exactly when the highlight
    progress is below timestamp - 0.04 and opacity 1 otherwise; with reveal
    off, opacity 1. *)
Theorem BoolReveal_frame_highlights_notes :
  forall (props : Props) (rm : bool) (beamsMap : JsMap (list Elem)) (t : Q)
         (w : World) (osmd : OSMD) (sheet : GraphicalMusicSheet) (c0 : CursorStyle)
         (e : Extent) (minNoteX : Q) (ns : list NoteData),
    osmdRef props = Some osmd ->
    isLoaded props = true ->
    cursor w = Some c0 ->
    GraphicSheet osmd = Some sheet ->
    let located := findCurrentMeasure (anchors props) t in
    let hp := frameHighlightProgress sheet located e minNoteX in
    let w' := snd (BoolReveal.updateCursorPosition props rm beamsMap t w) in
    frameGeometry sheet (loc_measure located) e minNoteX ->
    Map_get (noteMap props) (loc_measure located) = Some ns ->
    mode props = PLAYBACK ->
    forall pre n post el,
      ns = pre ++ n :: post ->
      element n = Some el ->
      (forall n', In n' post -> element n' <> Some el) ->
      color w' !! el = Some (noteColor hp (timestamp n)) /\
      opacity w' !! el =
        Some (if rm then noteOpacity hp (timestamp n) else "1"%string) /\
      (forall ts, timestamp n = Fin ts ->
         (color w' !! el = Some highlightColor <->
          ts - (4#100) <= hp /\ hp <= ts + (1#100)) /\
         (color w' !! el = Some highlightColor \/ color w' !! el = Some defaultColor) /\
         (rm = true ->
          (opacity w' !! el = Some "0"%string <-> hp < ts - (4#100)) /\
          (opacity w' !! el = Some "0"%string \/ opacity w' !! el = Some "1"%string))).
Proof.
  intros props rm beamsMap t w osmd sheet c0 e minNoteX ns Ho Hl Hc Hs
         located hp w' Hgeo Hns Hmode pre n post el Hsplit Hel Hpost.
  subst w'.
  rewrite (BoolReveal_updateCursorPosition_run props rm beamsMap t w osmd sheet c0
             Ho Hl Hc Hs).
  fold located.
  destruct (BoolReveal_frameBody_reaches props rm beamsMap sheet
              (loc_measure located) (progress located) e minNoteX Hgeo w)
    as (w3 & E).
  rewrite Hns, Hmode in E.
  assert (Hw : writes (forEach (BoolReveal.highlightNote rm hp) ns ;; ret tt)
                      (flat_map (BoolReveal_highlightWrites rm hp) ns ++ [])).
  { apply writes_seq; [|apply writes_ret].
    apply writes_forEach. intros a _. apply BoolReveal_highlightNote_writes. }
  rewrite app_nil_r in Hw.
  rewrite (try_catch_log_normal _ _ w _ (eq_trans E (Hw w3))). simpl snd.
  rewrite Hsplit.
  destruct (BoolReveal_highlight_last rm hp pre post n el w3 Hel Hpost)
    as [Hcolor Hopacity].
  split; [exact Hcolor|]. split; [exact Hopacity|].
  intros ts Hts. rewrite Hts in Hcolor, Hopacity.
  split; [apply noteColor_interval, Hcolor|]. split.
  - rewrite Hcolor. unfold noteColor. destruct (isHighlighted hp (Fin ts)); auto.
  - intros ->. split; [apply noteOpacity_bound, Hopacity|].
    rewrite Hopacity. unfold noteOpacity. destruct (isAhead hp (Fin ts)); auto.
Qed.

(** ** The note loops on the sample score

    At 5.5 seconds the cursor is 55 percent through measure 1 and the
    highlight progress is 0.586: the note at 0.6 is within its window, so it
    is shown and has the highlight color; the note at 0.2 has passed and has
    the default color. *)

Lemma sample_frameGeometry_later :
  frameGeometry sampleSheet (loc_measure (findCurrentMeasure sampleAnchors (11#2)))
    sampleExtent 2.
Proof.
  split; [vm_compute; split; [discriminate | reflexivity]|].
  eexists. split; [reflexivity|]. split; [discriminate|]. vm_compute. reflexivity.
Qed.

Lemma TriReveal_frame_highlights_notes_witness :
  let w' := snd (TriReveal.updateCursorPosition sampleDocument sampleFrameProps
                   TriReveal.NOTE sampleContentMap (11#2) sampleWorld) in
  (color w' !! 4%nat = Some highlightColor /\ opacity w' !! 4%nat = Some "1"%string) /\
  (color w' !! 1%nat = Some defaultColor /\ opacity w' !! 1%nat = Some "1"%string).
Proof.
  cbv zeta.
  pose proof (proj1 (TriReveal_frame_highlights_notes sampleDocument sampleFrameProps
                       TriReveal.NOTE sampleContentMap (11#2) sampleWorld
                       (mkOSMD (Some sampleSheet)) sampleSheet
                       (mkCursorStyle 0 0 100 "none" "" "") sampleExtent 2
                       [sampleNote "n1" 1%Z 1%nat (20#100);
                        sampleNote "n2" 1%Z 4%nat (60#100)]
                       eq_refl eq_refl eq_refl eq_refl sample_frameGeometry_later eq_refl)
                eq_refl) as H.
  split.
  - destruct (H [sampleNote "n1" 1%Z 1%nat (20#100)]
                (sampleNote "n2" 1%Z 4%nat (60#100)) [] 4%nat eq_refl eq_refl)
      as (Hcolor & Hopacity & _); [intros n' []|].
    split; [exact Hcolor | exact (Hopacity eq_refl)].
  - destruct (H [] (sampleNote "n1" 1%Z 1%nat (20#100))
                [sampleNote "n2" 1%Z 4%nat (60#100)] 1%nat eq_refl eq_refl)
      as (Hcolor & Hopacity & _); [intros n' [<-|[]]; discriminate|].
    split; [exact Hcolor | exact (Hopacity eq_refl)].
Defined.

Lemma BoolReveal_frame_highlights_notes_witness :
  let w' := snd (BoolReveal.updateCursorPosition sampleFrameProps true sampleBeamsMap
                   (11#2) sampleWorld) in
  color w' !! 4%nat = Some highlightColor /\ opacity w' !! 4%nat = Some "1"%string.
Proof.
  cbv zeta.
  destruct (BoolReveal_frame_highlights_notes sampleFrameProps true sampleBeamsMap
              (11#2) sampleWorld (mkOSMD (Some sampleSheet)) sampleSheet
              (mkCursorStyle 0 0 100 "none" "" "") sampleExtent 2
              [sampleNote "n1" 1%Z 1%nat (20#100); sampleNote "n2" 1%Z 4%nat (60#100)]
              eq_refl eq_refl eq_refl eq_refl sample_frameGeometry_later eq_refl eq_refl
              [sampleNote "n1" 1%Z 1%nat (20#100)]
              (sampleNote "n2" 1%Z 4%nat (60#100)) [] 4%nat eq_refl eq_refl)
    as (Hcolor & Hopacity & _); [intros n' []|].
  split; [exact Hcolor | exact Hopacity].
Defined.

(** ** The rows of the anchor sidebar *)

Lemma fold_left_Zmax_ge (l : list Z) (x : Z) :
  (x <= fold_left Z.max l x)%Z /\ Forall (fun y => y <= fold_left Z.max l x)%Z l.
Proof.
  revert x. induction l as [|y tl IH]; intros x; simpl.
  - split; [lia | constructor].
  - destruct (IH (Z.max x y)) as [H1 H2]. split; [lia|].
    constructor; [lia | exact H2].
Qed.

Lemma maxMeasure_ge (anchors : list Anchor) (a : Anchor) :
  In a anchors -> (measure a <= AnchorSidebar.maxMeasure anchors)%Z.
Proof.
  destruct anchors as [|a0 tl]; [intros []|]. simpl.
  destruct (fold_left_Zmax_ge (map measure tl) (measure a0)) as [H1 H2].
  intros [<-|Hin]; [exact H1|].
  rewrite Forall_forall in H2. apply H2, in_map, Hin.
Qed.

Lemma find_firstWithMeasure (anchors : list Anchor) (m : Z) :
  match find (fun a => (measure a =? m)%Z) anchors with
  | Some a => firstWithMeasure anchors m a
  | None => forall a, In a anchors -> measure a <> m
  end.
Proof.
  induction anchors as [|b tl IH]; simpl; [intros a []|].
  destruct (Z.eqb_spec (measure b) m) as [E|Hne].
  - exists [], tl. split; [reflexivity|]. split; [exact E | constructor].
  - destruct (find _ tl) as [a|].
    + destruct IH as (pre & post & -> & Ha & Hpre).
      exists (b :: pre), post. split; [reflexivity|]. split; [exact Ha|].
      constructor; assumption.
    + intros a [<-|Hin]; [exact Hne | apply IH, Hin].
Qed.

Lemma firstWithMeasure_exists (anchors : list Anchor) (a : Anchor) :
  In a anchors -> exists b, firstWithMeasure anchors (measure a) b.
Proof.
  intros Hin. pose proof (find_firstWithMeasure anchors (measure a)) as H.
  destruct (find _ anchors) as [b|]; [exists b; exact H|].
  destruct (H a Hin eq_refl).
Qed.

Lemma firstWithMeasure_unique (anchors : list Anchor) (m : Z) (a b : Anchor) :
  firstWithMeasure anchors m a -> firstWithMeasure anchors m b -> a = b.
Proof.
  intros (pre & post & -> & Ha & Hpre) (pre' & post' & E & Hb & Hpre').
  revert pre' E Hpre'. induction pre as [|x pre IH]; intros pre' E Hpre'.
  - destruct pre' as [|y pre']; simpl in E.
    + congruence.
    + injection E as <- _. inversion Hpre'; subst. contradiction.
  - destruct pre' as [|y pre']; simpl in E.
    + injection E as <- _. inversion Hpre; subst. contradiction.
    + injection E as <- E. inversion Hpre; subst. inversion Hpre'; subst.
      apply (IH H2 pre' E H4).
Qed.

Lemma rowOf_key (props : AnchorSidebar.SidebarProps) (m : Z) :
  AnchorSidebar.key (AnchorSidebar.rowOf props m) = m.
Proof.
  unfold AnchorSidebar.rowOf. destruct (find _ _); reflexivity.
Qed.

Lemma rows_In (props : AnchorSidebar.SidebarProps) (row : AnchorSidebar.Row) :
  In row (AnchorSidebar.rows props) <->
  exists m, (1 <= m <= AnchorSidebar.maxMeasure (AnchorSidebar.anchors props))%Z /\
            row = AnchorSidebar.rowOf props m.
Proof.
  unfold AnchorSidebar.rows. rewrite in_map_iff. split.
  - intros (i & <- & Hi). apply in_seq in Hi. exists (Z.of_nat i). split; [lia | reflexivity].
  - intros (m & Hm & ->). exists (Z.to_nat m). split.
    + f_equal. lia.
    + apply in_seq. lia.
Qed.

(** X28 (AnchorSidebar): the sidebar draws one row for every measure from
    1 to the largest anchored measure, in order, and no other row.  The row
    of a measure is an anchor row exactly when some anchor has that measure,
    and then it shows the first such anchor of the list; otherwise it is a
    ghost row.  Every anchor of a measure from 1 on has a row for its
    measure, and a click on that row jumps to the time of the first anchor
    of that measure. *)
Theorem sidebar_rows_cover_the_measures :
  forall props : AnchorSidebar.SidebarProps,
    let anchors := AnchorSidebar.anchors props in
    let maxMeasure := AnchorSidebar.maxMeasure anchors in
    map AnchorSidebar.key (AnchorSidebar.rows props) =
      map Z.of_nat (seq 1 (Z.to_nat maxMeasure)) /\
    (forall row, In row (AnchorSidebar.rows props) ->
       match row with
       | AnchorSidebar.AnchorRow m _ a _ _ => firstWithMeasure anchors m a
       | AnchorSidebar.GhostRow m _ => forall a, In a anchors -> measure a <> m
       end) /\
    (forall a, In a anchors -> (1 <= measure a)%Z ->
       exists row b,
         In row (AnchorSidebar.rows props) /\
         AnchorSidebar.key row = measure a /\
         firstWithMeasure anchors (measure a) b /\
         AnchorSidebar.onClick row = Some (time b)).
Proof.
  intros props anchors maxMeasure. split; [|split].
  - unfold AnchorSidebar.rows. rewrite map_map. apply map_ext.
    intros i. apply rowOf_key.
  - intros row Hrow. apply rows_In in Hrow. destruct Hrow as (m & _ & ->).
    unfold AnchorSidebar.rowOf. fold anchors.
    pose proof (find_firstWithMeasure anchors m) as H.
    destruct (find _ anchors); exact H.
  - intros a Hin Hpos.
    destruct (firstWithMeasure_exists anchors a Hin) as (b & Hb).
    exists (AnchorSidebar.rowOf props (measure a)), b.
    split; [|split; [apply rowOf_key | split; [exact Hb|]]].
    + apply rows_In. exists (measure a). split; [|reflexivity].
      split; [exact Hpos | apply maxMeasure_ge, Hin].
    + unfold AnchorSidebar.rowOf. fold anchors.
      pose proof (find_firstWithMeasure anchors (measure a)) as H.
      destruct (find _ anchors) as [b'|].
      * simpl. f_equal. f_equal. apply (firstWithMeasure_unique anchors (measure a)); assumption.
      * destruct (H a Hin eq_refl).
Qed.

(** X29 (AnchorSidebar): what a row lets the user do.  A row is active
    exactly when its measure is the current one.  In playback mode, and for
    measure 1 in every mode, the time input is disabled and there is no
    delete button; in record mode the other anchor rows have an enabled
    input, and a delete button exactly when [handleDelete] is given.  A
    ghost row has a Fix button exactly in record mode with [handleRestamp]
    given. *)
Theorem sidebar_locks_playback_and_measure_one :
  forall (props : AnchorSidebar.SidebarProps) (row : AnchorSidebar.Row),
    In row (AnchorSidebar.rows props) ->
    match row with
    | AnchorSidebar.AnchorRow m isActive _ inputDisabled deleteButton =>
        (isActive = true <-> m = AnchorSidebar.currentMeasure props) /\
        (AnchorSidebar.mode props = PLAYBACK \/ m = 1%Z ->
         inputDisabled = true /\ deleteButton = false) /\
        (AnchorSidebar.mode props = RECORD -> m <> 1%Z ->
         inputDisabled = false /\ deleteButton = AnchorSidebar.handleDelete props)
    | AnchorSidebar.GhostRow m fixButton =>
        (AnchorSidebar.mode props = PLAYBACK -> fixButton = false) /\
        (AnchorSidebar.mode props = RECORD ->
         fixButton = AnchorSidebar.handleRestamp props)
    end.
Proof.
  intros props row Hrow. apply rows_In in Hrow. destruct Hrow as (m & _ & ->).
  unfold AnchorSidebar.rowOf.
  destruct (find _ (AnchorSidebar.anchors props)) as [a|].
  - split; [apply Z.eqb_eq|]. split.
    + intros [Hmode | ->].
      * rewrite Hmode. simpl. split; [reflexivity | rewrite andb_false_r; reflexivity].
      * simpl. split; [apply orb_true_r | reflexivity].
    + intros Hmode Hm. rewrite Hmode. apply Z.eqb_neq in Hm. rewrite Hm.
      split; reflexivity.
  - split; intros Hmode; rewrite Hmode; reflexivity.
Qed.

Lemma sidebar_locks_playback_and_measure_one_witness :
  (true = true <-> 1%Z = 1%Z) /\
  (RECORD = PLAYBACK \/ 1%Z = 1%Z -> true = true /\ false = false) /\
  (RECORD = RECORD -> 1%Z <> 1%Z -> true = false /\ false = true).
Proof.
  apply (sidebar_locks_playback_and_measure_one
           (AnchorSidebar.mkSidebarProps [mkAnchor 1 0; mkAnchor 3 8] RECORD 1 true true)
           (AnchorSidebar.AnchorRow 1 true (mkAnchor 1 0) true false)).
  vm_compute. left. reflexivity.
Defined.

(** ** The names of uploaded files *)

Lemma cleanFileName_length (fileName : JsString) :
  length (cleanFileName fileName) = length fileName.
Proof. apply length_map. Qed.

Lemma cleanFileName_storageChars (fileName : JsString) :
  Forall isStorageChar (cleanFileName fileName).
Proof.
  unfold cleanFileName. apply Forall_forall. intros u Hu.
  apply in_map_iff in Hu. destruct Hu as (x & <- & _).
  destruct (isFileNameChar x) eqn:E; [left; exact E | right; reflexivity].
Qed.

Lemma cleanFileName_fixes (fileName : JsString) :
  Forall isStorageChar fileName -> cleanFileName fileName = fileName.
Proof.
  induction 1 as [|u tl Hu _ IH]; [reflexivity|].
  simpl. rewrite IH. destruct Hu as [-> | ->]; reflexivity.
Qed.

Lemma digitsOf_digits (d : Decimal.uint) :
  Forall (fun u => isFileNameChar u = true /\ u <> underscore) (digitsOf d).
Proof.
  induction d; simpl; constructor; try assumption; split;
    first [reflexivity | discriminate].
Qed.

Lemma digitsOf_inj (d d' : Decimal.uint) : digitsOf d = digitsOf d' -> d = d'.
Proof.
  revert d'. induction d; intros d' H; destruct d'; simpl in H;
    try discriminate; try reflexivity;
    injection H as H; f_equal; apply IHd, H.
Qed.

(** Two strings that agree up to their first underscore agree before it and
    after it. *)
Lemma split_at_underscore (p p' r r' : JsString) :
  Forall (fun u => u <> underscore) p ->
  Forall (fun u => u <> underscore) p' ->
  p ++ underscore :: r = p' ++ underscore :: r' -> p = p' /\ r = r'.
Proof.
  intros Hp. revert p'. induction Hp as [|u p Hu _ IH]; intros p' Hp' E.
  - destruct p' as [|u' p']; simpl in E.
    + injection E as E. auto.
    + injection E as E _. inversion Hp'; subst. congruence.
  - destruct p' as [|u' p']; simpl in E.
    + injection E as E _. congruence.
    + injection E as -> E. inversion Hp'; subst.
      destruct (IH p' H2 E) as [-> ->]. auto.
Qed.

(** X30 (cleanFileName, uploadFile): cleaning a file name keeps its length,
    replaces exactly the code units outside [a-zA-Z0-9.-] by an underscore,
    and cleaning twice is cleaning once.  The name under which a file is
    stored holds only code units of the class and underscores; two stored
    names are equal exactly when the timestamps are equal and the cleaned
    file names are equal, so that names which differ only in replaced
    characters collide within one millisecond. *)
Theorem upload_names_are_safe_and_told_apart_by_timestamp :
  (forall fileName : JsString,
      length (cleanFileName fileName) = length fileName /\
      cleanFileName (cleanFileName fileName) = cleanFileName fileName /\
      (forall i u, nth_error fileName i = Some u ->
         nth_error (cleanFileName fileName) i =
         Some (if isFileNameChar u then u else underscore))) /\
  (forall (timestamp : N) (name : JsString),
      Forall isStorageChar (uploadFileName timestamp name)) /\
  (forall (t1 t2 : N) (name1 name2 : JsString),
      uploadFileName t1 name1 = uploadFileName t2 name2 <->
      t1 = t2 /\ cleanFileName name1 = cleanFileName name2).
Proof.
  split; [|split].
  - intros fileName. split; [apply cleanFileName_length|]. split.
    + apply cleanFileName_fixes, cleanFileName_storageChars.
    + intros i u H. unfold cleanFileName. rewrite nth_error_map, H. reflexivity.
  - intros timestamp name. unfold uploadFileName. cbv zeta.
    apply Forall_app. split; [|constructor].
    + eapply Forall_impl; [|apply digitsOf_digits]. intros u [H _]. left. exact H.
    + right. reflexivity.
    + apply cleanFileName_storageChars.
  - intros t1 t2 name1 name2. unfold uploadFileName. cbv zeta. split.
    + intros E.
      destruct (split_at_underscore (Number_toString t1) (Number_toString t2)
                  (cleanFileName name1) (cleanFileName name2)) as [Ht Hn].
      * eapply Forall_impl; [|apply digitsOf_digits]. intros u [_ H]. exact H.
      * eapply Forall_impl; [|apply digitsOf_digits]. intros u [_ H]. exact H.
      * exact E.
      * split; [|exact Hn].
        apply DecimalN.Unsigned.to_uint_inj, digitsOf_inj, Ht.
    + intros [-> ->]. reflexivity.
Qed.
